(** * anytype typing game: the measurement core of [typing-game.tsx] and
      the persistence action of [share.ts]

    The development embeds the typing-test component as explicit state
    passing.

    - JavaScript strings are sequences of UTF-16 code units ([jsstring]).
    - [Date.now()] values and string lengths are integers. The quotients
      and products the component computes from them for the WPM, the
      accuracy and the ghost are binary64 numbers: each [/] and [*] rounds
      its exact result to the nearest binary64 value, ties to even
      ([Binary64.round]); a number is carried as the rational it denotes.
      The exponent range is not bounded, which is exact for every magnitude
      between [2^-1022] and [2^1024]; divisions by zero do not occur on the
      paths modelled. [Math.floor] and [Math.round] land in [Z].
    - The whole seconds of a clock difference, [Math.floor(ms / 1000)], are
      taken of the exact quotient: for every difference between [-2^53]
      and [2^53] this is the floor of the binary64 quotient
      ([wholeSeconds_binary64]).
      The means of the profile statistics are rounded from the exact
      quotient as well.
    - React state cells are fields of a record; an event handler together
      with the render and the effect flush it causes is one step of a
      transition function, so every handler runs to completion and its
      updates are committed before the next event is delivered. Timers are
      explicit pending callbacks that keep the values their closure
      captured; callbacks deferred with [setTimeout(..., 0)] are events of
      their own and run in the order they were scheduled. An asynchronous
      handler that settles later brings along what its closure captured
      when it was invoked.
    - A state update requested from inside an effect is rendered before any
      timer callback runs. *)

From Stdlib Require Import ZArith QArith Qround Qpower List Bool Lia Lqa.
From Stdlib Require Import String Ascii Sorted.
Import ListNotations.

Open Scope Z_scope.

(** ** JavaScript values *)

Module JS.

(** A UTF-16 code unit. *)
Definition code_unit := N.

(** A string, as [split("")] and [s[i]] see it. *)
Definition jsstring := list code_unit.

(** Literals for examples. *)
Definition str (s : string) : jsstring :=
  map N_of_ascii (list_ascii_of_string s).

(** [s[index]]: [undefined] (here [None]) out of range. *)
Definition charAt (s : jsstring) (index : nat) : option code_unit :=
  nth_error s index.

(** [char === s[index]] for a one-unit string [char]. *)
Definition strictEq (char : code_unit) (other : option code_unit) : bool :=
  match other with
  | Some c => N.eqb char c
  | None => false
  end.

(** [Array.prototype.filter]: the callback receives the element and its
    index. *)
Fixpoint filter_from {A} (f : A -> nat -> bool) (index : nat) (l : list A)
  : list A :=
  match l with
  | [] => []
  | x :: rest =>
      if f x index then x :: filter_from f (S index) rest
      else filter_from f (S index) rest
  end.

Definition Array_filter {A} (f : A -> nat -> bool) (l : list A) : list A :=
  filter_from f 0 l.

(** [Math.floor] and [Math.round] (ties go up) of the rational a number
    denotes. *)
Definition Math_floor (x : Q) : Z := Qfloor x.
Definition Math_round (x : Q) : Z := Qfloor (x + (1 # 2)).

(** [0 < x] as a test. *)
Definition Qpositive (x : Q) : bool := negb (Qle_bool x 0).

(** Truthiness of a [number | null] holding an integer. *)
Definition truthy (x : option Z) : bool :=
  match x with
  | Some v => negb (v =? 0)
  | None => false
  end.

(** [a || b] for a [number | null] left operand. *)
Definition orElse (x : option Z) (fallback : Z) : Z :=
  match x with
  | Some v => if v =? 0 then fallback else v
  | None => fallback
  end.

(** [a === b] on strings: the same code units in the same order. *)
Fixpoint jsstring_eqb (a b : jsstring) : bool :=
  match a with
  | [] => match b with [] => true | _ :: _ => false end
  | x :: a' =>
      match b with
      | [] => false
      | y :: b' => N.eqb x y && jsstring_eqb a' b'
      end
  end.

Definition optionZ_eqb (x y : option Z) : bool :=
  match x, y with
  | Some a, Some b => a =? b
  | None, None => true
  | _, _ => false
  end.

End JS.

Import JS.

(** ** Binary64 arithmetic *)

Module Binary64.

(** [floor(log2 x)] for a positive [x]. *)
Definition exponent (x : Q) : Z :=
  let d := Z.log2 (Qnum x) - Z.log2 (Zpos (Qden x)) in
  if Qle_bool (2 ^ d) x then d else d - 1.

(** The nearest integer, ties to even. *)
Definition nearestEven (x : Q) : Z :=
  let below := Qfloor x in
  match (x - inject_Z below ?= 1 # 2)%Q with
  | Lt => below
  | Gt => below + 1
  | Eq => if Z.even below then below else below + 1
  end.

(** The spacing of the numbers with a 53-bit significand around a
    positive [x]. *)
Definition ulp (x : Q) : Q := (2 ^ (exponent x - 52))%Q.

(** The nearest number with a 53-bit significand, for a positive [x]. *)
Definition roundPositive (x : Q) : Q :=
  (inject_Z (nearestEven (x / ulp x)) * ulp x)%Q.

(** Round to nearest, ties to even. *)
Definition round (x : Q) : Q :=
  match (0 ?= x)%Q with
  | Eq => 0%Q
  | Lt => roundPositive x
  | Gt => (- roundPositive (- x))%Q
  end.

(** [x / y] and [x * y] on numbers. *)
Definition div (x y : Q) : Q := round (x / y).
Definition mul (x y : Q) : Q := round (x * y).

(** The unit roundoff [2^-53]. *)
Definition unitRoundoff : Q := 1 # (2 ^ 53).

End Binary64.

(** ** Text comparator *)

(** [getCorrectChars]:
    [userInput.split("").filter((char, index) => char === text[index]).length] *)
Definition getCorrectChars (userInput text : jsstring) : nat :=
  List.length
    (Array_filter (fun char index => strictEq char (charAt text index))
       userInput).

(** The comparator as the specification words it: the number of positions
    [i < min(len(reference), len(typed))] with [typed[i] == reference[i]]. *)
Definition spec_correctCount (reference typed : jsstring) : nat :=
  List.length
    (filter
       (fun i =>
          match nth_error typed i, nth_error reference i with
          | Some t, Some r => N.eqb t r
          | _, _ => false
          end)
       (seq 0 (Nat.min (List.length reference) (List.length typed)))).

(** Position-wise walk over both strings, used to connect the two. *)
Fixpoint zipCount (reference typed : jsstring) : nat :=
  match reference, typed with
  | r :: rs, t :: ts => ((if N.eqb t r then 1 else 0) + zipCount rs ts)%nat
  | _, _ => 0%nat
  end.

(** ** Metrics engine *)

(** An entry of [wpmHistory]: [{ time, wpm }]. *)
Record Sample := mkSample { time : Z; wpm : Z }.

(** [prev[prev.length - 1]]: [undefined] on the empty array. *)
Definition lastEntry (prev : list Sample) : option Sample :=
  match prev with
  | [] => None
  | x :: rest => Some (last rest x)
  end.

(** The updater handed to [setWpmHistory] in [calculateWPM]: replace the
    latest entry when it is for the same second, append otherwise.
    [prev.slice(0, -1)] is [removelast prev]; either way a new array is
    built. *)
Definition recordSample (timeSeconds wpmNow : Z) (prev : list Sample)
  : list Sample :=
  match lastEntry prev with
  | Some entry =>
      if time entry =? timeSeconds
      then removelast prev ++ [mkSample timeSeconds wpmNow]
      else prev ++ [mkSample timeSeconds wpmNow]
  | None => prev ++ [mkSample timeSeconds wpmNow]
  end.

(** [interface GameState]. *)
Record GameState := mkGameState {
  text : jsstring;
  userInput : jsstring;
  startTime : option Z;
  timer : Z;
  isGameActive : bool;
  isGameFinished : bool;
  finalWPM : Z;
  finalAccuracy : Z
}.

(** [interface GameResult]. *)
Record GameResult := mkGameResult {
  result_wpm : Z;
  result_accuracy : Z;
  result_duration : Z;
  result_wpmHistory : list Sample
}.

(** The timer preference, of type [15 | 30]. *)
Inductive TimerPreference := Seconds15 | Seconds30.

Definition seconds (p : TimerPreference) : Z :=
  match p with
  | Seconds15 => 15
  | Seconds30 => 30
  end.

(** The argument of [saveGameResult]; [wpmHistory] is optional. *)
Record SaveData := mkSaveData {
  data_wpm : Z;
  data_accuracy : Z;
  data_duration : Z;
  data_textExcerpt : jsstring;
  data_wpmHistory : option (list Sample)
}.

(** How the promise returned by [saveGameResult] settles. *)
Inductive SaveOutcome :=
| Resolved (success : bool) (gameResultId : option string)
| Rejected (message : string).

(** State updates an effect or a timer callback requests on the cells
    outside [state]. *)
Inductive CellUpdate :=
| SetCurrentWPM (value : Z)
| RecordSample (timeSeconds wpmNow : Z)
| ResetWpmHistory.

(** What the callback given to [setTimeout(..., 0)] by a finish effect has
    captured: the computed [results] and [state.text]. *)
Record FinishClosure := mkFinishClosure {
  closure_results : GameResult;
  closure_text : jsstring
}.

(** The component instance: its React state cells, its live timers and the
    calls it has made to the outside.
    [wpmHistoryRef] stands for the identity of the array held in
    [wpmHistory]: every [setWpmHistory] call installs a freshly built array,
    and dependency arrays compare it by identity. [wpmInterval] holds the
    [state] object the armed [calculateWPM] closure captured. *)
Record Component := mkComponent {
  state : GameState;
  currentWPM : Z;
  wpmHistory : list Sample;
  wpmHistoryRef : nat;
  savedGameResultId : option string;
  timerPreference : TimerPreference;
  isLoading : bool;
  countdownInterval : bool;
  wpmInterval : option GameState;
  finishTimeouts : list FinishClosure;
  onGameFinishCalls : list GameResult;
  saveGameResultCalls : list SaveData
}.

Definition setState (f : GameState -> GameState) (c : Component) : Component :=
  mkComponent (f (state c)) (currentWPM c) (wpmHistory c) (wpmHistoryRef c)
    (savedGameResultId c) (timerPreference c) (isLoading c)
    (countdownInterval c) (wpmInterval c) (finishTimeouts c)
    (onGameFinishCalls c) (saveGameResultCalls c).

Definition setCurrentWPM (v : Z) (c : Component) : Component :=
  mkComponent (state c) v (wpmHistory c) (wpmHistoryRef c)
    (savedGameResultId c) (timerPreference c) (isLoading c)
    (countdownInterval c) (wpmInterval c) (finishTimeouts c)
    (onGameFinishCalls c) (saveGameResultCalls c).

Definition setWpmHistory (f : list Sample -> list Sample) (c : Component)
  : Component :=
  mkComponent (state c) (currentWPM c) (f (wpmHistory c))
    (S (wpmHistoryRef c))
    (savedGameResultId c) (timerPreference c) (isLoading c)
    (countdownInterval c) (wpmInterval c) (finishTimeouts c)
    (onGameFinishCalls c) (saveGameResultCalls c).

Definition setSavedGameResultId (v : option string) (c : Component)
  : Component :=
  mkComponent (state c) (currentWPM c) (wpmHistory c) (wpmHistoryRef c)
    v (timerPreference c) (isLoading c)
    (countdownInterval c) (wpmInterval c) (finishTimeouts c)
    (onGameFinishCalls c) (saveGameResultCalls c).

Definition setTimerPreferenceState (v : TimerPreference) (c : Component)
  : Component :=
  mkComponent (state c) (currentWPM c) (wpmHistory c) (wpmHistoryRef c)
    (savedGameResultId c) v (isLoading c)
    (countdownInterval c) (wpmInterval c) (finishTimeouts c)
    (onGameFinishCalls c) (saveGameResultCalls c).

Definition setIsLoading (v : bool) (c : Component) : Component :=
  mkComponent (state c) (currentWPM c) (wpmHistory c) (wpmHistoryRef c)
    (savedGameResultId c) (timerPreference c) v
    (countdownInterval c) (wpmInterval c) (finishTimeouts c)
    (onGameFinishCalls c) (saveGameResultCalls c).

Definition withCountdownInterval (v : bool) (c : Component) : Component :=
  mkComponent (state c) (currentWPM c) (wpmHistory c) (wpmHistoryRef c)
    (savedGameResultId c) (timerPreference c) (isLoading c)
    v (wpmInterval c) (finishTimeouts c)
    (onGameFinishCalls c) (saveGameResultCalls c).

Definition withWpmInterval (v : option GameState) (c : Component)
  : Component :=
  mkComponent (state c) (currentWPM c) (wpmHistory c) (wpmHistoryRef c)
    (savedGameResultId c) (timerPreference c) (isLoading c)
    (countdownInterval c) v (finishTimeouts c)
    (onGameFinishCalls c) (saveGameResultCalls c).

Definition withFinishTimeouts (v : list FinishClosure) (c : Component)
  : Component :=
  mkComponent (state c) (currentWPM c) (wpmHistory c) (wpmHistoryRef c)
    (savedGameResultId c) (timerPreference c) (isLoading c)
    (countdownInterval c) (wpmInterval c) v
    (onGameFinishCalls c) (saveGameResultCalls c).

Definition withCalls (finished : list GameResult) (saved : list SaveData)
  (c : Component) : Component :=
  mkComponent (state c) (currentWPM c) (wpmHistory c) (wpmHistoryRef c)
    (savedGameResultId c) (timerPreference c) (isLoading c)
    (countdownInterval c) (wpmInterval c) (finishTimeouts c)
    finished saved.

Definition applyUpdate (u : CellUpdate) (c : Component) : Component :=
  match u with
  | SetCurrentWPM v => setCurrentWPM v c
  | RecordSample timeSeconds wpmNow =>
      setWpmHistory (recordSample timeSeconds wpmNow) c
  | ResetWpmHistory => setWpmHistory (fun _ => []) c
  end.

Definition applyUpdates (us : list CellUpdate) (c : Component) : Component :=
  fold_left (fun acc u => applyUpdate u acc) us c.

(** The WPM expression shared by [calculateWPM] and [calculateResults]:
    [Math.min(Math.round((correctChars / 5) / minutes), 999)]. *)
Definition wpmExpression (correctChars : nat) (minutes : Q) : Z :=
  Z.min
    (Math_round
       (Binary64.div (Binary64.div (inject_Z (Z.of_nat correctChars)) 5)
          minutes))
    999.

(** [elapsedSeconds / 60] with [elapsedSeconds = elapsedMs / 1000]. *)
Definition elapsedMinutes (elapsedMs : Z) : Q :=
  Binary64.div (Binary64.div (inject_Z elapsedMs) 1000) 60.

(** [calculateWPM], closed over the [state] of the render that armed it.
    It requests updates only when [elapsedMinutes > 0]; there is no other
    branch. [timeSeconds] is [Math.floor(elapsedSeconds)], the whole
    seconds of [elapsedMs]. *)
Definition calculateWPM (captured : GameState) (now : Z) : list CellUpdate :=
  let start := match startTime captured with Some t => t | None => 0 end in
  let elapsedMs := now - start in
  if Qpositive (elapsedMinutes elapsedMs) then
    let correctChars :=
      getCorrectChars (userInput captured) (text captured) in
    let wpmNow := wpmExpression correctChars (elapsedMinutes elapsedMs) in
    let timeSeconds := Math_floor (inject_Z elapsedMs / 1000)%Q in
    [SetCurrentWPM wpmNow; RecordSample timeSeconds wpmNow]
  else [].

(** [Math.round((correctChars / typedChars) * 100)]. *)
Definition accuracyExpression (correctChars typedChars : nat) : Z :=
  Math_round
    (Binary64.mul
       (Binary64.div (inject_Z (Z.of_nat correctChars))
          (inject_Z (Z.of_nat typedChars)))
       100).

(** [calculateResults], the same body in both finish effects; [duration]
    is the whole seconds of the clock difference. *)
Definition calculateResults (s : GameState) (history : list Sample)
  (endTime : Z) : GameResult :=
  let duration :=
    Math_floor (inject_Z (endTime - orElse (startTime s) endTime) / 1000)%Q in
  let typedChars := List.length (userInput s) in
  let correctChars := getCorrectChars (userInput s) (text s) in
  let accuracy :=
    if (0 <? Z.of_nat typedChars)
    then accuracyExpression correctChars typedChars
    else 0 in
  let wpmFinal :=
    if 0 <? duration
    then wpmExpression correctChars (Binary64.div (inject_Z duration) 60)
    else 0 in
  mkGameResult wpmFinal accuracy duration history.


(** ** Session state machine *)

(** The updater of [handleInput]. *)
Definition handleInput (value : jsstring) (now : Z) (prev : GameState)
  : GameState :=
  let isFirstChar :=
    jsstring_eqb (userInput prev) [] && negb (jsstring_eqb value []) in
  if isFirstChar && negb (isGameActive prev) then
    mkGameState (text prev) value (Some now) (timer prev) true
      (isGameFinished prev) (finalWPM prev) (finalAccuracy prev)
  else
    mkGameState (text prev) value (startTime prev) (timer prev)
      (isGameActive prev) (isGameFinished prev) (finalWPM prev)
      (finalAccuracy prev).

(** The updater of the countdown interval. *)
Definition countdownTick (prev : GameState) : GameState :=
  mkGameState (text prev) (userInput prev) (startTime prev) (timer prev - 1)
    (isGameActive prev) (isGameFinished prev) (finalWPM prev)
    (finalAccuracy prev).

(** The updater inside the finish callbacks. *)
Definition markFinished (results : GameResult) (prev : GameState)
  : GameState :=
  mkGameState (text prev) (userInput prev) (startTime prev) (timer prev)
    (isGameActive prev) true (result_wpm results) (result_accuracy results).

(** [setState(prev => ({ ...prev, text, timer }))] of [initializeGame]. *)
Definition loadText (newText : jsstring) (duration : Z) (prev : GameState)
  : GameState :=
  mkGameState newText (userInput prev) (startTime prev) duration
    (isGameActive prev) (isGameFinished prev) (finalWPM prev)
    (finalAccuracy prev).

(** [setState(prev => ({ ...prev, timer: newDuration }))]. *)
Definition setTimer (duration : Z) (prev : GameState) : GameState :=
  mkGameState (text prev) (userInput prev) (startTime prev) duration
    (isGameActive prev) (isGameFinished prev) (finalWPM prev)
    (finalAccuracy prev).

(** The object [handleRestart] installs. *)
Definition freshState (newText : jsstring) (duration : Z) : GameState :=
  mkGameState newText [] None duration false false 0 0.

Definition fallbackText : jsstring :=
  str "The quick brown fox jumps over the lazy dog.".

(** The argument of [useState<GameState>]. *)
Definition initialState : GameState :=
  mkGameState [] [] None 30 false false 0 0.

Definition initialComponent : Component :=
  mkComponent initialState 0 [] 0%nat None Seconds30 true false None [] [] [].

(** *** Dependency arrays

    [getCorrectChars] is memoised with no dependencies and [onGameFinish] is
    taken to be a stable callback, so neither ever differs. *)

Definition countdownDepsChanged (old new : GameState) : bool :=
  negb (Bool.eqb (isGameActive old) (isGameActive new)
        && (timer old =? timer new)).

Definition wpmDepsChanged (old new : GameState) : bool :=
  negb (Bool.eqb (isGameActive old) (isGameActive new)
        && optionZ_eqb (startTime old) (startTime new)
        && jsstring_eqb (userInput old) (userInput new)
        && jsstring_eqb (text old) (text new)).

Definition timerFinishDepsChanged (old new : Component) : bool :=
  negb ((timer (state old) =? timer (state new))
        && Bool.eqb (isGameActive (state old)) (isGameActive (state new))
        && Bool.eqb (isGameFinished (state old)) (isGameFinished (state new))
        && jsstring_eqb (userInput (state old)) (userInput (state new))
        && jsstring_eqb (text (state old)) (text (state new))
        && optionZ_eqb (startTime (state old)) (startTime (state new))
        && Nat.eqb (wpmHistoryRef old) (wpmHistoryRef new)).

Definition completionDepsChanged (old new : Component) : bool :=
  negb (jsstring_eqb (userInput (state old)) (userInput (state new))
        && jsstring_eqb (text (state old)) (text (state new))
        && Bool.eqb (isGameActive (state old)) (isGameActive (state new))
        && Bool.eqb (isGameFinished (state old)) (isGameFinished (state new))
        && optionZ_eqb (startTime (state old)) (startTime (state new))
        && Nat.eqb (wpmHistoryRef old) (wpmHistoryRef new)).

(** *** Effects, in the order the component declares them

    Each takes the previously committed component [old] (for the dependency
    comparison), the component being committed [c], and [mount] on the first
    render; it reads the cells of [c] and changes timers only. *)

(** The countdown effect: its cleanup clears the interval, its body arms one
    when [state.isGameActive && state.timer > 0]. *)
Definition countdownEffect (mount : bool) (old c : Component) : Component :=
  if mount || countdownDepsChanged (state old) (state c) then
    withCountdownInterval
      (isGameActive (state c) && (0 <? timer (state c))) c
  else c.

(** The WPM effect: arms the 100 ms sampler and calls it once at once, or
    resets the history when the game is not active. The updates it requests
    are returned; they are applied by the next render. *)
Definition wpmEffect (mount : bool) (old c : Component) (now : Z)
  : Component * list CellUpdate :=
  if mount || wpmDepsChanged (state old) (state c) then
    if isGameActive (state c) && truthy (startTime (state c)) then
      (withWpmInterval (Some (state c)) c, calculateWPM (state c) now)
    else if negb (isGameActive (state c)) then
      (withWpmInterval None c, [ResetWpmHistory])
    else (withWpmInterval None c, [])
  else (c, []).

(** The body both finish effects share once their condition holds: compute
    the results now, defer the rest with [setTimeout(..., 0)]. Nothing
    cancels a deferred callback. *)
Definition scheduleFinish (c : Component) (now : Z) : Component :=
  withFinishTimeouts
    (finishTimeouts c
     ++ [mkFinishClosure (calculateResults (state c) (wpmHistory c) now)
           (text (state c))])
    c.

(** The timer-expiry finish effect. *)
Definition timerFinishEffect (mount : bool) (old c : Component) (now : Z)
  : Component :=
  if (mount || timerFinishDepsChanged old c)
     && ((timer (state c) =? 0)
         && isGameActive (state c) && negb (isGameFinished (state c)))
  then scheduleFinish c now
  else c.

(** The text-completion finish effect. *)
Definition completionFinishEffect (mount : bool) (old c : Component) (now : Z)
  : Component :=
  if (mount || completionDepsChanged old c)
     && (Nat.eqb (List.length (userInput (state c)))
           (List.length (text (state c)))
         && isGameActive (state c) && negb (isGameFinished (state c)))
  then scheduleFinish c now
  else c.

(** One effect flush after a commit. *)
Definition flushEffects (mount : bool) (old c : Component) (now : Z)
  : Component * list CellUpdate :=
  let c1 := countdownEffect mount old c in
  let (c2, requested) := wpmEffect mount old c1 now in
  let c3 := timerFinishEffect mount old c2 now in
  let c4 := completionFinishEffect mount old c3 now in
  (c4, requested).

(** Commit [c] after [old]: flush the effects; when the WPM effect requested
    updates, render again with them applied and flush once more. The second
    flush cannot request anything, because the requested updates touch no
    dependency of the WPM effect (see [second_flush_requests_nothing]). *)
Definition commit (mount : bool) (old c : Component) (now : Z) : Component :=
  let (c1, requested) := flushEffects mount old c now in
  match requested with
  | [] => c1
  | _ => fst (flushEffects false c1 (applyUpdates requested c1) now)
  end.

(** The callback a finish effect deferred. *)
Definition finishCallback (closure : FinishClosure) (c : Component)
  : Component :=
  let results := closure_results closure in
  withCalls
    (onGameFinishCalls c ++ [results])
    (saveGameResultCalls c
     ++ [mkSaveData (result_wpm results) (result_accuracy results)
           (result_duration results) (closure_text closure)
           (if (0 <? Z.of_nat (List.length (result_wpmHistory results)))
            then Some (result_wpmHistory results) else None)])
    (setState (markFinished results) c).

(** The [.then] / [.catch] handlers of the auto-save call. *)
Definition autoSaveSettled (outcome : SaveOutcome) (c : Component)
  : Component :=
  match outcome with
  | Resolved true (Some id) =>
      if String.eqb id EmptyString then c
      else setSavedGameResultId (Some id) c
  | _ => c
  end.

(** [handleRestart] once [generateParagraph] has settled: [Some] paragraph
    is the [try] path, [None] the [catch] path. [timerPreference] in its
    body is the value of the render in which the handler was invoked, which
    the call brings along as [captured]; the setters act on the component
    as it is when the call settles. *)
Definition handleRestart (captured : TimerPreference)
  (paragraph : option jsstring) (c : Component) : Component :=
  setIsLoading false
    match paragraph with
    | Some newText =>
        setSavedGameResultId None
          (setWpmHistory (fun _ => [])
             (setCurrentWPM 0
                (setState (fun _ => freshState newText (seconds captured))
                   c)))
    | None =>
        setState (fun _ => freshState fallbackText (seconds captured)) c
    end.

(** [handleTimerToggle], up to the preference store call. *)
Definition handleTimerToggle (c : Component) : Component :=
  let newDuration :=
    match timerPreference c with
    | Seconds30 => Seconds15
    | Seconds15 => Seconds30
    end in
  let c1 := setTimerPreferenceState newDuration c in
  if negb (isGameActive (state c))
  then setState (setTimer (seconds newDuration)) c1
  else c1.

(** What can happen to a mounted component. An event brings along what
    the step cannot know by itself: the value typed, how a request settled,
    and, for a [handleRestart] call that settles, the timer preference of
    the render it was invoked in, which its closure captured. Several
    calls can be in flight, and they settle in any order. *)
Inductive Event :=
| Initialized (duration : TimerPreference) (paragraph : jsstring)
| InitializeFailed (loaded : option TimerPreference)
| Input (value : jsstring)
| CountdownTick
| WpmTick
| FinishTimeout
| SaveSettled (outcome : SaveOutcome)
| RestartClicked
| RestartSettled (captured : TimerPreference) (paragraph : option jsstring)
| TimerToggle.

(** The handler of an event, before the render it causes. An interval tick
    only happens while its interval is armed, a timeout only while one is
    pending (the oldest fires first), and the input element is disabled
    while [state.isGameFinished || isLoading]; the toggle buttons are
    disabled while [state.isGameActive || isLoading]. *)
Definition handle (now : Z) (e : Event) (c : Component) : Component :=
  match e with
  | Initialized duration paragraph =>
      setIsLoading false
        (setState (loadText paragraph (seconds duration))
           (setTimerPreferenceState duration c))
  | InitializeFailed loaded =>
      setIsLoading false
        (setState (loadText fallbackText 30)
           match loaded with
           | Some duration => setTimerPreferenceState duration c
           | None => c
           end)
  | Input value =>
      if isGameFinished (state c) || isLoading c then c
      else setState (handleInput value now) c
  | CountdownTick =>
      if countdownInterval c then setState countdownTick c else c
  | WpmTick =>
      match wpmInterval c with
      | Some captured => applyUpdates (calculateWPM captured now) c
      | None => c
      end
  | FinishTimeout =>
      match finishTimeouts c with
      | closure :: rest => finishCallback closure (withFinishTimeouts rest c)
      | [] => c
      end
  | SaveSettled outcome => autoSaveSettled outcome c
  | RestartClicked => setIsLoading true c
  | RestartSettled captured paragraph => handleRestart captured paragraph c
  | TimerToggle =>
      if isGameActive (state c) || isLoading c then c
      else handleTimerToggle c
  end.

(** One step: the handler runs to completion, React commits the result and
    flushes the effects before the next event is delivered. [now] is what
    [Date.now()] returns during the step. *)
Definition step (now : Z) (e : Event) (c : Component) : Component :=
  commit false c (handle now e c) now.

(** The component after its first render and effect flush. *)
Definition mounted : Component := commit true initialComponent initialComponent 0.

(** Run a timed trace. *)
Fixpoint run (trace : list (Z * Event)) (c : Component) : Component :=
  match trace with
  | [] => c
  | (now, e) :: rest => run rest (step now e c)
  end.

(** States a mounted component can be in. *)
Inductive reachable : Component -> Prop :=
| reachable_mounted : reachable mounted
| reachable_step now e c : reachable c -> reachable (step now e c).

(** The phase of the specification, read off the two flags. *)
Inductive Phase := Idle | Active | Finished.

Definition phase (s : GameState) : Phase :=
  if isGameFinished s then Finished
  else if isGameActive s then Active
  else Idle.

(** ** Ghost projector *)

(** An entry of the leaderboard picked as opponent. *)
Record Opponent := mkOpponent {
  opponent_wpm : Z;
  playerName : option string;
  opponent_accuracy : Z;
  opponent_duration : Z
}.

(** Where [updateGhostCursor] puts the ghost: at the fixed start offset, at
    the left edge of the span with the given index, or at the right edge of
    the last span. Indexing the span list below 0 yields [undefined], whose
    method call throws. *)
Inductive GhostPlacement :=
| GhostAtStart
| GhostBeforeSpan (index : Z)
| GhostAfterLastSpan
| GhostThrows.

(** [Math.floor(elapsedMs / 1000 * charsPerSecond)] with
    [charsPerSecond = (wpm * 5) / 60]. *)
Definition charactersTyped (elapsedMs opponentWpm : Z) : Z :=
  let charsPerSecond :=
    Binary64.div (Binary64.mul (inject_Z opponentWpm) 5) 60 in
  Math_floor
    (Binary64.mul (Binary64.div (inject_Z elapsedMs) 1000) charsPerSecond).

(** [updateGhostCursor]; [spans] is [spans.length], the number of character
    spans rendered for [state.text]. [None]: the early [return]. *)
Definition updateGhostCursor (s : GameState) (selectedOpponent : Opponent)
  (spans : Z) (now : Z) : option GhostPlacement :=
  if negb (isGameActive s) || negb (truthy (startTime s)) then None
  else
    let elapsedMs :=
      now - match startTime s with Some t => t | None => 0 end in
    let typed := charactersTyped elapsedMs (opponent_wpm selectedOpponent) in
    if typed =? 0 then Some GhostAtStart
    else if typed <? spans then
      Some (if typed <? 0 then GhostThrows else GhostBeforeSpan typed)
    else Some GhostAfterLastSpan.

(** The spans the text container holds: one per code unit of [state.text],
    none while the loading notice is shown instead. *)
Definition renderedSpans (loading : bool) (s : GameState) : Z :=
  if loading then 0 else Z.of_nat (List.length (text s)).

(** The ghost effect's guards around [updateGhostCursor]. *)
Definition ghostCursorEffect (raceModeEnabled : bool)
  (selectedOpponent : option Opponent) (spans : Z) (s : GameState) (now : Z)
  : option GhostPlacement :=
  match selectedOpponent with
  | Some opponent =>
      if negb raceModeEnabled || (spans =? 0) then None
      else updateGhostCursor s opponent spans now
  | None => None
  end.

(** The character index a placement stands at. *)
Definition placementIndex (spans : Z) (p : GhostPlacement) : option Z :=
  match p with
  | GhostAtStart => Some 0
  | GhostBeforeSpan index => Some index
  | GhostAfterLastSpan => Some spans
  | GhostThrows => None
  end.

(** The projection as the specification words it, in exact arithmetic:
    [floor(elapsedMillis/1000 * (opponentWPM * 5/60))] clamped to
    [[0, len(referenceText)]]. *)
Definition spec_projectedCharIndex (len elapsedMillis opponentWPM : Z) : Z :=
  Z.max 0
    (Z.min len
       (Qfloor
          (inject_Z elapsedMillis / 1000 * (inject_Z opponentWPM * 5 / 60))%Q)).

(** ** Result sink: the server action [saveGameResult] *)

(** What the action can observe of its collaborators: [getSession] may throw
    ([None]) or yield [session?.user?.id]; the insert may throw ([None]) or
    return the id of the new row. *)
Record Server := mkServer {
  getSession : option (option string);
  insertGameResult : string -> SaveData -> option string
}.

(** An insert handed to the database: the user id and the values. *)
Definition Insert := (string * SaveData)%type.

(** The body of the [try] block: an error message when it throws. *)
Definition saveGameResult_try (server : Server) (data : SaveData)
  : (string + (bool * option string)) * list Insert :=
  if (data_accuracy data <? 0) || (100 <? data_accuracy data) then
    (inl "Invalid accuracy value"%string, [])
  else if (data_wpm data <? 0) || (350 <? data_wpm data) then
    (inl "Invalid WPM value"%string, [])
  else if (data_duration data <? 0) || (300 <? data_duration data) then
    (inl "Invalid duration value"%string, [])
  else
    match getSession server with
    | None => (inl "getSession failed"%string, [])
    | Some userId =>
        match userId with
        | None => (inr (false, None), [])
        | Some id =>
            if String.eqb id EmptyString then (inr (false, None), [])
            else
              match insertGameResult server id data with
              | Some rowId => (inr (true, Some rowId), [(id, data)])
              | None => (inl "insert failed"%string, [(id, data)])
              end
        end
    end.

(** [saveGameResult]: every error of the body is logged and rethrown as
    [Failed to save game result]. Returns how the promise settles and the
    inserts issued. *)
Definition saveGameResult (server : Server) (data : SaveData)
  : SaveOutcome * list Insert :=
  match saveGameResult_try server data with
  | (inl _, inserts) => (Rejected "Failed to save game result", inserts)
  | (inr (success, gameResultId), inserts) =>
      (Resolved success gameResultId, inserts)
  end.

(** The ranges the action checks. *)
Definition inRange (data : SaveData) : bool :=
  (0 <=? data_wpm data) && (data_wpm data <=? 350)
  && (0 <=? data_accuracy data) && (data_accuracy data <=? 100)
  && (0 <=? data_duration data) && (data_duration data <=? 300).

(** ** Invariants and sample sessions *)

(** What every committed [state] satisfies. *)
Definition stateInvariant (s : GameState) : Prop :=
  0 <= timer s
  /\ (isGameActive s = false -> userInput s = [] /\ startTime s = None)
  /\ (isGameActive s = true -> startTime s <> None).

(** The countdown interval is armed exactly while the committed state is
    active with time left. *)
Definition invariant (c : Component) : Prop :=
  stateInvariant (state c)
  /\ countdownInterval c = isGameActive (state c) && (0 <? timer (state c)).

(** The excerpt [cat] typed in full within a second of the first key; the
    two deferred finish callbacks then run. *)
Definition completionSession : list (Z * Event) :=
  [(0, Initialized Seconds30 (str "cat"));
   (1000, Input (str "c"));
   (1300, Input (str "ca"));
   (1600, Input (str "cat"));
   (1601, FinishTimeout);
   (1602, FinishTimeout)].

(** One key typed, then the 15 s countdown runs out while the 100 ms sampler
    keeps firing; at the end the last countdown tick and a sampler tick are
    due together and both run before the deferred finish callback. *)
Definition expirySession : list (Z * Event) :=
  [(0, Initialized Seconds15 (str "cat")); (1000, Input (str "c"))]
  ++ flat_map
       (fun i =>
          [(500 + 1000 * Z.of_nat i, WpmTick);
           (1000 + 1000 * Z.of_nat i, CountdownTick)])
       (seq 1 15)
  ++ [(16000, WpmTick); (16002, FinishTimeout); (16003, FinishTimeout)].

(** Two keys of a first game, a restart whose paragraph request fails, and
    the first key of the next game. *)
Definition failedRestartSession : list (Z * Event) :=
  [(0, Initialized Seconds30 (str "cat"));
   (1000, Input (str "c"));
   (1300, Input (str "ca"));
   (2000, RestartClicked);
   (2500, RestartSettled Seconds30 None);
   (3000, Input (str "T"))].


(** Restart invoked twice before the first paragraph request settles, with
    the timer toggled between the two settlements. Each call brings along
    the preference of the render it was invoked in, 30. *)
Definition overlappingRestartsSession : list (Z * Event) :=
  [(0, Initialized Seconds30 (str "cat"));
   (1000, RestartClicked);
   (1100, RestartClicked);
   (1500, RestartSettled Seconds30 (Some (str "dog")));
   (1600, TimerToggle);
   (1700, RestartSettled Seconds30 (Some (str "owl")))].

(** A 15 s game whose countdown ticks come 100 ms late each, so that the
    clock is 15.4 s past the first key when the countdown shows 1; the
    excerpt is then completed, with time left on the countdown. *)
Definition lateTicksSession : list (Z * Event) :=
  [(0, Initialized Seconds15 (str "cat")); (1000, Input (str "c"))]
  ++ flat_map
       (fun i =>
          [(500 + 1100 * Z.of_nat i, WpmTick);
           (1000 + 1100 * Z.of_nat i, CountdownTick)])
       (seq 1 14)
  ++ [(16500, Input (str "cat")); (16501, FinishTimeout);
      (16502, FinishTimeout)].

(** An excerpt of 100 characters, completed by pasting it one second after
    the first key. *)
Definition pastedSession : list (Z * Event) :=
  [(0, Initialized Seconds30 (repeat 97%N 100));
   (1000, Input [97%N]);
   (2000, Input (repeat 97%N 100));
   (2001, FinishTimeout);
   (2002, FinishTimeout)].

(** ** Rendering of the excerpt and of the cursor *)

(** [Array.prototype.map]: the callback receives the element and its
    index. *)
Fixpoint map_from {A B} (f : A -> nat -> B) (index : nat) (l : list A)
  : list B :=
  match l with
  | [] => []
  | x :: rest => f x index :: map_from f (S index) rest
  end.

Definition Array_map {A B} (f : A -> nat -> B) (l : list A) : list B :=
  map_from f 0 l.

(** The three class names a character span can get. *)
Inductive CharClass := NotTyped | TypedCorrect | TypedWrong.

(** The spans rendered for the excerpt:
    [state.text.split("").map((char, index) => ...)]. A typed unit is a
    non-empty string, hence truthy. *)
Definition renderText (excerpt typed : jsstring) : list CharClass :=
  Array_map
    (fun char index =>
       match charAt typed index with
       | Some userChar =>
           if N.eqb userChar char then TypedCorrect else TypedWrong
       | None => NotTyped
       end)
    excerpt.

Definition isClass (k : CharClass) (x : CharClass) : bool :=
  match k, x with
  | NotTyped, NotTyped => true
  | TypedCorrect, TypedCorrect => true
  | TypedWrong, TypedWrong => true
  | _, _ => false
  end.

Definition countClass (k : CharClass) (spans : list CharClass) : nat :=
  List.length (filter (isClass k) spans).

(** Where the layout effect puts the player's cursor: [None] when there is
    no span to measure. *)
Inductive CursorPlacement :=
| CursorAtStart
| CursorBeforeSpan (index : Z)
| CursorAfterLastSpan.

Definition cursorPlacement (spans : Z) (typed : jsstring)
  : option CursorPlacement :=
  if spans =? 0 then None
  else
    let currentIndex := Z.of_nat (List.length typed) in
    if currentIndex =? 0 then Some CursorAtStart
    else if currentIndex <? spans then Some (CursorBeforeSpan currentIndex)
    else Some CursorAfterLastSpan.

(** A ghost placement read as a cursor placement. *)
Definition ghostAsCursor (p : GhostPlacement) : option CursorPlacement :=
  match p with
  | GhostAtStart => Some CursorAtStart
  | GhostBeforeSpan index => Some (CursorBeforeSpan index)
  | GhostAfterLastSpan => Some CursorAfterLastSpan
  | GhostThrows => None
  end.

(** ** Sharing: [createShareableLink], [shareGameResult], [handleShare] *)

(** The insert into [shareableResults]: it may throw ([false]). The game
    result id may be [null]. *)
Record LinkStore := mkLinkStore {
  insertShareableResult : string -> option string -> bool
}.

(** A link insert handed to the database. *)
Definition LinkInsert := (string * option string)%type.

(** How a promise of [{ success: true }] settles. *)
Inductive ShareOutcome :=
| Shared
| ShareRejected (message : string).

(** [createShareableLink]. *)
Definition createShareableLink (store : LinkStore) (shortId : string)
  (gameResultId : option string) : ShareOutcome * list LinkInsert :=
  if insertShareableResult store shortId gameResultId
  then (Shared, [(shortId, gameResultId)])
  else (ShareRejected "Failed to create shareable link",
        [(shortId, gameResultId)]).

(** [shareGameResult]: the legacy action that saves and links in one go,
    with an empty excerpt; whatever [saveGameResult] resolved to, its
    [gameResultId] is passed on. *)
Definition shareGameResult (server : Server) (store : LinkStore)
  (shortId : string) (wpmValue accuracy duration : Z)
  (history : option (list Sample))
  : ShareOutcome * list Insert * list LinkInsert :=
  match saveGameResult server
          (mkSaveData wpmValue accuracy duration [] history) with
  | (Rejected _, inserts) =>
      (ShareRejected "Failed to share game result", inserts, [])
  | (Resolved _ gameResultId, inserts) =>
      match createShareableLink store shortId gameResultId with
      | (Shared, links) => (Shared, inserts, links)
      | (ShareRejected _, links) =>
          (ShareRejected "Failed to share game result", inserts, links)
      end
  end.

(** What [handleShare] did: the component afterwards, the inserts issued,
    and whether the error toast was shown. *)
Record ShareRun := mkShareRun {
  share_component : Component;
  share_inserts : list Insert;
  share_links : list LinkInsert;
  share_errorToast : bool
}.

(** The data of the fallback save in [handleShare]. *)
Definition shareFallbackData (c : Component) : SaveData :=
  mkSaveData (finalWPM (state c)) (finalAccuracy (state c))
    (seconds (timerPreference c) - timer (state c))
    (text (state c))
    (if (0 <? Z.of_nat (List.length (wpmHistory c)))
     then Some (wpmHistory c) else None).

Definition nonEmptyId (id : option string) : bool :=
  match id with
  | Some s => negb (String.eqb s EmptyString)
  | None => false
  end.

(** [handleShare], after the link has been copied: link the saved result,
    or save first and link when the save produced an id. Any rejection is
    caught and shown as a toast. *)
Definition handleShare (server : Server) (store : LinkStore)
  (shortId : string) (c : Component) : ShareRun :=
  if nonEmptyId (savedGameResultId c) then
    match createShareableLink store shortId (savedGameResultId c) with
    | (Shared, links) => mkShareRun c [] links false
    | (ShareRejected _, links) => mkShareRun c [] links true
    end
  else
    match saveGameResult server (shareFallbackData c) with
    | (Rejected _, inserts) => mkShareRun c inserts [] true
    | (Resolved success gameResultId, inserts) =>
        if success && nonEmptyId gameResultId then
          match createShareableLink store shortId gameResultId with
          | (Shared, links) =>
              mkShareRun (setSavedGameResultId gameResultId c) inserts links
                false
          | (ShareRejected _, links) => mkShareRun c inserts links true
          end
        else mkShareRun c inserts [] false
    end.

(** ** Paragraph source: [generateParagraph] *)

(** White space and line terminators, as [String.prototype.trim] strips
    them. *)
Definition isWhiteSpace (u : code_unit) : bool :=
  ((9 <=? u) && (u <=? 13) || (u =? 32) || (u =? 160) || (u =? 5760)
   || (8192 <=? u) && (u <=? 8202) || (u =? 8232) || (u =? 8233)
   || (u =? 8239) || (u =? 8287) || (u =? 12288) || (u =? 65279))%N.

Fixpoint trimStart (s : jsstring) : jsstring :=
  match s with
  | [] => []
  | u :: rest => if isWhiteSpace u then trimStart rest else s
  end.

Definition trimEnd (s : jsstring) : jsstring := rev (trimStart (rev s)).

Definition trim (s : jsstring) : jsstring := trimEnd (trimStart s).

(** What [generateParagraph] can observe: [getSession] may throw ([None])
    or tell whether [session?.user] is there; the completion request may
    throw ([None]) or yield [choices[0]?.message?.content], possibly absent;
    [randomExcerpt] is what [getRandomExcerpt()] returns. *)
Record ParagraphServices := mkParagraphServices {
  sessionUser : option bool;
  completionContent : option (option jsstring);
  randomExcerpt : jsstring
}.

(** Where the returned paragraph came from. *)
Inductive ParagraphSource := Curated | Generated.

(** [generateParagraph], with the source of its result. *)
Definition generateParagraph (services : ParagraphServices)
  : ParagraphSource * jsstring :=
  match sessionUser services with
  | None => (Curated, randomExcerpt services)
  | Some false => (Curated, randomExcerpt services)
  | Some true =>
      match completionContent services with
      | None => (Curated, randomExcerpt services)
      | Some None => (Curated, randomExcerpt services)
      | Some (Some content) =>
          let generatedText := trim content in
          if (Nat.eqb (List.length generatedText) 0)
             || (List.length generatedText <? 50)%nat
          then (Curated, randomExcerpt services)
          else if (350 <? List.length generatedText)%nat
          then (Curated, randomExcerpt services)
          else (Generated, generatedText)
      end
  end.

(** ** Profile statistics: [getUserStats] *)

(** The columns of a stored game result the statistics read. *)
Record GameRow := mkGameRow { row_wpm : Z; row_accuracy : Z }.

Record UserStats := mkUserStats {
  totalGames : nat;
  averageWpm : Z;
  bestWpm : Z;
  averageAccuracy : Z
}.

(** [allResults.reduce((sum, result) => sum + f(result), 0)]. *)
Definition sumOf (f : GameRow -> Z) (rows : list GameRow) : Z :=
  fold_left (fun sum result => sum + f result) rows 0.

(** [Math.max(first, ...rest)]. *)
Definition Math_max (first : Z) (rest : list Z) : Z :=
  fold_left Z.max rest first.

(** [getUserStats] on the rows the query returned; [Math.max] is only
    reached with at least one row. *)
Definition getUserStats (allResults : list GameRow) : UserStats :=
  match allResults with
  | [] => mkUserStats 0 0 0 0
  | first :: rest =>
      let games := Z.of_nat (List.length allResults) in
      mkUserStats (List.length allResults)
        (Math_round (inject_Z (sumOf row_wpm allResults) / inject_Z games)%Q)
        (Math_max (row_wpm first) (map row_wpm rest))
        (Math_round
           (inject_Z (sumOf row_accuracy allResults) / inject_Z games)%Q)
  end.

(** ** Further invariants of the session *)

(** The timed events of a trace come in the order of the clock, from
    [since] on. *)
Fixpoint chronological (since : Z) (trace : list (Z * Event)) : Prop :=
  match trace with
  | [] => True
  | (now, _) :: rest => since <= now /\ chronological now rest
  end.

(** Strictly increasing seconds, oldest first. *)
Definition increasingSeconds (history : list Sample) : Prop :=
  StronglySorted Z.lt (map time history).

(** The part of a result that reaches both [onGameFinish] and
    [saveGameResult]. *)
Definition resultSummary (r : GameResult) : Z * Z * Z :=
  (result_wpm r, result_accuracy r, result_duration r).

Definition dataSummary (d : SaveData) : Z * Z * Z :=
  (data_wpm d, data_accuracy d, data_duration d).

(** A result within the bounds [calculateResults] keeps. *)
Definition boundedResult (r : GameResult) : Prop :=
  0 <= result_wpm r <= 999 /\ 0 <= result_accuracy r <= 100.

(** Position-wise walk over excerpt and typed text giving the class of each
    excerpt position, used to reason about [renderText]. *)
Fixpoint zipClasses (excerpt typed : jsstring) : list CharClass :=
  match excerpt with
  | [] => []
  | r :: rs =>
      match typed with
      | [] => NotTyped :: zipClasses rs []
      | t :: ts =>
          (if N.eqb t r then TypedCorrect else TypedWrong) :: zipClasses rs ts
      end
  end.

(** What a list of requested updates makes of the history and of the
    displayed WPM. *)
Definition historyAfter (us : list CellUpdate) (history : list Sample)
  : list Sample :=
  fold_left
    (fun h u =>
       match u with
       | SetCurrentWPM _ => h
       | RecordSample timeSeconds wpmNow => recordSample timeSeconds wpmNow h
       | ResetWpmHistory => []
       end) us history.

Definition displayAfter (us : list CellUpdate) (shown : Z) : Z :=
  fold_left
    (fun w u =>
       match u with
       | SetCurrentWPM v => v
       | RecordSample _ _ => w
       | ResetWpmHistory => w
       end) us shown.

(** The sampler, when armed, works on the committed start time, typed text
    and excerpt; it is armed exactly while the game is active with a truthy
    start time. *)
Definition samplerInvariant (c : Component) : Prop :=
  match wpmInterval c with
  | Some captured =>
      isGameActive (state c) && truthy (startTime (state c)) = true
      /\ startTime captured = startTime (state c)
      /\ userInput captured = userInput (state c)
      /\ text captured = text (state c)
  | None => isGameActive (state c) && truthy (startTime (state c)) = false
  end.

(** The countdown value is 15 or 30 until the game starts and never
    above 30. *)
Definition timerInvariant (s : GameState) : Prop :=
  timer s <= 30 /\ (isGameActive s = false -> timer s = 15 \/ timer s = 30).

(** Results are bounded wherever the component holds them: in pending
    finish callbacks, in the reports made, and in the final values shown. *)
Definition resultsInvariant (c : Component) : Prop :=
  Forall (fun closure => boundedResult (closure_results closure))
    (finishTimeouts c)
  /\ Forall boundedResult (onGameFinishCalls c)
  /\ 0 <= finalWPM (state c) <= 999
  /\ 0 <= finalAccuracy (state c) <= 100.

(** Every report to [onGameFinish] has its [saveGameResult] call with the
    same figures, in the same order. *)
Definition callsInvariant (c : Component) : Prop :=
  map dataSummary (saveGameResultCalls c)
  = map resultSummary (onGameFinishCalls c)
  /\ Forall2
       (fun d r =>
          data_wpmHistory d
          = (if (0 <? Z.of_nat (List.length (result_wpmHistory r)))
             then Some (result_wpmHistory r) else None))
       (saveGameResultCalls c) (onGameFinishCalls c).

(** The condition under which the WPM effect arms the sampler. *)
Definition sampling (s : GameState) : bool :=
  isGameActive s && truthy (startTime s).

(** No history is kept while the sampler is not armed. *)
Definition idleHistoryInvariant (c : Component) : Prop :=
  sampling (state c) = false -> wpmHistory c = [].

(** The clock reading at the end of a timed trace that started at
    [since]. *)
Fixpoint endOf (since : Z) (trace : list (Z * Event)) : Z :=
  match trace with
  | [] => since
  | (now, _) :: rest => endOf now rest
  end.

(** Every entry is for a whole second between 0 and [latest]. *)
Definition secondsWithin (latest : Z) (history : list Sample) : Prop :=
  Forall (fun entry => 0 <= time entry <= latest) history.

(** ** Binary64 rounding *)

Section NearestEven.

Import Binary64.

Lemma nearestEven_compat (x y : Q) :
  (x == y)%Q -> nearestEven x = nearestEven y.
Proof.
  intros H. unfold nearestEven.
  rewrite (Qfloor_comp x y H).
  assert (E : ((x - inject_Z (Qfloor y) ?= 1 # 2)
               = (y - inject_Z (Qfloor y) ?= 1 # 2))%Q)
    by now rewrite H.
  now rewrite E.
Qed.

Lemma nearestEven_close (x : Q) :
  (inject_Z (nearestEven x) - (1 # 2) <= x
   /\ x <= inject_Z (nearestEven x) + (1 # 2))%Q.
Proof.
  unfold nearestEven.
  pose proof (Qfloor_le x) as Hlo.
  pose proof (Qlt_floor x) as Hhi.
  rewrite inject_Z_plus in Hhi. change (inject_Z 1) with 1%Q in Hhi.
  destruct (x - inject_Z (Qfloor x) ?= 1 # 2)%Q eqn:E.
  - apply Qeq_alt in E.
    destruct (Z.even (Qfloor x)); rewrite ?inject_Z_plus;
      change (inject_Z 1) with 1%Q; split; lra.
  - apply Qlt_alt in E. split; lra.
  - apply Qgt_alt in E. rewrite inject_Z_plus.
    change (inject_Z 1) with 1%Q. split; lra.
Qed.

Lemma nearestEven_inject_Z (k : Z) : nearestEven (inject_Z k) = k.
Proof.
  unfold nearestEven. rewrite Qfloor_Z.
  assert (E : (inject_Z k - inject_Z k ?= 1 # 2)%Q = Lt).
  { apply (proj1 (Qlt_alt _ _)). setoid_replace (inject_Z k - inject_Z k)%Q with 0%Q by ring. reflexivity. }
  now rewrite E.
Qed.

Lemma nearestEven_le (x y : Q) :
  (x <= y)%Q -> nearestEven x <= nearestEven y.
Proof.
  intros Hxy.
  destruct (Z_le_gt_dec (nearestEven x) (nearestEven y)) as [H|H];
    [assumption | exfalso].
  destruct (nearestEven_close x) as [Hx _].
  destruct (nearestEven_close y) as [_ Hy].
  assert (Hz : (inject_Z (nearestEven y) + 1 <= inject_Z (nearestEven x))%Q).
  { change 1%Q with (inject_Z 1). rewrite <- inject_Z_plus, <- Zle_Qle. lia. }
  assert (Heq : (x == y)%Q) by lra.
  apply nearestEven_compat in Heq. lia.
Qed.

End NearestEven.

Section Exponent.

Import Binary64.

Lemma Qdiv_lt_cross (a b c d : Q) :
  (0 < b)%Q -> (0 < d)%Q -> (a * d < c * b)%Q -> (a / b < c / d)%Q.
Proof.
  intros Hb Hd H.
  apply Qlt_shift_div_r; [assumption|].
  setoid_replace (c / d * b)%Q with (c * b / d)%Q
    by (field; intros Hz; rewrite Hz in Hd; now apply (Qlt_irrefl 0)).
  now apply Qlt_shift_div_l.
Qed.

Lemma Qdiv_le_cross (a b c d : Q) :
  (0 < b)%Q -> (0 < d)%Q -> (a * d <= c * b)%Q -> (a / b <= c / d)%Q.
Proof.
  intros Hb Hd H.
  apply Qle_shift_div_r; [assumption|].
  setoid_replace (c / d * b)%Q with (c * b / d)%Q
    by (field; intros Hz; rewrite Hz in Hd; now apply (Qlt_irrefl 0)).
  now apply Qle_shift_div_l.
Qed.

Lemma two_ne_0 : ~ (2 == 0)%Q.
Proof. discriminate. Qed.

Lemma pow2_pos (e : Z) : (0 < 2 ^ e)%Q.
Proof. apply Qpower_0_lt. reflexivity. Qed.

Lemma pow2_inject (n : Z) : 0 <= n -> (2 ^ n == inject_Z (2 ^ n))%Q.
Proof. intros H. now rewrite Zpower_Qpower. Qed.

Lemma pow2_succ (e : Z) : (2 ^ (e + 1) == 2 * 2 ^ e)%Q.
Proof. rewrite Qpower_plus by apply two_ne_0. simpl. ring. Qed.

Lemma pow2_le (a b : Z) : a <= b -> (2 ^ a <= 2 ^ b)%Q.
Proof. intros H. apply Qpower_le_compat_l; [assumption | discriminate]. Qed.

Lemma pow2_lt_inv (a b : Z) : (2 ^ a < 2 ^ b)%Q -> a < b.
Proof.
  intros H. destruct (Z_lt_ge_dec a b) as [Hlt|Hge]; [assumption|].
  exfalso. apply (Qlt_not_le _ _ H). apply pow2_le. lia.
Qed.

Lemma exponent_bounds (p : Z) (q : positive) :
  0 < p ->
  (2 ^ (Z.log2 p - Z.log2 (Zpos q) - 1) <= p # q
   /\ p # q < 2 ^ (Z.log2 p - Z.log2 (Zpos q) + 1))%Q.
Proof.
  intros Hp.
  pose proof (Z.log2_spec p Hp) as [Hp1 Hp2].
  pose proof (Z.log2_spec (Zpos q) eq_refl) as [Hq1 Hq2].
  pose proof (Z.log2_nonneg p) as Lp.
  pose proof (Z.log2_nonneg (Zpos q)) as Lq.
  set (lp := Z.log2 p) in *. set (lq := Z.log2 (Zpos q)) in *.
  assert (P1 : 0 < 2 ^ lp) by (apply Z.pow_pos_nonneg; lia).
  assert (Q1 : 0 < 2 ^ lq) by (apply Z.pow_pos_nonneg; lia).
  rewrite (Qmake_Qdiv p q).
  split.
  - replace (lp - lq - 1) with (lp - Z.succ lq) by lia.
    rewrite Qpower_minus by apply two_ne_0.
    rewrite (pow2_inject lp), (pow2_inject (Z.succ lq)) by lia.
    apply Qdiv_le_cross.
    + change 0%Q with (inject_Z 0). rewrite <- Zlt_Qlt. lia.
    + reflexivity.
    + rewrite <- !inject_Z_mult, <- Zle_Qle. nia.
  - replace (lp - lq + 1) with (Z.succ lp - lq) by lia.
    rewrite Qpower_minus by apply two_ne_0.
    rewrite (pow2_inject (Z.succ lp)), (pow2_inject lq) by lia.
    apply Qdiv_lt_cross.
    + reflexivity.
    + change 0%Q with (inject_Z 0). rewrite <- Zlt_Qlt. lia.
    + rewrite <- !inject_Z_mult, <- Zlt_Qlt. nia.
Qed.

Lemma exponent_spec (x : Q) :
  (0 < x)%Q -> (2 ^ exponent x <= x /\ x < 2 ^ (exponent x + 1))%Q.
Proof.
  intros Hx. destruct x as [p q].
  assert (Hp : 0 < p).
  { unfold Qlt in Hx. simpl in Hx. lia. }
  destruct (exponent_bounds p q Hp) as [Hlo Hhi].
  unfold exponent. cbn [Qnum Qden].
  set (d := Z.log2 p - Z.log2 (Zpos q)) in *.
  destruct (Qle_bool (2 ^ d) (p # q)) eqn:E.
  - apply Qle_bool_iff in E. now split.
  - split; [assumption|].
    replace (d - 1 + 1) with d by lia.
    apply Qnot_le_lt. intros H. apply Qle_bool_iff in H. congruence.
Qed.

Lemma exponent_unique (x : Q) (e : Z) :
  (2 ^ e <= x)%Q -> (x < 2 ^ (e + 1))%Q -> exponent x = e.
Proof.
  intros Hlo Hhi.
  assert (Hx : (0 < x)%Q)
    by (eapply Qlt_le_trans; [apply (pow2_pos e) | exact Hlo]).
  destruct (exponent_spec x Hx) as [Hlo' Hhi'].
  assert (exponent x < e + 1)
    by (apply pow2_lt_inv; eapply Qle_lt_trans; eassumption).
  assert (e < exponent x + 1)
    by (apply pow2_lt_inv; eapply Qle_lt_trans; eassumption).
  lia.
Qed.

Lemma exponent_le (x y : Q) :
  (0 < x)%Q -> (x <= y)%Q -> exponent x <= exponent y.
Proof.
  intros Hx Hxy.
  assert (Hy : (0 < y)%Q) by (eapply Qlt_le_trans; eassumption).
  destruct (exponent_spec x Hx) as [Hlo _].
  destruct (exponent_spec y Hy) as [_ Hhi].
  assert (exponent x < exponent y + 1); [|lia].
  apply pow2_lt_inv.
  eapply Qle_lt_trans; [exact Hlo|].
  eapply Qle_lt_trans; eassumption.
Qed.

End Exponent.

Section RoundPositive.

Import Binary64.

Variable x : Q.
Hypothesis Hx : (0 < x)%Q.

Lemma ulp_pos (y : Q) : (0 < ulp y)%Q.
Proof. apply pow2_pos. Qed.

Lemma ulp_low : (2 ^ 52 * ulp x <= x)%Q.
Proof.
  unfold ulp. rewrite <- Qpower_plus by apply two_ne_0.
  replace (52 + (exponent x - 52)) with (exponent x) by lia.
  apply (exponent_spec x Hx).
Qed.

Lemma ulp_high : (x < 2 ^ 53 * ulp x)%Q.
Proof.
  unfold ulp. rewrite <- Qpower_plus by apply two_ne_0.
  replace (53 + (exponent x - 52)) with (exponent x + 1) by lia.
  apply (exponent_spec x Hx).
Qed.

Lemma scaled_low : (inject_Z (2 ^ 52) <= x / ulp x)%Q.
Proof.
  apply Qle_shift_div_l; [apply ulp_pos|].
  rewrite <- pow2_inject by lia. apply ulp_low.
Qed.

Lemma scaled_high : (x / ulp x <= inject_Z (2 ^ 53))%Q.
Proof.
  apply Qle_shift_div_r; [apply ulp_pos|].
  rewrite <- pow2_inject by lia. apply Qlt_le_weak, ulp_high.
Qed.

Lemma mantissa_bounds :
  2 ^ 52 <= nearestEven (x / ulp x) <= 2 ^ 53.
Proof.
  split.
  - rewrite <- (nearestEven_inject_Z (2 ^ 52)).
    apply nearestEven_le, scaled_low.
  - rewrite <- (nearestEven_inject_Z (2 ^ 53)).
    apply nearestEven_le, scaled_high.
Qed.

Lemma roundPositive_low : (2 ^ 52 * ulp x <= roundPositive x)%Q.
Proof.
  unfold roundPositive.
  apply Qmult_le_compat_r; [|apply Qlt_le_weak, ulp_pos].
  rewrite pow2_inject by lia. rewrite <- Zle_Qle. apply mantissa_bounds.
Qed.

Lemma roundPositive_high : (roundPositive x <= 2 ^ 53 * ulp x)%Q.
Proof.
  unfold roundPositive.
  apply Qmult_le_compat_r; [|apply Qlt_le_weak, ulp_pos].
  rewrite pow2_inject by lia. rewrite <- Zle_Qle. apply mantissa_bounds.
Qed.

Lemma roundPositive_pos : (0 < roundPositive x)%Q.
Proof.
  eapply Qlt_le_trans; [|apply roundPositive_low].
  apply Qmult_lt_0_compat; [apply pow2_pos | apply ulp_pos].
Qed.

Lemma roundPositive_error :
  (x - ulp x * (1 # 2) <= roundPositive x
   /\ roundPositive x <= x + ulp x * (1 # 2))%Q.
Proof.
  unfold roundPositive.
  destruct (nearestEven_close (x / ulp x)) as [Hlo Hhi].
  pose proof (ulp_pos x) as Hu.
  assert (Hne : ~ (ulp x == 0)%Q)
    by (intros Hz; rewrite Hz in Hu; now apply (Qlt_irrefl 0)).
  assert (Hs : (x == x / ulp x * ulp x)%Q) by (field; exact Hne).
  set (m := inject_Z (nearestEven (x / ulp x))) in *.
  set (s := (x / ulp x)%Q) in *.
  set (u := ulp x) in *.
  split.
  - rewrite Hs at 1.
    setoid_replace (s * u - u * (1 # 2))%Q with ((s - (1 # 2)) * u)%Q
      by ring.
    apply Qmult_le_compat_r; [lra | now apply Qlt_le_weak].
  - rewrite Hs at 1.
    setoid_replace (s * u + u * (1 # 2))%Q with ((s + (1 # 2)) * u)%Q
      by ring.
    apply Qmult_le_compat_r; [lra | now apply Qlt_le_weak].
Qed.

Lemma roundPositive_relative :
  (x * (1 - unitRoundoff) <= roundPositive x
   /\ roundPositive x <= x * (1 + unitRoundoff))%Q.
Proof.
  destruct roundPositive_error as [Hlo Hhi].
  pose proof ulp_low as Hu.
  set (u := ulp x) in *.
  assert (Hhalf : (u * (1 # 2) <= x * unitRoundoff)%Q).
  { assert (H52 : (2 ^ 52 == inject_Z (2 ^ 52))%Q) by now apply pow2_inject.
    rewrite H52 in Hu. unfold unitRoundoff.
    change (inject_Z (2 ^ 52)) with 4503599627370496%Q in Hu.
    change (1 # 2 ^ 53)%Q with (1 # 9007199254740992)%Q.
    lra. }
  split; lra.
Qed.

End RoundPositive.

Section RoundPositiveOrder.

Import Binary64.

Lemma roundPositive_compat (x y : Q) :
  (0 < x)%Q -> (x == y)%Q -> (roundPositive x == roundPositive y)%Q.
Proof.
  intros Hx Heq.
  assert (Hy : (0 < y)%Q) by now rewrite <- Heq.
  assert (He : exponent y = exponent x).
  { destruct (exponent_spec x Hx) as [Hlo Hhi].
    apply exponent_unique; now rewrite <- Heq. }
  unfold roundPositive, ulp. rewrite He.
  assert (Hs : (x / 2 ^ (exponent x - 52) == y / 2 ^ (exponent x - 52))%Q)
    by (unfold Qdiv; apply Qmult_comp; [exact Heq | reflexivity]).
  rewrite (nearestEven_compat _ _ Hs).
  reflexivity.
Qed.

Lemma roundPositive_le (x y : Q) :
  (0 < x)%Q -> (x <= y)%Q -> (roundPositive x <= roundPositive y)%Q.
Proof.
  intros Hx Hxy.
  assert (Hy : (0 < y)%Q) by (eapply Qlt_le_trans; eassumption).
  pose proof (exponent_le x y Hx Hxy) as He.
  destruct (Z.eq_dec (exponent x) (exponent y)) as [Heq|Hne].
  - unfold roundPositive, ulp. rewrite Heq.
    apply Qmult_le_compat_r; [|apply Qlt_le_weak, pow2_pos].
    rewrite <- Zle_Qle. apply nearestEven_le.
    unfold Qdiv. apply Qmult_le_compat_r; [assumption|].
    apply Qlt_le_weak, Qinv_lt_0_compat, pow2_pos.
  - eapply Qle_trans; [apply (roundPositive_high x Hx)|].
    eapply Qle_trans; [|apply (roundPositive_low y Hy)].
    unfold ulp. rewrite <- !Qpower_plus by apply two_ne_0.
    apply pow2_le. lia.
Qed.

Lemma roundPositive_inject_Z (k : Z) :
  0 < k < 2 ^ 53 -> (roundPositive (inject_Z k) == inject_Z k)%Q.
Proof.
  intros [Hk Hlt].
  assert (Hx : (0 < inject_Z k)%Q).
  { change 0%Q with (inject_Z 0). now rewrite <- Zlt_Qlt. }
  destruct (exponent_spec (inject_Z k) Hx) as [Hlo _].
  unfold roundPositive, ulp.
  set (e := exponent (inject_Z k)) in *.
  assert (He : e < 53).
  { apply pow2_lt_inv. eapply Qle_lt_trans; [exact Hlo|].
    rewrite pow2_inject by lia. now rewrite <- Zlt_Qlt. }
  assert (Hs : (inject_Z k / 2 ^ (e - 52) == inject_Z (k * 2 ^ (52 - e)))%Q).
  { rewrite inject_Z_mult, <- pow2_inject by lia.
    replace (e - 52) with (- (52 - e)) by lia.
    rewrite Qpower_opp. field.
    intros Hz. pose proof (pow2_pos (52 - e)) as Hp.
    rewrite Hz in Hp. now apply (Qlt_irrefl 0). }
  rewrite (nearestEven_compat _ _ Hs), nearestEven_inject_Z.
  rewrite inject_Z_mult, <- pow2_inject by lia.
  rewrite <- Qmult_assoc, <- Qpower_plus by apply two_ne_0.
  replace (52 - e + (e - 52)) with 0 by lia.
  simpl. ring.
Qed.

End RoundPositiveOrder.

Section Round.

Import Binary64.

Lemma round_positive (x : Q) : (0 < x)%Q -> round x = roundPositive x.
Proof.
  intros H. unfold round. now rewrite (proj1 (Qlt_alt 0 x) H).
Qed.

Lemma round_negative (x : Q) :
  (x < 0)%Q -> round x = (- roundPositive (- x))%Q.
Proof.
  intros H. unfold round. now rewrite (proj1 (Qgt_alt 0 x) H).
Qed.

Lemma round_zero (x : Q) : (x == 0)%Q -> round x = 0%Q.
Proof.
  intros H. unfold round. symmetry in H.
  now rewrite (proj1 (Qeq_alt 0 x) H).
Qed.

Lemma round_cases (x : Q) :
  ((0 < x)%Q /\ round x = roundPositive x)
  \/ ((x == 0)%Q /\ round x = 0%Q)
  \/ ((x < 0)%Q /\ round x = (- roundPositive (- x))%Q).
Proof.
  destruct (Q_dec 0 x) as [[H|H]|H].
  - left. split; [assumption | now apply round_positive].
  - right. right. split; [assumption | now apply round_negative].
  - right. left. split; [now symmetry | apply round_zero; now symmetry].
Qed.

Lemma round_pos (x : Q) : (0 < x)%Q -> (0 < round x)%Q.
Proof.
  intros H. rewrite (round_positive x H). now apply roundPositive_pos.
Qed.

Lemma round_neg (x : Q) : (x < 0)%Q -> (round x < 0)%Q.
Proof.
  intros H. rewrite (round_negative x H).
  assert (Hn : (0 < - x)%Q) by lra.
  pose proof (roundPositive_pos (- x) Hn). lra.
Qed.

Lemma round_le (x y : Q) : (x <= y)%Q -> (round x <= round y)%Q.
Proof.
  intros Hxy.
  destruct (round_cases x) as [[Hx ->]|[[Hx ->]|[Hx ->]]];
    destruct (round_cases y) as [[Hy ->]|[[Hy ->]|[Hy ->]]];
    try lra.
  - now apply roundPositive_le.
  - apply Qlt_le_weak. now apply roundPositive_pos.
  - assert (Hn : (0 < - x)%Q) by lra.
    pose proof (roundPositive_pos (- x) Hn).
    pose proof (roundPositive_pos y Hy). lra.
  - assert (Hn : (0 < - x)%Q) by lra.
    pose proof (roundPositive_pos (- x) Hn). lra.
  - assert (Hn : (0 < - y)%Q) by lra.
    assert (Hle : (- y <= - x)%Q) by lra.
    pose proof (roundPositive_le (- y) (- x) Hn Hle). lra.
Qed.

Lemma round_compat (x y : Q) : (x == y)%Q -> (round x == round y)%Q.
Proof.
  intros H. apply Qle_antisym; apply round_le; rewrite H; apply Qle_refl.
Qed.

Lemma round_nonneg (x : Q) : (0 <= x)%Q -> (0 <= round x)%Q.
Proof.
  intros H. change 0%Q with (round 0) at 1. now apply round_le.
Qed.

Lemma round_relative (x : Q) :
  (0 <= x)%Q ->
  (x * (1 - unitRoundoff) <= round x
   /\ round x <= x * (1 + unitRoundoff))%Q.
Proof.
  intros H.
  destruct (round_cases x) as [[Hx ->]|[[Hx ->]|[Hx ->]]].
  - now apply roundPositive_relative.
  - rewrite Hx. split; lra.
  - lra.
Qed.

Lemma round_inject_Z (k : Z) :
  0 <= k < 2 ^ 53 -> (round (inject_Z k) == inject_Z k)%Q.
Proof.
  intros [Hk Hlt].
  destruct (Z.eq_dec k 0) as [->|Hne]; [reflexivity|].
  assert (Hx : (0 < inject_Z k)%Q).
  { change 0%Q with (inject_Z 0). rewrite <- Zlt_Qlt. lia. }
  rewrite (round_positive _ Hx).
  apply roundPositive_inject_Z. lia.
Qed.

Lemma round_opp (x : Q) : (Binary64.round (- x) == - Binary64.round x)%Q.
Proof.
  destruct (round_cases x) as [[Hx ->]|[[Hx ->]|[Hx ->]]].
  - rewrite round_negative by lra.
    rewrite (roundPositive_compat (- - x) x); [reflexivity | lra | ring].
  - rewrite round_zero by lra. reflexivity.
  - rewrite round_positive by lra. ring.
Qed.

End Round.
Section TextComparator.

Lemma filter_from_past_end (text : jsstring) :
  forall typed index,
    (List.length text <= index)%nat ->
    filter_from (fun char i => strictEq char (charAt text i)) index typed = [].
Proof.
  induction typed as [|t ts IH]; intros index Hle; simpl; [reflexivity|].
  unfold charAt at 1.
  destruct (nth_error text index) eqn:E.
  - assert (Hin : nth_error text index <> None) by congruence.
    apply nth_error_Some in Hin. lia.
  - simpl. apply IH. lia.
Qed.

Lemma filter_from_zipCount (text : jsstring) :
  forall typed index,
    List.length
      (filter_from (fun char i => strictEq char (charAt text i)) index typed)
    = zipCount (skipn index text) typed.
Proof.
  induction typed as [|t ts IH]; intros index; simpl.
  - destruct (skipn index text); reflexivity.
  - unfold charAt at 1.
    destruct (nth_error text index) as [r|] eqn:E.
    + assert (Hsk : skipn index text = r :: skipn (S index) text).
      { clear -E. revert text E.
        induction index as [|n IHn]; intros [|x xs] E; simpl in *;
          try discriminate.
        - now inversion E.
        - now apply IHn. }
      rewrite Hsk. simpl. destruct (N.eqb t r); simpl; now rewrite IH.
    + simpl. apply nth_error_None in E.
      rewrite filter_from_past_end by lia.
      rewrite skipn_all2 by lia. reflexivity.
Qed.

Lemma getCorrectChars_zipCount (userInput text : jsstring) :
  getCorrectChars userInput text = zipCount text userInput.
Proof.
  unfold getCorrectChars, Array_filter.
  now rewrite filter_from_zipCount.
Qed.

Lemma spec_filter_shift (reference typed : jsstring) r t :
  forall n start,
    filter
      (fun i =>
         match nth_error (t :: typed) i, nth_error (r :: reference) i with
         | Some a, Some b => N.eqb a b
         | _, _ => false
         end) (seq (S start) n)
    = map S
        (filter
           (fun i =>
              match nth_error typed i, nth_error reference i with
              | Some a, Some b => N.eqb a b
              | _, _ => false
              end) (seq start n)).
Proof.
  induction n as [|n IH]; intros start; simpl; [reflexivity|].
  rewrite IH.
  destruct (nth_error typed start), (nth_error reference start);
    try reflexivity.
  destruct (N.eqb _ _); reflexivity.
Qed.

Lemma zipCount_spec (reference typed : jsstring) :
  zipCount reference typed = spec_correctCount reference typed.
Proof.
  unfold spec_correctCount.
  revert typed.
  induction reference as [|r rs IH]; intros [|t ts]; simpl; try reflexivity.
  rewrite spec_filter_shift, IH.
  destruct (N.eqb t r); simpl; now rewrite length_map.
Qed.

Lemma zipCount_le (reference typed : jsstring) :
  (zipCount reference typed
   <= Nat.min (List.length reference) (List.length typed))%nat.
Proof.
  revert typed.
  induction reference as [|r rs IH]; intros [|t ts]; simpl; try lia.
  specialize (IH ts). destruct (N.eqb t r); lia.
Qed.

Lemma zipCount_firstn (reference typed : jsstring) :
  zipCount reference typed
  = zipCount reference (firstn (List.length reference) typed).
Proof.
  revert typed.
  induction reference as [|r rs IH]; intros [|t ts]; simpl; try reflexivity.
  now rewrite <- IH.
Qed.

End TextComparator.

(** C2. [getCorrectChars] counts exactly the positions below both lengths at
    which the typed unit equals the reference unit; it is bounded by the
    shorter length, typed units past the end of the reference never count,
    and it is 0 when either string is empty. *)
Theorem getCorrectChars_counts_matching_positions :
  forall reference typed : jsstring,
    getCorrectChars typed reference = spec_correctCount reference typed
    /\ (getCorrectChars typed reference
        <= Nat.min (List.length reference) (List.length typed))%nat
    /\ getCorrectChars typed reference
       = getCorrectChars (firstn (List.length reference) typed) reference
    /\ getCorrectChars [] reference = 0%nat
    /\ getCorrectChars typed [] = 0%nat.
Proof.
  intros reference typed.
  rewrite !getCorrectChars_zipCount.
  repeat split.
  - apply zipCount_spec.
  - apply zipCount_le.
  - apply zipCount_firstn.
  - destruct reference; reflexivity.
Qed.
(** ** Arithmetic of the rounding primitives *)

Section Rounding.

Lemma Math_floor_div (a b : Z) :
  Math_floor (inject_Z a / inject_Z b)%Q = a / b.
Proof. unfold Math_floor. symmetry. apply Zdiv_Qdiv. Qed.

Lemma Math_floor_millis (a : Z) :
  Math_floor (inject_Z a / 1000)%Q = a / 1000.
Proof. exact (Math_floor_div a 1000). Qed.

Lemma Math_round_compat (x y : Q) :
  (x == y)%Q -> Math_round x = Math_round y.
Proof.
  intros Heq. unfold Math_round. apply Qfloor_comp. now rewrite Heq.
Qed.

Lemma Math_round_nonneg (x : Q) : (0 <= x)%Q -> 0 <= Math_round x.
Proof.
  intros Hx. unfold Math_round.
  change 0 with (Qfloor 0).
  apply Qfloor_resp_le.
  apply Qle_trans with x; [assumption|].
  rewrite <- (Qplus_0_r x) at 1.
  apply Qplus_le_compat; [apply Qle_refl | discriminate].
Qed.

Lemma inject_Z_pos (a : Z) : 0 < a -> (0 < inject_Z a)%Q.
Proof. intros H. change 0%Q with (inject_Z 0). now rewrite <- Zlt_Qlt. Qed.

Lemma inject_Z_nonneg (a : Z) : 0 <= a -> (0 <= inject_Z a)%Q.
Proof. intros H. change 0%Q with (inject_Z 0). now rewrite <- Zle_Qle. Qed.

Lemma Qpositive_spec (x : Q) : Qpositive x = true <-> (0 < x)%Q.
Proof.
  unfold Qpositive. rewrite negb_true_iff.
  split.
  - intros H. apply Qnot_le_lt. intros Hle.
    apply Qle_bool_iff in Hle. congruence.
  - intros H. destruct (Qle_bool x 0) eqn:E; [|reflexivity].
    apply Qle_bool_iff in E. exfalso. now apply (Qlt_not_le 0 x).
Qed.

Lemma Qdiv_pos (x y : Q) : (0 < x)%Q -> (0 < y)%Q -> (0 < x / y)%Q.
Proof.
  intros Hx Hy. unfold Qdiv.
  rewrite <- (Qmult_0_l (/ y)).
  apply Qmult_lt_compat_r; [now apply Qinv_lt_0_compat | assumption].
Qed.

Lemma Qdiv_nonneg (x y : Q) : (0 <= x)%Q -> (0 < y)%Q -> (0 <= x / y)%Q.
Proof.
  intros Hx Hy. unfold Qdiv.
  apply Qmult_le_0_compat; [assumption|].
  apply Qlt_le_weak. now apply Qinv_lt_0_compat.
Qed.

Lemma Qpositive_false (x : Q) : (x <= 0)%Q -> Qpositive x = false.
Proof.
  intros H. destruct (Qpositive x) eqn:P; [|reflexivity].
  apply Qpositive_spec in P. exfalso. now apply (Qlt_not_le 0 x).
Qed.

Lemma Qdiv_nonpos (x y : Q) : (x <= 0)%Q -> (0 < y)%Q -> (x / y <= 0)%Q.
Proof.
  intros Hx Hy. apply Qle_shift_div_r; [assumption|].
  now rewrite Qmult_0_l.
Qed.

Lemma div_pos (x y : Q) :
  (0 < x)%Q -> (0 < y)%Q -> (0 < Binary64.div x y)%Q.
Proof. intros Hx Hy. apply round_pos. now apply Qdiv_pos. Qed.

Lemma div_nonneg (x y : Q) :
  (0 <= x)%Q -> (0 < y)%Q -> (0 <= Binary64.div x y)%Q.
Proof. intros Hx Hy. apply round_nonneg. now apply Qdiv_nonneg. Qed.

Lemma div_nonpos (x y : Q) :
  (x <= 0)%Q -> (0 < y)%Q -> (Binary64.div x y <= 0)%Q.
Proof.
  intros Hx Hy. unfold Binary64.div.
  apply Qle_trans with (Binary64.round 0); [|apply Qle_refl].
  apply round_le. now apply Qdiv_nonpos.
Qed.

Lemma div_le (a b m1 m2 : Q) :
  (0 <= a)%Q -> (a <= b)%Q -> (0 < m1)%Q -> (m1 <= m2)%Q ->
  (Binary64.div a m2 <= Binary64.div b m1)%Q.
Proof.
  intros Ha Hab Hm1 Hm. apply round_le.
  assert (Hm2 : (0 < m2)%Q) by (eapply Qlt_le_trans; eassumption).
  apply Qdiv_le_cross; try assumption.
  apply Qle_trans with (b * m1)%Q.
  - apply Qmult_le_compat_r; [assumption | now apply Qlt_le_weak].
  - rewrite (Qmult_comm b m1), (Qmult_comm b m2).
    apply Qmult_le_compat_r; [assumption|].
    eapply Qle_trans; eassumption.
Qed.

Lemma mul_nonneg (x y : Q) :
  (0 <= x)%Q -> (0 <= y)%Q -> (0 <= Binary64.mul x y)%Q.
Proof. intros Hx Hy. apply round_nonneg. now apply Qmult_le_0_compat. Qed.

Lemma mul_le (a b c d : Q) :
  (0 <= a)%Q -> (a <= b)%Q -> (0 <= c)%Q -> (c <= d)%Q ->
  (Binary64.mul a c <= Binary64.mul b d)%Q.
Proof.
  intros Ha Hab Hc Hcd. apply round_le.
  apply Qmult_le_compat_nonneg; split; assumption.
Qed.

Lemma elapsedMinutes_pos (elapsed : Z) :
  0 < elapsed -> (0 < elapsedMinutes elapsed)%Q.
Proof.
  intros H. unfold elapsedMinutes.
  apply div_pos; [|reflexivity].
  apply div_pos; [|reflexivity]. now apply inject_Z_pos.
Qed.

Lemma elapsedMinutes_positive (elapsed : Z) :
  Qpositive (elapsedMinutes elapsed) = (0 <? elapsed).
Proof.
  destruct (0 <? elapsed) eqn:E.
  - apply Z.ltb_lt in E. apply Qpositive_spec.
    now apply elapsedMinutes_pos.
  - apply Z.ltb_ge in E. apply Qpositive_false.
    unfold elapsedMinutes.
    apply div_nonpos; [|reflexivity].
    apply div_nonpos; [|reflexivity].
    change 0%Q with (inject_Z 0). now rewrite <- Zle_Qle.
Qed.

Lemma Qfloor_unique (x : Q) (n : Z) :
  (inject_Z n <= x)%Q -> (x < inject_Z (n + 1))%Q -> Qfloor x = n.
Proof.
  intros Hlo Hhi.
  pose proof (Qfloor_le x) as Fl. pose proof (Qlt_floor x) as Fh.
  assert (n < Qfloor x + 1)
    by (rewrite Zlt_Qlt; eapply Qle_lt_trans; eassumption).
  assert (Qfloor x < n + 1)
    by (rewrite Zlt_Qlt; eapply Qle_lt_trans; eassumption).
  lia.
Qed.

Lemma millis_quotient (elapsedMs : Z) :
  0 <= elapsedMs < 2 ^ 53 ->
  let k := elapsedMs / 1000 in
  (inject_Z k <= Binary64.div (inject_Z elapsedMs) 1000
   /\ Binary64.div (inject_Z elapsedMs) 1000 < inject_Z k + 1
   /\ inject_Z elapsedMs / 1000 - (1 # 1000)
      < Binary64.div (inject_Z elapsedMs) 1000)%Q.
Proof.
  intros [H0 Hlt] k.
  pose proof (Z.div_mod elapsedMs 1000 ltac:(lia)) as Hdm.
  pose proof (Z.mod_pos_bound elapsedMs 1000 ltac:(lia)) as Hr.
  fold k in Hdm.
  assert (Hk : 0 <= k < 2 ^ 53).
  { split; [apply Z.div_pos; lia|].
    apply Z.div_lt_upper_bound; lia. }
  assert (Hq : (0 <= inject_Z elapsedMs / 1000)%Q)
    by (apply Qdiv_nonneg; [now apply inject_Z_nonneg | reflexivity]).
  destruct (round_relative _ Hq) as [Hlo Hhi].
  assert (Hlow : (inject_Z k <= inject_Z elapsedMs / 1000)%Q).
  { apply Qle_shift_div_l; [reflexivity|].
    change 1000%Q with (inject_Z 1000).
    rewrite <- inject_Z_mult, <- Zle_Qle. lia. }
  assert (Hup : (inject_Z elapsedMs / 1000 <= inject_Z k + (999 # 1000))%Q).
  { apply Qle_shift_div_r; [reflexivity|].
    setoid_replace ((inject_Z k + (999 # 1000)) * 1000)%Q
      with (inject_Z (k * 1000 + 999))
      by (rewrite inject_Z_plus, inject_Z_mult; simpl; ring).
    rewrite <- Zle_Qle. lia. }
  assert (Hsmall : (inject_Z elapsedMs / 1000
                    < 9007199254740992 * (1 # 1000))%Q).
  { apply Qlt_shift_div_r; [reflexivity|].
    setoid_replace (9007199254740992 * (1 # 1000) * 1000)%Q
      with (inject_Z (2 ^ 53)) by reflexivity.
    now rewrite <- Zlt_Qlt. }
  unfold Binary64.div.
  set (q := (inject_Z elapsedMs / 1000)%Q) in *.
  assert (Hge : (inject_Z k <= Binary64.round q)%Q).
  { rewrite <- (round_inject_Z k Hk). now apply round_le. }
  unfold Binary64.unitRoundoff in Hlo, Hhi.
  change (1 # 2 ^ 53)%Q with (1 # 9007199254740992)%Q in Hlo, Hhi.
  repeat split; lra.
Qed.

(** The header's remark on whole seconds: for a clock difference between
    [-2^53] and [2^53], flooring the binary64 quotient by 1000 gives the
    integer quotient. *)
Lemma wholeSeconds_binary64 (elapsedMs : Z) :
  - 2 ^ 53 < elapsedMs < 2 ^ 53 ->
  Math_floor (Binary64.div (inject_Z elapsedMs) 1000) = elapsedMs / 1000.
Proof.
  intros [Hlo Hhi]. unfold Math_floor.
  destruct (Z_le_gt_dec 0 elapsedMs) as [Hpos|Hneg].
  - destruct (millis_quotient elapsedMs (conj Hpos Hhi)) as (Hge & Hlt & _).
    apply Qfloor_unique; [exact Hge|].
    rewrite inject_Z_plus. exact Hlt.
  - assert (Hn : 0 <= - elapsedMs < 2 ^ 53) by lia.
    destruct (millis_quotient (- elapsedMs) Hn) as (_ & _ & Hnear).
    pose proof (Z.div_mod elapsedMs 1000 ltac:(lia)) as Hdm.
    pose proof (Z.mod_pos_bound elapsedMs 1000 ltac:(lia)) as Hr.
    set (k := elapsedMs / 1000) in *.
    assert (Hk : 0 <= - k < 2 ^ 53) by lia.
    assert (Heq : (Binary64.div (inject_Z elapsedMs) 1000
                   == - Binary64.div (inject_Z (- elapsedMs)) 1000)%Q).
    { unfold Binary64.div. rewrite <- round_opp.
      apply round_compat. rewrite inject_Z_opp. field. }
    assert (Hx1 : (inject_Z (- elapsedMs) / 1000 <= inject_Z (- k))%Q).
    { apply Qle_shift_div_r; [reflexivity|].
      change 1000%Q with (inject_Z 1000).
      rewrite <- inject_Z_mult, <- Zle_Qle. lia. }
    assert (Hx2 : (inject_Z (- k) - (999 # 1000)
                   <= inject_Z (- elapsedMs) / 1000)%Q).
    { apply Qle_shift_div_l; [reflexivity|].
      setoid_replace ((inject_Z (- k) - (999 # 1000)) * 1000)%Q
        with (inject_Z (- k * 1000 - 999))
        by (unfold Zminus; rewrite inject_Z_plus, inject_Z_mult; simpl; ring).
      rewrite <- Zle_Qle. lia. }
    assert (Hy : (Binary64.div (inject_Z (- elapsedMs)) 1000
                  <= inject_Z (- k))%Q).
    { rewrite <- (round_inject_Z (- k) Hk). now apply round_le. }
    rewrite (inject_Z_opp k) in Hx1, Hx2, Hy.
    apply Qfloor_unique.
    + rewrite Heq. lra.
    + rewrite Heq, inject_Z_plus. change (inject_Z 1) with 1%Q. lra.
Qed.

End Rounding.

(** ** Metrics engine *)

Section History.

Lemma lastEntry_app (h : list Sample) (s : Sample) :
  lastEntry (h ++ [s]) = Some s.
Proof.
  destruct h as [|x rest]; [reflexivity|].
  rewrite <- app_comm_cons. unfold lastEntry. now rewrite last_last.
Qed.

Lemma lastEntry_None (h : list Sample) : lastEntry h = None -> h = [].
Proof. destruct h; [reflexivity | discriminate]. Qed.

Lemma last_cons_default (rest : list Sample) :
  forall x d, last (x :: rest) d = last rest x.
Proof.
  induction rest as [|y rest IH]; intros x d; [reflexivity|].
  change (last (x :: y :: rest) d) with (last (y :: rest) d).
  now rewrite !IH.
Qed.

Lemma lastEntry_Some (h : list Sample) (s : Sample) :
  lastEntry h = Some s -> h = removelast h ++ [s].
Proof.
  destruct h as [|x rest]; [discriminate|].
  intros H. injection H as <-.
  rewrite <- (last_cons_default rest x x).
  apply app_removelast_last. discriminate.
Qed.

Lemma length_removelast_app (h : list Sample) (s t : Sample) :
  lastEntry h = Some s ->
  List.length (removelast h ++ [t]) = List.length h.
Proof.
  intros H. rewrite (lastEntry_Some h s H) at 2.
  now rewrite !length_app.
Qed.

Lemma recordSample_lastEntry (h : list Sample) (t w : Z) :
  lastEntry (recordSample t w h) = Some (mkSample t w).
Proof.
  unfold recordSample.
  destruct (lastEntry h) as [e|]; [destruct (time e =? t)|];
    apply lastEntry_app.
Qed.

End History.

(** C4. The history updater appends [(timeSeconds, wpm)] when the history is
    empty or its last entry is for another second, and replaces the last
    entry otherwise; so a second sample for the same second leaves the
    length alone and a sample for a new second adds exactly one entry. *)
Theorem recordSample_appends_or_replaces :
  forall (history : list Sample) (timeSeconds wpmNow : Z),
    (lastEntry history = None ->
     recordSample timeSeconds wpmNow history
     = history ++ [mkSample timeSeconds wpmNow])
    /\ (forall entry,
           lastEntry history = Some entry ->
           time entry <> timeSeconds ->
           recordSample timeSeconds wpmNow history
           = history ++ [mkSample timeSeconds wpmNow]
           /\ List.length (recordSample timeSeconds wpmNow history)
              = S (List.length history))
    /\ (forall entry,
           lastEntry history = Some entry ->
           time entry = timeSeconds ->
           recordSample timeSeconds wpmNow history
           = removelast history ++ [mkSample timeSeconds wpmNow]
           /\ List.length (recordSample timeSeconds wpmNow history)
              = List.length history)
    /\ (forall wpmLater,
           List.length
             (recordSample timeSeconds wpmLater
                (recordSample timeSeconds wpmNow history))
           = List.length (recordSample timeSeconds wpmNow history)).
Proof.
  intros history timeSeconds wpmNow.
  repeat split.
  - intros H. unfold recordSample. now rewrite H.
  - unfold recordSample. rewrite H.
    apply Z.eqb_neq in H0. now rewrite H0.
  - unfold recordSample. rewrite H.
    apply Z.eqb_neq in H0. rewrite H0.
    rewrite length_app. simpl. lia.
  - unfold recordSample. rewrite H.
    apply Z.eqb_eq in H0. now rewrite H0.
  - unfold recordSample at 1. rewrite H.
    apply Z.eqb_eq in H0. rewrite H0.
    now apply length_removelast_app with entry.
  - intros wpmLater.
    unfold recordSample at 1.
    rewrite recordSample_lastEntry. simpl. rewrite Z.eqb_refl.
    eapply length_removelast_app. apply recordSample_lastEntry.
Qed.

Lemma recordSample_appends_or_replaces_witness :
  recordSample 1 42 [mkSample 0 40] = [mkSample 0 40; mkSample 1 42]
  /\ recordSample 1 43 [mkSample 0 40; mkSample 1 42]
     = [mkSample 0 40; mkSample 1 43].
Proof.
  split.
  - apply (proj1 (proj2 (recordSample_appends_or_replaces
                           [mkSample 0 40] 1 42)) (mkSample 0 40));
      [reflexivity | simpl; lia].
  - apply (proj1 (proj2 (proj2 (recordSample_appends_or_replaces
                                  [mkSample 0 40; mkSample 1 42] 1 43)))
             (mkSample 1 42));
      reflexivity.
Defined.
(** ** Ghost projector *)

Section Ghost.

Lemma charactersTyped_nonneg (elapsedMs opponentWpm : Z) :
  0 <= elapsedMs -> 0 <= opponentWpm ->
  0 <= charactersTyped elapsedMs opponentWpm.
Proof.
  intros He Hw. unfold charactersTyped, Math_floor.
  change 0 with (Qfloor 0).
  apply Qfloor_resp_le.
  apply mul_nonneg.
  - apply div_nonneg; [now apply inject_Z_nonneg | reflexivity].
  - apply div_nonneg; [|reflexivity].
    apply mul_nonneg; [now apply inject_Z_nonneg | discriminate].
Qed.

End Ghost.

(** ** Results of a finished game *)

Section Results.

Lemma calculateResults_duration (s : GameState) (history : list Sample)
  (endTime start : Z) :
  startTime s = Some start ->
  start <> 0 ->
  result_duration (calculateResults s history endTime)
  = (endTime - start) / 1000.
Proof.
  intros Hs Hnz. unfold calculateResults. simpl.
  rewrite Hs. simpl. apply Z.eqb_neq in Hnz. rewrite Hnz.
  apply Math_floor_millis.
Qed.

Lemma scheduleFinish_timeouts (c : Component) (now : Z) :
  finishTimeouts (scheduleFinish c now)
  = finishTimeouts c
    ++ [mkFinishClosure (calculateResults (state c) (wpmHistory c) now)
          (text (state c))].
Proof. reflexivity. Qed.

End Results.

(** ** Result sink *)

Section ResultSink.

Variable server : Server.

Lemma saveGameResult_out_of_range (data : SaveData) :
  inRange data = false ->
  saveGameResult server data = (Rejected "Failed to save game result", []).
Proof.
  unfold inRange, saveGameResult, saveGameResult_try. intros H.
  destruct (data_accuracy data <? 0) eqn:A1; [reflexivity|].
  destruct (100 <? data_accuracy data) eqn:A2; [reflexivity|].
  destruct (data_wpm data <? 0) eqn:W1; [reflexivity|].
  destruct (350 <? data_wpm data) eqn:W2; [reflexivity|].
  destruct (data_duration data <? 0) eqn:D1; [reflexivity|].
  destruct (300 <? data_duration data) eqn:D2; [reflexivity|].
  exfalso.
  apply Z.ltb_ge in A1, A2, W1, W2, D1, D2.
  apply not_true_iff_false in H. apply H.
  repeat (apply andb_true_iff; split); apply Z.leb_le; assumption.
Qed.

Lemma saveGameResult_try_in_range (data : SaveData) :
  inRange data = true ->
  saveGameResult_try server data
  = match getSession server with
    | None => (inl "getSession failed"%string, [])
    | Some None => (inr (false, None), [])
    | Some (Some id) =>
        if String.eqb id EmptyString then (inr (false, None), [])
        else
          match insertGameResult server id data with
          | Some rowId => (inr (true, Some rowId), [(id, data)])
          | None => (inl "insert failed"%string, [(id, data)])
          end
    end.
Proof.
  unfold inRange, saveGameResult_try. intros H.
  repeat (apply andb_true_iff in H; destruct H as [H ?]).
  repeat match goal with
         | Hle : (_ <=? _) = true |- _ => apply Z.leb_le in Hle
         end.
  assert (A1 : (data_accuracy data <? 0) = false) by (apply Z.ltb_ge; lia).
  assert (A2 : (100 <? data_accuracy data) = false) by (apply Z.ltb_ge; lia).
  assert (W1 : (data_wpm data <? 0) = false) by (apply Z.ltb_ge; lia).
  assert (W2 : (350 <? data_wpm data) = false) by (apply Z.ltb_ge; lia).
  assert (D1 : (data_duration data <? 0) = false) by (apply Z.ltb_ge; lia).
  assert (D2 : (300 <? data_duration data) = false) by (apply Z.ltb_ge; lia).
  rewrite A1, A2, W1, W2, D1, D2. simpl.
  destruct (getSession server) as [[id|]|]; reflexivity.
Qed.

End ResultSink.

(** ** Session state machine *)

Section Dependencies.

Lemma jsstring_eqb_refl (a : jsstring) : jsstring_eqb a a = true.
Proof.
  unfold jsstring_eqb.
  induction a as [|x a IH]; simpl; [reflexivity|].
  now rewrite N.eqb_refl, IH.
Qed.

Lemma jsstring_eqb_eq (a b : jsstring) : jsstring_eqb a b = true -> a = b.
Proof.
  unfold jsstring_eqb. revert b.
  induction a as [|x a IH]; intros [|y b]; simpl; try discriminate;
    [reflexivity|].
  intros H. apply andb_true_iff in H. destruct H as [Hx Hr].
  apply N.eqb_eq in Hx. f_equal; [assumption | now apply IH].
Qed.

Lemma optionZ_eqb_refl (x : option Z) : optionZ_eqb x x = true.
Proof. destruct x; simpl; [apply Z.eqb_refl | reflexivity]. Qed.

Lemma optionZ_eqb_eq (x y : option Z) : optionZ_eqb x y = true -> x = y.
Proof.
  destruct x, y; simpl; try discriminate; [|reflexivity].
  intros H. apply Z.eqb_eq in H. now subst.
Qed.

Lemma countdownDepsChanged_same (s : GameState) :
  countdownDepsChanged s s = false.
Proof.
  unfold countdownDepsChanged.
  now rewrite Bool.eqb_reflx, Z.eqb_refl.
Qed.

Lemma countdownDepsChanged_false (old new : GameState) :
  countdownDepsChanged old new = false ->
  isGameActive old = isGameActive new /\ timer old = timer new.
Proof.
  unfold countdownDepsChanged. intros H.
  apply negb_false_iff, andb_true_iff in H. destruct H as [Ha Ht].
  split; [now apply Bool.eqb_prop | now apply Z.eqb_eq].
Qed.

Lemma wpmDepsChanged_same (s : GameState) : wpmDepsChanged s s = false.
Proof.
  unfold wpmDepsChanged.
  now rewrite Bool.eqb_reflx, optionZ_eqb_refl, !jsstring_eqb_refl.
Qed.

Lemma timerFinishDepsChanged_same (c : Component) :
  timerFinishDepsChanged c c = false.
Proof.
  unfold timerFinishDepsChanged.
  now rewrite Z.eqb_refl, !Bool.eqb_reflx, !jsstring_eqb_refl,
    optionZ_eqb_refl, Nat.eqb_refl.
Qed.

Lemma completionDepsChanged_same (c : Component) :
  completionDepsChanged c c = false.
Proof.
  unfold completionDepsChanged.
  now rewrite !Bool.eqb_reflx, !jsstring_eqb_refl, optionZ_eqb_refl,
    Nat.eqb_refl.
Qed.

End Dependencies.

Section Commit.

Ltac effect_cases :=
  repeat match goal with
         | |- context [if ?b then _ else _] => destruct b
         end.

Lemma applyUpdates_state (us : list CellUpdate) :
  forall c, state (applyUpdates us c) = state c.
Proof.
  unfold applyUpdates.
  induction us as [|u us IH]; intros c; simpl; [reflexivity|].
  rewrite IH. destruct u; reflexivity.
Qed.

Lemma applyUpdates_countdownInterval (us : list CellUpdate) :
  forall c, countdownInterval (applyUpdates us c) = countdownInterval c.
Proof.
  unfold applyUpdates.
  induction us as [|u us IH]; intros c; simpl; [reflexivity|].
  rewrite IH. destruct u; reflexivity.
Qed.

Lemma applyUpdates_wpmInterval (us : list CellUpdate) :
  forall c, wpmInterval (applyUpdates us c) = wpmInterval c.
Proof.
  unfold applyUpdates.
  induction us as [|u us IH]; intros c; simpl; [reflexivity|].
  rewrite IH. destruct u; reflexivity.
Qed.

Lemma applyUpdates_calls (us : list CellUpdate) :
  forall c,
    onGameFinishCalls (applyUpdates us c) = onGameFinishCalls c
    /\ saveGameResultCalls (applyUpdates us c) = saveGameResultCalls c.
Proof.
  unfold applyUpdates.
  induction us as [|u us IH]; intros c; simpl; [now split|].
  destruct (IH (applyUpdate u c)) as [-> ->]. destruct u; now split.
Qed.

Lemma flushEffects_state mount old c now :
  state (fst (flushEffects mount old c now)) = state c.
Proof.
  unfold flushEffects, completionFinishEffect, timerFinishEffect, wpmEffect,
    countdownEffect, scheduleFinish.
  effect_cases; reflexivity.
Qed.

Lemma flushEffects_countdownInterval mount old c now :
  countdownInterval (fst (flushEffects mount old c now))
  = if mount || countdownDepsChanged (state old) (state c)
    then isGameActive (state c) && (0 <? timer (state c))
    else countdownInterval c.
Proof.
  unfold flushEffects, completionFinishEffect, timerFinishEffect, wpmEffect,
    countdownEffect, scheduleFinish.
  destruct (mount || countdownDepsChanged (state old) (state c));
    effect_cases; reflexivity.
Qed.

Lemma flushEffects_calls mount old c now :
  onGameFinishCalls (fst (flushEffects mount old c now))
  = onGameFinishCalls c
  /\ saveGameResultCalls (fst (flushEffects mount old c now))
     = saveGameResultCalls c.
Proof.
  unfold flushEffects, completionFinishEffect, timerFinishEffect, wpmEffect,
    countdownEffect, scheduleFinish.
  effect_cases; split; reflexivity.
Qed.

(** The second flush of a commit finds the dependencies of the WPM effect
    unchanged and requests nothing. *)
Lemma second_flush_requests_nothing c (requested : list CellUpdate) now :
  snd (flushEffects false c (applyUpdates requested c) now) = [].
Proof.
  unfold flushEffects, wpmEffect, countdownEffect.
  rewrite applyUpdates_state, countdownDepsChanged_same. simpl.
  rewrite applyUpdates_state, wpmDepsChanged_same. reflexivity.
Qed.

Lemma commit_state mount old c now :
  state (commit mount old c now) = state c.
Proof.
  unfold commit.
  pose proof (flushEffects_state mount old c now) as H1.
  destruct (flushEffects mount old c now) as [c1 requested].
  simpl in H1. destruct requested as [|u us]; [assumption|].
  now rewrite flushEffects_state, applyUpdates_state.
Qed.

Lemma commit_countdownInterval mount old c now :
  countdownInterval (commit mount old c now)
  = if mount || countdownDepsChanged (state old) (state c)
    then isGameActive (state c) && (0 <? timer (state c))
    else countdownInterval c.
Proof.
  unfold commit.
  pose proof (flushEffects_countdownInterval mount old c now) as H1.
  destruct (flushEffects mount old c now) as [c1 requested].
  cbn [fst] in H1. destruct requested as [|u us]; [assumption|].
  rewrite flushEffects_countdownInterval, applyUpdates_state,
    countdownDepsChanged_same.
  cbn [orb]. rewrite applyUpdates_countdownInterval. exact H1.
Qed.

Lemma commit_calls mount old c now :
  onGameFinishCalls (commit mount old c now) = onGameFinishCalls c
  /\ saveGameResultCalls (commit mount old c now) = saveGameResultCalls c.
Proof.
  unfold commit.
  pose proof (flushEffects_calls mount old c now) as H1.
  destruct (flushEffects mount old c now) as [c1 requested].
  simpl in H1. destruct requested as [|u us]; [assumption|].
  destruct (flushEffects_calls false c1 (applyUpdates (u :: us) c1) now)
    as [-> ->].
  destruct (applyUpdates_calls (u :: us) c1) as [-> ->].
  assumption.
Qed.

(** Committing what is already committed runs no effect. *)
Lemma commit_same c now : commit false c c now = c.
Proof.
  unfold commit, flushEffects, completionFinishEffect, timerFinishEffect,
    wpmEffect, countdownEffect.
  rewrite countdownDepsChanged_same, wpmDepsChanged_same. simpl.
  now rewrite timerFinishDepsChanged_same, completionDepsChanged_same.
Qed.

End Commit.

Section Invariant.

Lemma seconds_nonneg (p : TimerPreference) : 0 <= seconds p.
Proof. destruct p; simpl; lia. Qed.

Lemma handle_countdownInterval now e c :
  countdownInterval (handle now e c) = countdownInterval c.
Proof.
  destruct e; simpl; try reflexivity.
  - destruct loaded; reflexivity.
  - destruct (_ || _); reflexivity.
  - destruct (countdownInterval c) eqn:E; simpl; congruence.
  - destruct (wpmInterval c); [|reflexivity].
    apply applyUpdates_countdownInterval.
  - destruct (finishTimeouts c); reflexivity.
  - destruct outcome as [[|] [id|]|]; try reflexivity.
    simpl. destruct (String.eqb id EmptyString); reflexivity.
  - destruct paragraph; reflexivity.
  - destruct (_ || _); [reflexivity|].
    unfold handleTimerToggle. destruct (negb _); reflexivity.
Qed.

Lemma handleInput_invariant value now s :
  stateInvariant s -> stateInvariant (handleInput value now s).
Proof.
  intros (Ht & Hidle & Hactive). unfold handleInput.
  destruct (isGameActive s) eqn:A; cbn [negb].
  - rewrite andb_false_r. unfold stateInvariant. simpl.
    repeat split; auto; discriminate.
  - destruct (Hidle eq_refl) as [Hu Hs].
    rewrite Hu. simpl.
    destruct (jsstring_eqb value []) eqn:V; simpl.
    + apply jsstring_eqb_eq in V. subst value.
      unfold stateInvariant. simpl.
      repeat split; auto; discriminate.
    + unfold stateInvariant. simpl.
      repeat split; auto; discriminate.
Qed.

Lemma handle_stateInvariant now e c :
  invariant c -> stateInvariant (state (handle now e c)).
Proof.
  intros [Hs Hc]. pose proof Hs as (Ht & Hidle & Hactive).
  destruct e; simpl.
  - unfold stateInvariant; simpl.
    pose proof (seconds_nonneg duration). auto.
  - assert (Hgoal : stateInvariant (loadText fallbackText 30 (state c))).
    { unfold stateInvariant; simpl. repeat split; auto; try lia;
        now apply Hidle. }
    destruct loaded; exact Hgoal.
  - destruct (_ || _); [assumption|].
    simpl. now apply handleInput_invariant.
  - destruct (countdownInterval c) eqn:E; [|assumption].
    symmetry in Hc. apply andb_true_iff in Hc. destruct Hc as [_ Hpos].
    apply Z.ltb_lt in Hpos.
    unfold stateInvariant; simpl. repeat split; auto; try lia;
      now apply Hidle.
  - destruct (wpmInterval c); [|assumption].
    now rewrite applyUpdates_state.
  - destruct (finishTimeouts c); [assumption|].
    unfold stateInvariant; simpl. repeat split; auto; now apply Hidle.
  - destruct outcome as [[|] [id|]|]; try assumption.
    simpl. destruct (String.eqb id EmptyString); assumption.
  - assumption.
  - pose proof (seconds_nonneg captured).
    destruct paragraph; unfold stateInvariant; simpl;
      repeat split; auto; discriminate.
  - destruct (_ || _); [assumption|].
    unfold handleTimerToggle.
    destruct (negb _); [|assumption].
    unfold stateInvariant; simpl.
    repeat split; auto; try now apply Hidle.
    destruct (timerPreference c); simpl; lia.
Qed.

Lemma commit_invariant old c now :
  invariant old ->
  stateInvariant (state c) ->
  countdownInterval c = countdownInterval old ->
  invariant (commit false old c now).
Proof.
  intros [_ Hold] Hs Hsame.
  split.
  - now rewrite commit_state.
  - rewrite commit_countdownInterval, commit_state. simpl.
    destruct (countdownDepsChanged (state old) (state c)) eqn:D;
      [reflexivity|].
    apply countdownDepsChanged_false in D. destruct D as [Ha Ht].
    now rewrite Hsame, Hold, Ha, Ht.
Qed.

Lemma step_invariant now e c : invariant c -> invariant (step now e c).
Proof.
  intros H. unfold step.
  apply commit_invariant;
    [assumption | now apply handle_stateInvariant
     | apply handle_countdownInterval].
Qed.

Lemma mounted_invariant : invariant mounted.
Proof.
  unfold invariant, stateInvariant. vm_compute.
  repeat split; try discriminate; try reflexivity; congruence.
Qed.

Lemma run_invariant (trace : list (Z * Event)) :
  forall c, invariant c -> invariant (run trace c).
Proof.
  induction trace as [|[now e] rest IH]; intros c H; simpl;
    [assumption|].
  apply IH. now apply step_invariant.
Qed.

Lemma run_reachable (trace : list (Z * Event)) :
  forall c, reachable c -> reachable (run trace c).
Proof.
  induction trace as [|[now e] rest IH]; intros c H; simpl;
    [assumption|].
  apply IH. now constructor.
Qed.

Lemma reachable_run c :
  reachable c -> exists trace, c = run trace mounted.
Proof.
  induction 1 as [|now e c _ [trace ->]].
  - now exists [].
  - exists (trace ++ [(now, e)]).
    assert (Happ : forall t1 t2 c0, run (t1 ++ t2) c0 = run t2 (run t1 c0)).
    { induction t1 as [|[n0 e0] t1 IH]; intros t2 c0; simpl;
        [reflexivity | apply IH]. }
    now rewrite Happ.
Qed.

Lemma reachable_invariant c : reachable c -> invariant c.
Proof.
  induction 1; [apply mounted_invariant | now apply step_invariant].
Qed.

End Invariant.
Section StartTime.

Lemma handle_keeps_startTime now e c s :
  invariant c ->
  startTime (state c) = Some s ->
  (forall captured paragraph, e <> RestartSettled captured paragraph) ->
  startTime (state (handle now e c)) = Some s
  /\ isGameActive (state (handle now e c)) = true.
Proof.
  intros [(Ht & Hidle & Hactive) _] Hs Hnot.
  assert (A : isGameActive (state c) = true).
  { destruct (isGameActive (state c)); [reflexivity|].
    destruct (Hidle eq_refl) as [_ Hn]. congruence. }
  destruct e; simpl; auto.
  - destruct loaded; simpl; auto.
  - destruct (_ || _); [auto|]. simpl.
    unfold handleInput. rewrite A, andb_false_r. simpl. auto.
  - destruct (countdownInterval c); simpl; auto.
  - destruct (wpmInterval c); [|auto]. rewrite applyUpdates_state. auto.
  - destruct (finishTimeouts c); simpl; auto.
  - destruct outcome as [[|] [id|]|]; simpl; auto.
    destruct (String.eqb id EmptyString); simpl; auto.
  - exfalso. now apply (Hnot captured paragraph).
  - rewrite A. simpl. auto.
Qed.

Lemma handle_sets_startTime now e c :
  invariant c ->
  startTime (state c) = None ->
  startTime (state (handle now e c)) <> None ->
  exists value,
    e = Input value /\ value <> [] /\ userInput (state c) = []
    /\ startTime (state (handle now e c)) = Some now
    /\ isGameActive (state (handle now e c)) = true.
Proof.
  intros [(Ht & Hidle & Hactive) _] Hs.
  assert (A : isGameActive (state c) = false).
  { destruct (isGameActive (state c)) eqn:E; [|reflexivity].
    now destruct (Hactive eq_refl). }
  destruct (Hidle A) as [Hu _].
  destruct e; simpl; try congruence.
  - destruct loaded; simpl; congruence.
  - destruct (_ || _); [congruence|]. simpl.
    unfold handleInput. rewrite A, Hu. simpl.
    destruct (jsstring_eqb value []) eqn:V; simpl; [congruence|].
    intros _. exists value. repeat split; try reflexivity.
    intros ->. discriminate.
  - destruct (countdownInterval c); simpl; congruence.
  - destruct (wpmInterval c); [|congruence].
    rewrite applyUpdates_state. congruence.
  - destruct (finishTimeouts c); simpl; congruence.
  - destruct outcome as [[|] [id|]|]; simpl; try congruence.
    destruct (String.eqb id EmptyString); simpl; congruence.
  - destruct paragraph; simpl; congruence.
  - rewrite A. simpl. destruct (isLoading c); [congruence|].
    unfold handleTimerToggle. rewrite A. simpl. congruence.
Qed.

End StartTime.

(** C6. In every state a mounted component can reach: a set [startTime]
    survives every event but a completed restart, and the game stays active;
    an absent [startTime] becomes set only by an input that makes the typed
    text non-empty, and then holds the time of that input; the first
    non-empty input of an idle session does set it; deleting all input while
    active leaves the session active with its [startTime]; and a completed
    restart clears it. *)
Theorem startTime_set_once_per_session :
  forall (trace : list (Z * Event)) (now : Z) (e : Event),
    let c := run trace mounted in
    (forall s,
        startTime (state c) = Some s ->
        (forall captured paragraph, e <> RestartSettled captured paragraph) ->
        startTime (state (step now e c)) = Some s
        /\ isGameActive (state (step now e c)) = true)
    /\ (startTime (state c) = None ->
        startTime (state (step now e c)) <> None ->
        exists value,
          e = Input value /\ value <> [] /\ userInput (state c) = []
          /\ startTime (state (step now e c)) = Some now
          /\ isGameActive (state (step now e c)) = true)
    /\ (forall value,
           startTime (state c) = None ->
           isGameFinished (state c) = false ->
           isLoading c = false ->
           value <> [] ->
           startTime (state (step now (Input value) c)) = Some now)
    /\ (phase (state c) = Active ->
        isLoading c = false ->
        phase (state (step now (Input []) c)) = Active
        /\ startTime (state (step now (Input []) c)) = startTime (state c)
        /\ userInput (state (step now (Input []) c)) = [])
    /\ (forall captured paragraph,
           startTime (state (step now (RestartSettled captured paragraph) c))
           = None
           /\ phase (state (step now (RestartSettled captured paragraph) c))
              = Idle).
Proof.
  intros trace now e c.
  assert (Hinv : invariant c)
    by (apply run_invariant, mounted_invariant).
  clearbody c.
  unfold step. rewrite !commit_state.
  assert (Hdelete :
            phase (state c) = Active -> isLoading c = false ->
            state (handle now (Input []) c)
            = mkGameState (text (state c)) [] (startTime (state c))
                (timer (state c)) true false (finalWPM (state c))
                (finalAccuracy (state c))).
  { unfold phase. cbn [handle].
    destruct (isGameFinished (state c)) eqn:F; [discriminate|].
    destruct (isGameActive (state c)) eqn:A; [|discriminate].
    intros _ ->. cbn [orb setState state].
    unfold handleInput. now rewrite A, F, andb_false_r. }
  split; [|split; [|split; [|split]]].
  - intros s Hs Hnot. now apply (handle_keeps_startTime now e c s).
  - intros Hn Hset. now apply handle_sets_startTime.
  - intros value Hn Hfin Hload Hne. rewrite commit_state. cbn [handle].
    rewrite Hfin, Hload. cbn [orb setState state].
    destruct Hinv as [(_ & Hidle & Hactive) _].
    assert (A : isGameActive (state c) = false).
    { destruct (isGameActive (state c)) eqn:E; [|reflexivity].
      now destruct (Hactive eq_refl). }
    destruct (Hidle A) as [Hu _].
    unfold handleInput. rewrite A, Hu. cbn [jsstring_eqb andb negb].
    destruct (jsstring_eqb value []) eqn:V; [|reflexivity].
    apply jsstring_eqb_eq in V. contradiction.
  - intros Hphase Hload. rewrite (Hdelete Hphase Hload).
    repeat split; reflexivity.
  - intros captured paragraph. rewrite commit_state.
    destruct paragraph; split; reflexivity.
Qed.

Lemma startTime_set_once_per_session_witness :
  let c := run (firstn 3 completionSession) mounted in
  startTime (state (step 1400 (Input []) c)) = Some 1000
  /\ isGameActive (state (step 1400 (Input []) c)) = true.
Proof.
  intros c.
  apply (proj1 (startTime_set_once_per_session (firstn 3 completionSession)
                  1400 (Input [])) 1000).
  - vm_compute. reflexivity.
  - intros captured paragraph. discriminate.
Defined.

(** C10. In every state a mounted component can reach the countdown value is
    at least 0; the one-second interval is armed exactly while the game is
    active with time left; a tick lowers the value by one when the interval
    is armed and cannot happen otherwise, so the value stays at least 0; and
    at 0 the countdown has halted: a tick changes nothing. *)
Theorem countdown_never_negative :
  forall (trace : list (Z * Event)) (now : Z),
    let c := run trace mounted in
    0 <= timer (state c)
    /\ countdownInterval c
       = isGameActive (state c) && (0 <? timer (state c))
    /\ timer (state (step now CountdownTick c))
       = (if countdownInterval c then timer (state c) - 1
          else timer (state c))
    /\ 0 <= timer (state (step now CountdownTick c))
    /\ (timer (state c) = 0 -> step now CountdownTick c = c).
Proof.
  intros trace now c.
  assert (Hinv : invariant c)
    by (apply run_invariant, mounted_invariant).
  clearbody c.
  pose proof (step_invariant now CountdownTick c Hinv) as Hnext.
  destruct Hinv as [(Ht & _) Harmed].
  destruct Hnext as [(Ht' & _) _].
  repeat split; try assumption.
  - unfold step. rewrite commit_state. simpl.
    destruct (countdownInterval c); reflexivity.
  - intros Hzero. unfold step. simpl.
    rewrite Harmed, Hzero, andb_false_r. apply commit_same.
Qed.

Lemma countdown_never_negative_witness :
  let c := run (firstn 32 expirySession) mounted in
  step 17000 CountdownTick c = c.
Proof.
  intros c.
  apply (proj2 (proj2 (proj2 (proj2
           (countdown_never_negative (firstn 32 expirySession) 17000))))).
  vm_compute. reflexivity.
Defined.

(** C9. [saveGameResult] checks the ranges before anything else: data with
    wpm outside [[0,350]], accuracy outside [[0,100]] or duration outside
    [[0,300]] is rejected with an error and no insert is issued, whoever
    submits it, signed in or not; data in range submitted without an
    authenticated user resolves to [success: false] with no id and no
    insert. When the auto-save settles, the component's [state], and with it
    the phase, is untouched; a rejection changes nothing at all. *)
Theorem saveGameResult_validates_before_insert :
  forall (server : Server) (data : SaveData) (c : Component) (now : Z),
    (inRange data = false ->
     saveGameResult server data
     = (Rejected "Failed to save game result", [])
     /\ fst (saveGameResult server data) <> Resolved false None
     /\ step now (SaveSettled (fst (saveGameResult server data))) c = c)
    /\ (inRange data = true ->
        getSession server = Some None
        \/ getSession server = Some (Some EmptyString) ->
        saveGameResult server data = (Resolved false None, [])
        /\ step now (SaveSettled (fst (saveGameResult server data))) c = c)
    /\ (forall outcome,
           state (step now (SaveSettled outcome) c) = state c
           /\ phase (state (step now (SaveSettled outcome) c))
              = phase (state c)).
Proof.
  intros server data c now.
  repeat split.
  - now apply saveGameResult_out_of_range.
  - rewrite (saveGameResult_out_of_range server data H). discriminate.
  - rewrite (saveGameResult_out_of_range server data H).
    unfold step. simpl. apply commit_same.
  - unfold saveGameResult.
    rewrite (saveGameResult_try_in_range server data H).
    destruct H0 as [-> | ->]; reflexivity.
  - unfold saveGameResult.
    rewrite (saveGameResult_try_in_range server data H).
    destruct H0 as [-> | ->]; unfold step; simpl; apply commit_same.
  - unfold step. rewrite commit_state.
    destruct outcome as [[|] [id|]|]; simpl; try reflexivity.
    destruct (String.eqb id EmptyString); reflexivity.
  - unfold step. rewrite commit_state.
    destruct outcome as [[|] [id|]|]; simpl; try reflexivity.
    destruct (String.eqb id EmptyString); reflexivity.
Qed.

Lemma saveGameResult_validates_before_insert_witness :
  saveGameResult (mkServer (Some (Some "user-1"%string)) (fun _ _ => Some "row-1"%string))
    (mkSaveData 999 100 1 (str "cat") None)
  = (Rejected "Failed to save game result", [])
  /\ saveGameResult (mkServer (Some None) (fun _ _ => Some "row-1"%string))
       (mkSaveData 60 100 15 (str "cat") None)
     = (Resolved false None, []).
Proof.
  split.
  - apply (proj1 (saveGameResult_validates_before_insert
                    (mkServer (Some (Some "user-1"%string))
                       (fun _ _ => Some "row-1"%string))
                    (mkSaveData 999 100 1 (str "cat") None) mounted 0)).
    reflexivity.
  - apply (proj1 (proj2 (saveGameResult_validates_before_insert
                           (mkServer (Some None)
                              (fun _ _ => Some "row-1"%string))
                           (mkSaveData 60 100 15 (str "cat") None)
                           mounted 0))).
    + reflexivity.
    + left. reflexivity.
Defined.

Section Finishing.

(** Once the committed state is finished, neither finish effect schedules
    anything: this is the guard the effects do have. *)
Lemma finished_schedules_nothing mount old c now :
  isGameFinished (state c) = true ->
  finishTimeouts (commit mount old c now) = finishTimeouts c.
Proof.
  intros F.
  assert (Htimer : forall m o c0 t,
             isGameFinished (state c0) = true ->
             timerFinishEffect m o c0 t = c0).
  { intros m o c0 t F0. unfold timerFinishEffect.
    now rewrite F0, !andb_false_r. }
  assert (Hcompletion : forall m o c0 t,
             isGameFinished (state c0) = true ->
             completionFinishEffect m o c0 t = c0).
  { intros m o c0 t F0. unfold completionFinishEffect.
    now rewrite F0, !andb_false_r. }
  assert (Hflush : forall m o c0 t,
             isGameFinished (state c0) = true ->
             finishTimeouts (fst (flushEffects m o c0 t))
             = finishTimeouts c0).
  { intros m o c0 t F0.
    unfold flushEffects.
    destruct (wpmEffect m o (countdownEffect m o c0) t) as [c2 requested]
      eqn:E.
    assert (Hc2 : state c2 = state c0
                  /\ finishTimeouts c2 = finishTimeouts c0).
    { revert E. unfold wpmEffect, countdownEffect.
      repeat match goal with
             | |- context [if ?b then _ else _] => destruct b
             end;
        intros E; injection E as <- _; split; reflexivity. }
    destruct Hc2 as [Hs Hf].
    rewrite Htimer by (now rewrite Hs).
    rewrite Hcompletion by (now rewrite Hs).
    exact Hf. }
  assert (Hupd : forall us c0,
             finishTimeouts (applyUpdates us c0) = finishTimeouts c0).
  { unfold applyUpdates.
    induction us as [|u us IH]; intros c0; simpl; [reflexivity|].
    rewrite IH. destruct u; reflexivity. }
  unfold commit.
  pose proof (Hflush mount old c now F) as H1.
  pose proof (flushEffects_state mount old c now) as H2.
  destruct (flushEffects mount old c now) as [c1 requested].
  cbn [fst] in H1, H2. destruct requested as [|u us]; [assumption|].
  rewrite Hflush by (now rewrite applyUpdates_state, H2).
  now rewrite Hupd.
Qed.

(** The deferred callback itself checks nothing: whatever the state, it
    reports its results and submits them. *)
Lemma finishCallback_always_submits closure c :
  onGameFinishCalls (finishCallback closure c)
  = onGameFinishCalls c ++ [closure_results closure]
  /\ List.length (saveGameResultCalls (finishCallback closure c))
     = S (List.length (saveGameResultCalls c)).
Proof.
  unfold finishCallback. simpl. split; [reflexivity|].
  rewrite length_app. simpl. lia.
Qed.

(** Results already reported are never touched again: the list of calls
    only grows. *)
Lemma reported_results_are_kept now e c :
  exists more,
    onGameFinishCalls (step now e c) = onGameFinishCalls c ++ more.
Proof.
  unfold step.
  destruct (commit_calls false c (handle now e c) now) as [-> _].
  destruct e; simpl;
    try (exists []; now rewrite app_nil_r).
  - destruct loaded; exists []; now rewrite app_nil_r.
  - destruct (_ || _); exists []; now rewrite app_nil_r.
  - destruct (countdownInterval c); exists []; now rewrite app_nil_r.
  - destruct (wpmInterval c); [|exists []; now rewrite app_nil_r].
    destruct (applyUpdates_calls (calculateWPM g now) c) as [-> _].
    exists []; now rewrite app_nil_r.
  - destruct (finishTimeouts c) as [|closure rest];
      [exists []; now rewrite app_nil_r|].
    now exists [closure_results closure].
  - destruct outcome as [[|] [id|]|];
      try (exists []; now rewrite app_nil_r).
    simpl. destruct (String.eqb id EmptyString);
      exists []; now rewrite app_nil_r.
  - destruct paragraph; exists []; now rewrite app_nil_r.
  - destruct (_ || _); [exists []; now rewrite app_nil_r|].
    unfold handleTimerToggle.
    destruct (negb _); exists []; now rewrite app_nil_r.
Qed.

End Finishing.

(** C1, on the code. Typing the excerpt [cat] in full leaves two deferred
    finish callbacks pending: the completion effect runs for the render of
    the last key and again for the render of the sample the WPM effect took
    in the same flush, both before [isGameFinished] is set. Both callbacks
    then run, so [onGameFinish] receives two results and [saveGameResult]
    is called twice. *)
Theorem text_completion_finishes_twice :
  let pending := run (firstn 4 completionSession) mounted in
  let c := run completionSession mounted in
  isGameFinished (state pending) = false
  /\ List.length (finishTimeouts pending) = 2%nat
  /\ onGameFinishCalls c
     = [mkGameResult 0 100 0 [mkSample 0 80];
        mkGameResult 0 100 0 [mkSample 0 60]]
  /\ saveGameResultCalls c
     = [mkSaveData 0 100 0 (str "cat") (Some [mkSample 0 80]);
        mkSaveData 0 100 0 (str "cat") (Some [mkSample 0 60])].
Proof. vm_compute. repeat split; reflexivity. Qed.

(** The same on the timer path: the countdown reaches 0, the sampler fires
    before the deferred callback, the expiry effect runs again, and two
    results are reported and submitted. *)
Lemma timer_expiry_finishes_twice :
  let c := run expirySession mounted in
  timer (state c) = 0
  /\ List.length (onGameFinishCalls c) = 2%nat
  /\ List.length (saveGameResultCalls c) = 2%nat.
Proof. vm_compute. repeat split; reflexivity. Qed.

(** C5, on the code. After the game has finished the 100 ms sampler is still
    armed, because its effect looks at [isGameActive] only and finishing
    never clears that flag; its next tick appends a sample to [wpmHistory]
    and overwrites [currentWPM]. The results already reported keep the
    history they were built with. *)
Theorem sampler_runs_after_finish :
  let c := run completionSession mounted in
  let later := step 2700 WpmTick c in
  phase (state c) = Finished
  /\ wpmInterval c <> None
  /\ wpmHistory c = [mkSample 0 60]
  /\ wpmHistory later = [mkSample 0 60; mkSample 1 21]
  /\ currentWPM later = 21
  /\ phase (state later) = Finished
  /\ onGameFinishCalls later = onGameFinishCalls c.
Proof. vm_compute. repeat split; try reflexivity. discriminate. Qed.

(** * Further properties of the code *)

(** ** Text comparator and rendering *)

Section Typing.

Lemma filter_from_app {A} (f : A -> nat -> bool) (l : list A) (x : A) :
  forall index,
    filter_from f index (l ++ [x])
    = filter_from f index l
      ++ (if f x (index + List.length l)%nat then [x] else []).
Proof.
  induction l as [|y l IH]; intros index; simpl.
  - rewrite Nat.add_0_r. destruct (f x index); reflexivity.
  - rewrite IH. replace (S index + List.length l)%nat
      with (index + S (List.length l))%nat by lia.
    destruct (f y index); reflexivity.
Qed.

Lemma zipCount_prefix (excerpt typed : jsstring) :
  zipCount excerpt typed = List.length typed
  <-> exists rest, excerpt = typed ++ rest.
Proof.
  revert typed.
  induction excerpt as [|r rs IH]; intros [|t ts]; simpl.
  - split; [now exists [] | reflexivity].
  - split; [discriminate | intros [rest H]; discriminate].
  - split; [now exists (r :: rs) | reflexivity].
  - pose proof (zipCount_le rs ts) as Hle.
    destruct (N.eqb t r) eqn:E.
    + apply N.eqb_eq in E. subst t. split.
      * intros H. injection H as H. apply IH in H.
        destruct H as [rest ->]. now exists rest.
      * intros [rest H]. injection H as H.
        simpl. f_equal. apply IH. now exists rest.
    + apply N.eqb_neq in E. split.
      * intros H. simpl in H. lia.
      * intros [rest H]. injection H as H1 H2. congruence.
Qed.

Lemma map_from_zipClasses (typed : jsstring) :
  forall excerpt index,
    map_from
      (fun char i =>
         match charAt typed i with
         | Some userChar =>
             if N.eqb userChar char then TypedCorrect else TypedWrong
         | None => NotTyped
         end) index excerpt
    = zipClasses excerpt (skipn index typed).
Proof.
  induction excerpt as [|r rs IH]; intros index; simpl; [reflexivity|].
  rewrite IH. unfold charAt.
  destruct (nth_error typed index) as [t|] eqn:E.
  - assert (Hsk : skipn index typed = t :: skipn (S index) typed).
    { clear -E. revert typed E.
      induction index as [|n IHn]; intros [|x xs] E; simpl in *;
        try discriminate.
      - now inversion E.
      - now apply IHn. }
    now rewrite Hsk.
  - apply nth_error_None in E.
    rewrite !skipn_all2 by lia. reflexivity.
Qed.

Lemma zipCount_nil_r (excerpt : jsstring) : zipCount excerpt [] = 0%nat.
Proof. destruct excerpt; reflexivity. Qed.

Lemma zipClasses_counts (excerpt : jsstring) :
  forall typed,
    List.length (zipClasses excerpt typed) = List.length excerpt
    /\ countClass TypedCorrect (zipClasses excerpt typed)
       = zipCount excerpt typed
    /\ (countClass TypedWrong (zipClasses excerpt typed)
        + zipCount excerpt typed
        = Nat.min (List.length excerpt) (List.length typed))%nat
    /\ countClass NotTyped (zipClasses excerpt typed)
       = (List.length excerpt - List.length typed)%nat.
Proof.
  unfold countClass.
  induction excerpt as [|r rs IH]; intros typed.
  - destruct typed; repeat split; reflexivity.
  - destruct typed as [|t ts].
    + destruct (IH []) as (Hl & Hc & Hw & Hn).
      rewrite zipCount_nil_r in *. rewrite Nat.min_0_r in *.
      cbn [zipClasses filter isClass List.length] in *.
      repeat split; lia.
    + destruct (IH ts) as (Hl & Hc & Hw & Hn).
      cbn [zipClasses zipCount List.length].
      destruct (N.eqb t r); cbn [filter isClass List.length];
        repeat split; lia.
Qed.

End Typing.

(** X1. Typing one more character raises the number of correct characters
    by one when it equals the excerpt's character at that position and
    leaves it unchanged otherwise (also when the position is past the end of
    the excerpt). *)
Theorem getCorrectChars_next_key :
  forall (typed excerpt : jsstring) (key : code_unit),
    getCorrectChars (typed ++ [key]) excerpt
    = (getCorrectChars typed excerpt
       + (if strictEq key (charAt excerpt (List.length typed)) then 1 else 0))%nat.
Proof.
  intros typed excerpt key.
  unfold getCorrectChars, Array_filter.
  rewrite filter_from_app, length_app. simpl.
  destruct (strictEq key (charAt excerpt (List.length typed))); reflexivity.
Qed.

(** X2. Every typed character counts as correct exactly when the typed text
    is a prefix of the excerpt. *)
Theorem getCorrectChars_all_correct_iff_prefix :
  forall typed excerpt : jsstring,
    getCorrectChars typed excerpt = List.length typed
    <-> exists rest, excerpt = typed ++ rest.
Proof.
  intros typed excerpt. rewrite getCorrectChars_zipCount.
  apply zipCount_prefix.
Qed.

(** X3. The excerpt is rendered as one span per character; the spans shown
    as correct are as many as [getCorrectChars] counts, the spans shown as
    wrong are the remaining typed positions inside the excerpt, and the
    spans not yet typed are those past the typed text. *)
Theorem renderText_classes_match_counts :
  forall excerpt typed : jsstring,
    List.length (renderText excerpt typed) = List.length excerpt
    /\ countClass TypedCorrect (renderText excerpt typed)
       = getCorrectChars typed excerpt
    /\ (countClass TypedWrong (renderText excerpt typed)
        + getCorrectChars typed excerpt
        = Nat.min (List.length excerpt) (List.length typed))%nat
    /\ countClass NotTyped (renderText excerpt typed)
       = (List.length excerpt - List.length typed)%nat.
Proof.
  intros excerpt typed.
  unfold renderText, Array_map.
  rewrite map_from_zipClasses, getCorrectChars_zipCount. simpl.
  apply zipClasses_counts.
Qed.
(** ** Metrics *)

Section RoundingOrder.

Lemma Math_round_le (x y : Q) : (x <= y)%Q -> Math_round x <= Math_round y.
Proof.
  intros H. unfold Math_round. apply Qfloor_resp_le.
  apply Qplus_le_compat; [assumption | apply Qle_refl].
Qed.

Lemma Math_round_inject_Z (n : Z) : Math_round (inject_Z n) = n.
Proof.
  unfold Math_round, Qfloor, Qplus, inject_Z. simpl.
  symmetry. apply Z.div_unique with (r := 1); lia.
Qed.

Lemma Math_round_upper (x : Q) (n : Z) :
  (x <= inject_Z n)%Q -> Math_round x <= n.
Proof.
  intros H. rewrite <- (Math_round_inject_Z n). now apply Math_round_le.
Qed.


Lemma Qfloor_shift (x : Q) (k : Z) :
  Qfloor (x + inject_Z k) = Qfloor x + k.
Proof.
  pose proof (Qfloor_le x) as Fl. pose proof (Qlt_floor x) as Fh.
  apply Qfloor_unique.
  - rewrite inject_Z_plus. lra.
  - rewrite !inject_Z_plus in *. lra.
Qed.



Lemma Qfloor_near (x y : Q) :
  (y - 1 <= x)%Q -> (x <= y + 1)%Q ->
  Qfloor y - 1 <= Qfloor x <= Qfloor y + 1.
Proof.
  intros Hlo Hhi.
  pose proof (Qfloor_shift y (-1)) as Hdown.
  pose proof (Qfloor_shift y 1) as Hup.
  assert (Qfloor (y + inject_Z (-1)) <= Qfloor x)
    by (apply Qfloor_resp_le; change (inject_Z (-1)) with (-1)%Q; lra).
  assert (Qfloor x <= Qfloor (y + inject_Z 1))
    by (apply Qfloor_resp_le; change (inject_Z 1) with 1%Q; lra).
  lia.
Qed.

Lemma round_relative_explicit (x : Q) :
  (0 <= x)%Q ->
  (x * (1 - (1 # 9007199254740992)) <= Binary64.round x
   /\ Binary64.round x <= x * (1 + (1 # 9007199254740992)))%Q.
Proof. exact (round_relative x). Qed.


Lemma wpmExpression_bounds (correct : nat) (minutes : Q) :
  (0 < minutes)%Q -> 0 <= wpmExpression correct minutes <= 999.
Proof.
  intros Hm. unfold wpmExpression.
  assert (0 <= Math_round
                 (Binary64.div
                    (Binary64.div (inject_Z (Z.of_nat correct)) 5) minutes)).
  { apply Math_round_nonneg. apply div_nonneg; [|assumption].
    apply div_nonneg; [|reflexivity]. apply inject_Z_nonneg. lia. }
  lia.
Qed.






Lemma calculateResults_wpm_cases (s : GameState) (history : list Sample)
  (endTime : Z) :
  let r := calculateResults s history endTime in
  result_wpm r
  = (if 0 <? result_duration r
     then wpmExpression (getCorrectChars (userInput s) (text s))
            (Binary64.div (inject_Z (result_duration r)) 60)
     else 0).
Proof. reflexivity. Qed.

Lemma accuracyExpression_bounds (correct typed : nat) :
  (correct <= typed)%nat -> (0 < typed)%nat ->
  0 <= accuracyExpression correct typed <= 100.
Proof.
  intros Hle Hpos. unfold accuracyExpression.
  assert (Hq : (0 < inject_Z (Z.of_nat typed))%Q)
    by (apply inject_Z_pos; lia).
  assert (Hratio : (0 <= Binary64.div (inject_Z (Z.of_nat correct))
                          (inject_Z (Z.of_nat typed)))%Q)
    by (apply div_nonneg; [apply inject_Z_nonneg; lia | assumption]).
  assert (Hone : (Binary64.div (inject_Z (Z.of_nat correct))
                    (inject_Z (Z.of_nat typed)) <= 1)%Q).
  { rewrite <- (round_inject_Z 1) by lia.
    apply round_le. apply Qle_shift_div_r; [assumption|].
    change (inject_Z 1) with 1%Q. rewrite Qmult_1_l, <- Zle_Qle. lia. }
  split.
  - apply Math_round_nonneg. apply mul_nonneg; [assumption | discriminate].
  - apply Math_round_upper.
    rewrite <- (round_inject_Z 100) by lia.
    apply round_le. change (inject_Z 100) with 100%Q in *. lra.
Qed.

Lemma accuracyExpression_all_correct (typed : nat) :
  (0 < typed)%nat -> accuracyExpression typed typed = 100.
Proof.
  intros Hpos. unfold accuracyExpression.
  assert (Hq : (0 < inject_Z (Z.of_nat typed))%Q)
    by (apply inject_Z_pos; lia).
  assert (Hne : ~ (inject_Z (Z.of_nat typed) == 0)%Q)
    by (intros Hz; rewrite Hz in Hq; now apply (Qlt_irrefl 0)).
  assert (H1 : (Binary64.div (inject_Z (Z.of_nat typed))
                  (inject_Z (Z.of_nat typed)) == 1)%Q).
  { unfold Binary64.div.
    rewrite (round_compat _ (inject_Z 1)) by (field; exact Hne).
    apply round_inject_Z. lia. }
  rewrite <- (Math_round_inject_Z 100) at 2.
  apply Math_round_compat. unfold Binary64.mul.
  rewrite (round_compat _ (inject_Z 100)) by (rewrite H1; reflexivity).
  apply round_inject_Z. lia.
Qed.

Lemma calculateResults_bounded (s : GameState) (history : list Sample)
  (endTime : Z) :
  boundedResult (calculateResults s history endTime).
Proof.
  unfold boundedResult. split.
  - rewrite calculateResults_wpm_cases.
    destruct (0 <? _) eqn:D; [|lia].
    apply Z.ltb_lt in D. apply wpmExpression_bounds.
    apply div_pos; [now apply inject_Z_pos | reflexivity].
  - unfold calculateResults. cbn [result_accuracy].
    pose proof (zipCount_le (text s) (userInput s)) as Hle.
    rewrite <- getCorrectChars_zipCount in Hle.
    destruct (0 <? Z.of_nat (List.length (userInput s))) eqn:T; [|lia].
    apply Z.ltb_lt in T.
    apply accuracyExpression_bounds; lia.
Qed.

End RoundingOrder.

(** X4. The WPM expression never decreases when more characters are correct
    and never increases when more time has passed: with at least as many
    correct characters in at most as many minutes, the WPM is at least as
    high. *)
Theorem wpmExpression_monotone :
  forall (correct1 correct2 : nat) (minutes1 minutes2 : Q),
    (correct1 <= correct2)%nat ->
    (0 < minutes1)%Q ->
    (minutes1 <= minutes2)%Q ->
    wpmExpression correct1 minutes2 <= wpmExpression correct2 minutes1.
Proof.
  intros correct1 correct2 minutes1 minutes2 Hc Hm1 Hm.
  unfold wpmExpression.
  apply Z.min_le_compat_r. apply Math_round_le.
  apply div_le; try assumption.
  - apply div_nonneg; [|reflexivity]. apply inject_Z_nonneg. lia.
  - apply round_le. unfold Qdiv. apply Qmult_le_compat_r; [|discriminate].
    rewrite <- Zle_Qle. lia.
Qed.

Lemma wpmExpression_monotone_witness :
  wpmExpression 20 (1 # 2) <= wpmExpression 25 (1 # 4).
Proof.
  apply (wpmExpression_monotone 20 25 (1 # 4) (1 # 2)).
  - lia.
  - reflexivity.
  - discriminate.
Defined.

(** X5. The accuracy of a finished game lies between 0 and 100; it is 0 when
    nothing was typed and 100 when the typed text is a non-empty prefix of
    the excerpt. *)
Theorem calculateResults_accuracy_range :
  forall (s : GameState) (history : list Sample) (endTime : Z),
    0 <= result_accuracy (calculateResults s history endTime) <= 100
    /\ (userInput s = [] ->
        result_accuracy (calculateResults s history endTime) = 0)
    /\ (userInput s <> [] ->
        (exists rest, text s = userInput s ++ rest) ->
        result_accuracy (calculateResults s history endTime) = 100).
Proof.
  intros s history endTime.
  split; [apply calculateResults_bounded | split].
  - intros H. unfold calculateResults. cbn [result_accuracy].
    now rewrite H.
  - intros Hne Hprefix. unfold calculateResults. cbn [result_accuracy].
    apply zipCount_prefix in Hprefix.
    rewrite <- getCorrectChars_zipCount in Hprefix. rewrite Hprefix.
    assert (T : (0 < List.length (userInput s))%nat).
    { destruct (userInput s); [contradiction | simpl; lia]. }
    assert (E : (0 <? Z.of_nat (List.length (userInput s))) = true)
      by (apply Z.ltb_lt; lia).
    rewrite E. now apply accuracyExpression_all_correct.
Qed.

Lemma calculateResults_accuracy_range_witness :
  result_accuracy
    (calculateResults
       (mkGameState (str "cat") (str "ca") (Some 1000) 28 true false 0 0)
       [] 3000)
  = 100.
Proof.
  apply (proj2 (proj2 (calculateResults_accuracy_range
                         (mkGameState (str "cat") (str "ca") (Some 1000) 28
                            true false 0 0) [] 3000))).
  - discriminate.
  - exists (str "t"). reflexivity.
Defined.



(** ** Cursor and ghost *)

(** X7. The ghost never moves backward: with no less elapsed time and no
    lower opponent speed, the number of characters the ghost has typed is no
    lower. *)
Theorem charactersTyped_monotone :
  forall elapsed1 elapsed2 wpm1 wpm2 : Z,
    0 <= elapsed1 <= elapsed2 ->
    0 <= wpm1 <= wpm2 ->
    0 <= charactersTyped elapsed1 wpm1 <= charactersTyped elapsed2 wpm2.
Proof.
  intros elapsed1 elapsed2 wpm1 wpm2 [He1 He] [Hw1 Hw].
  split; [now apply charactersTyped_nonneg|].
  unfold charactersTyped, Math_floor. apply Qfloor_resp_le.
  apply mul_le.
  - apply div_nonneg; [now apply inject_Z_nonneg | reflexivity].
  - apply round_le. unfold Qdiv. apply Qmult_le_compat_r; [|discriminate].
    now rewrite <- Zle_Qle.
  - apply div_nonneg; [|reflexivity].
    apply mul_nonneg; [now apply inject_Z_nonneg | discriminate].
  - apply round_le. unfold Qdiv. apply Qmult_le_compat_r; [|discriminate].
    apply round_le. apply Qmult_le_compat_r; [|discriminate].
    now rewrite <- Zle_Qle.
Qed.

Lemma charactersTyped_monotone_witness :
  0 <= charactersTyped 3000 60 <= charactersTyped 4000 72.
Proof.
  apply (charactersTyped_monotone 3000 4000 60 72); lia.
Defined.

(** X8. The ghost is drawn exactly where the player's own cursor is drawn
    after typing as many characters as the ghost has: both use the start
    offset at 0, the left edge of the span with that index below the number
    of spans, and the right edge of the last span from there on. *)
Theorem ghost_stands_where_cursor_would :
  forall (s : GameState) (opponent : Opponent) (spans start now : Z)
         (typed : jsstring),
    isGameActive s = true ->
    startTime s = Some start ->
    start <> 0 ->
    spans <> 0 ->
    Z.of_nat (List.length typed)
    = charactersTyped (now - start) (opponent_wpm opponent) ->
    match updateGhostCursor s opponent spans now with
    | Some placement => ghostAsCursor placement
    | None => None
    end
    = cursorPlacement spans typed.
Proof.
  intros s opponent spans start now typed Ha Hs Hnz Hspans Hlen.
  unfold updateGhostCursor, cursorPlacement.
  rewrite Ha, Hs. cbn [negb orb truthy].
  apply Z.eqb_neq in Hnz, Hspans. rewrite Hnz, Hspans. cbn [negb].
  rewrite <- Hlen.
  set (k := Z.of_nat (List.length typed)).
  destruct (k =? 0); [reflexivity|].
  destruct (k <? spans); [|reflexivity].
  assert (E : (k <? 0) = false) by (apply Z.ltb_ge; unfold k; lia).
  now rewrite E.
Qed.

Lemma ghost_stands_where_cursor_would_witness :
  match updateGhostCursor
          (mkGameState (str "The quick brown fox") [] (Some 1000) 29 true
             false 0 0)
          (mkOpponent 60 None 98 30) 19 2000 with
  | Some placement => ghostAsCursor placement
  | None => None
  end
  = cursorPlacement 19 (str "The q").
Proof.
  apply (ghost_stands_where_cursor_would
           (mkGameState (str "The quick brown fox") [] (Some 1000) 29 true
              false 0 0)
           (mkOpponent 60 None 98 30) 19 1000 2000 (str "The q")
           eq_refl eq_refl ltac:(lia) ltac:(lia)).
  reflexivity.
Defined.

(** ** Profile statistics *)

Section Statistics.

Lemma fold_sum_shift (f : GameRow -> Z) (rows : list GameRow) :
  forall acc,
    fold_left (fun sum result => sum + f result) rows acc
    = acc + fold_left (fun sum result => sum + f result) rows 0.
Proof.
  induction rows as [|r rows IH]; intros acc; simpl; [lia|].
  rewrite IH, (IH (f r)). lia.
Qed.

Lemma sumOf_cons (f : GameRow -> Z) r rows :
  sumOf f (r :: rows) = f r + sumOf f rows.
Proof. unfold sumOf. simpl. apply fold_sum_shift. Qed.

Lemma sumOf_between (f : GameRow -> Z) (lo hi : Z) (rows : list GameRow) :
  (forall r, In r rows -> lo <= f r <= hi) ->
  Z.of_nat (List.length rows) * lo <= sumOf f rows
  <= Z.of_nat (List.length rows) * hi.
Proof.
  induction rows as [|r rows IH]; intros H.
  - unfold sumOf. simpl. lia.
  - rewrite sumOf_cons.
    assert (Hr : lo <= f r <= hi) by (apply H; now left).
    assert (Hrest : forall x, In x rows -> lo <= f x <= hi)
      by (intros x Hx; apply H; now right).
    specialize (IH Hrest).
    change (List.length (r :: rows)) with (S (List.length rows)).
    lia.
Qed.

Lemma roundedMean_between (total games lo hi : Z) :
  0 < games ->
  games * lo <= total <= games * hi ->
  lo <= Math_round (inject_Z total / inject_Z games)%Q <= hi.
Proof.
  intros Hg [Hlo Hhi].
  assert (Hq : (0 < inject_Z games)%Q) by now apply inject_Z_pos.
  split.
  - rewrite <- (Math_round_inject_Z lo). apply Math_round_le.
    apply Qle_shift_div_l; [assumption|].
    rewrite <- inject_Z_mult, <- Zle_Qle. lia.
  - apply Math_round_upper.
    apply Qle_shift_div_r; [assumption|].
    rewrite <- inject_Z_mult, <- Zle_Qle. lia.
Qed.

Lemma Math_max_spec (rest : list Z) :
  forall first,
    In (Math_max first rest) (first :: rest)
    /\ forall x, In x (first :: rest) -> x <= Math_max first rest.
Proof.
  unfold Math_max.
  induction rest as [|y rest IH]; intros first; simpl.
  - split; [now left | intros x [<-|[]]; lia].
  - destruct (IH (Z.max first y)) as [Hin Hmax]. split.
    + destruct Hin as [Hin|Hin]; [|now right; right].
      rewrite <- Hin.
      destruct (Z.max_spec first y) as [[_ ->]|[_ ->]]; auto.
    + intros x Hx.
      assert (Hfy : Z.max first y
                    <= fold_left Z.max rest (Z.max first y))
        by (apply Hmax; now left).
      destruct Hx as [<-|[<-|Hx]]; try lia.
      apply Hmax. now right.
Qed.

End Statistics.

(** X9. With at least one game, the best WPM is the WPM of one of the games
    and no game has a higher one; the average WPM, rounded, is never above
    the best WPM; the number of games is the number of rows; with no game
    all four statistics are 0. *)
Theorem getUserStats_best_and_average :
  forall allResults : list GameRow,
    totalGames (getUserStats allResults) = List.length allResults
    /\ (allResults = [] -> getUserStats allResults = mkUserStats 0 0 0 0)
    /\ (allResults <> [] ->
        In (bestWpm (getUserStats allResults)) (map row_wpm allResults)
        /\ (forall r, In r allResults ->
                      row_wpm r <= bestWpm (getUserStats allResults))
        /\ averageWpm (getUserStats allResults)
           <= bestWpm (getUserStats allResults)).
Proof.
  intros allResults.
  destruct allResults as [|first rest]; [repeat split; congruence|].
  split; [reflexivity | split; [discriminate|]].
  intros _. cbn [getUserStats bestWpm averageWpm].
  destruct (Math_max_spec (map row_wpm rest) (row_wpm first)) as [Hin Hmax].
  assert (Hall : forall r, In r (first :: rest) ->
                   row_wpm r <= Math_max (row_wpm first) (map row_wpm rest)).
  { intros r Hr. apply Hmax.
    change (row_wpm first :: map row_wpm rest)
      with (map row_wpm (first :: rest)).
    now apply in_map. }
  repeat split; try assumption.
  set (best := Math_max (row_wpm first) (map row_wpm rest)) in *.
  assert (Hsum : sumOf row_wpm (first :: rest)
                 <= Z.of_nat (List.length (first :: rest)) * best).
  { clear Hin Hmax. revert Hall.
    generalize (first :: rest) as rows.
    induction rows as [|r rows IH]; intros Hall;
      [unfold sumOf; simpl; lia|].
    rewrite sumOf_cons.
    assert (row_wpm r <= best) by (apply Hall; now left).
    assert (sumOf row_wpm rows <= Z.of_nat (List.length rows) * best)
      by (apply IH; intros x Hx; apply Hall; now right).
    change (List.length (r :: rows)) with (S (List.length rows)). lia. }
  apply Math_round_upper.
  apply Qle_shift_div_r.
  - apply inject_Z_pos. simpl. lia.
  - rewrite Qmult_comm, <- inject_Z_mult, <- Zle_Qle. exact Hsum.
Qed.

Lemma getUserStats_best_and_average_witness :
  averageWpm (getUserStats [mkGameRow 60 98; mkGameRow 75 100; mkGameRow 41 90])
  <= bestWpm (getUserStats [mkGameRow 60 98; mkGameRow 75 100; mkGameRow 41 90]).
Proof.
  apply (proj2 (proj2 (getUserStats_best_and_average
                         [mkGameRow 60 98; mkGameRow 75 100; mkGameRow 41 90]))).
  discriminate.
Defined.

(** X10. Rounded averages stay inside the range of the values they average:
    when every game has a WPM within some bounds, so has the average WPM,
    and when every game has an accuracy within some bounds (0 and 100, as
    stored), so has the average accuracy. *)
Theorem getUserStats_averages_within_range :
  forall (allResults : list GameRow) (lo hi : Z),
    allResults <> [] ->
    ((forall r, In r allResults -> lo <= row_wpm r <= hi) ->
     lo <= averageWpm (getUserStats allResults) <= hi)
    /\ ((forall r, In r allResults -> lo <= row_accuracy r <= hi) ->
        lo <= averageAccuracy (getUserStats allResults) <= hi).
Proof.
  intros allResults lo hi Hne.
  destruct allResults as [|first rest]; [contradiction|].
  cbn [getUserStats averageWpm averageAccuracy].
  assert (Hg : 0 < Z.of_nat (List.length (first :: rest)))
    by (simpl; lia).
  split; intros H; apply roundedMean_between; try assumption;
    now apply sumOf_between.
Qed.

Lemma getUserStats_averages_within_range_witness :
  0 <= averageAccuracy
         (getUserStats [mkGameRow 60 98; mkGameRow 75 100; mkGameRow 41 90])
  <= 100.
Proof.
  apply (proj2 (getUserStats_averages_within_range
                  [mkGameRow 60 98; mkGameRow 75 100; mkGameRow 41 90] 0 100
                  ltac:(discriminate))).
  intros r [<-|[<-|[<-|[]]]]; simpl; lia.
Defined.

(** ** Saving and sharing *)

Section Sharing.

Lemma saveGameResult_cases (server : Server) (data : SaveData) :
  saveGameResult server data
  = if inRange data then
      match getSession server with
      | None => (Rejected "Failed to save game result", [])
      | Some None => (Resolved false None, [])
      | Some (Some id) =>
          if String.eqb id EmptyString then (Resolved false None, [])
          else
            match insertGameResult server id data with
            | Some rowId => (Resolved true (Some rowId), [(id, data)])
            | None => (Rejected "Failed to save game result", [(id, data)])
            end
      end
    else (Rejected "Failed to save game result", []).
Proof.
  destruct (inRange data) eqn:R.
  - unfold saveGameResult.
    rewrite (saveGameResult_try_in_range server data R).
    destruct (getSession server) as [[id|]|]; try reflexivity.
    destruct (String.eqb id EmptyString); [reflexivity|].
    destruct (insertGameResult server id data); reflexivity.
  - now apply saveGameResult_out_of_range.
Qed.

Lemma createShareableLink_links store shortId gameResultId :
  snd (createShareableLink store shortId gameResultId)
  = [(shortId, gameResultId)].
Proof.
  unfold createShareableLink.
  destruct (insertShareableResult store shortId gameResultId); reflexivity.
Qed.

End Sharing.

(** X11. What [saveGameResult] reports is what it did: it resolves with
    [success: true] only together with the id of a row it inserted, after
    exactly one insert of in-range data for a non-empty user id; it resolves
    with [success: false] only without an id and without any insert; and
    every rejection carries the one message [Failed to save game result],
    after at most one insert. *)
Theorem saveGameResult_outcome_matches_inserts :
  forall (server : Server) (data : SaveData),
    match saveGameResult server data with
    | (Resolved true (Some rowId), inserts) =>
        inRange data = true
        /\ exists id,
            getSession server = Some (Some id)
            /\ id <> EmptyString
            /\ insertGameResult server id data = Some rowId
            /\ inserts = [(id, data)]
    | (Resolved true None, _) => False
    | (Resolved false gameResultId, inserts) =>
        gameResultId = None /\ inserts = [] /\ inRange data = true
    | (Rejected message, inserts) =>
        message = "Failed to save game result"%string
        /\ (List.length inserts <= 1)%nat
    end.
Proof.
  intros server data. rewrite saveGameResult_cases.
  destruct (inRange data); [|split; [reflexivity | simpl; lia]].
  destruct (getSession server) as [[id|]|];
    [|now repeat split | split; [reflexivity | simpl; lia]].
  destruct (String.eqb id EmptyString) eqn:E; [now repeat split|].
  destruct (insertGameResult server id data) as [rowId|] eqn:I.
  - split; [reflexivity|]. exists id. repeat split; try assumption.
    intros ->. discriminate.
  - split; [reflexivity | simpl; lia].
Qed.

(** X12. The legacy [shareGameResult] either succeeds or is rejected with
    the one message [Failed to share game result]. Out-of-range values and
    any other rejected save stop it before the link insert. Otherwise the
    link insert is issued with exactly the id the save resolved with, and
    the share succeeds exactly when that insert goes through: for a
    signed-in user the id of the row just inserted, for a visitor who is not
    signed in no id at all, nothing having been saved. *)
Theorem shareGameResult_links_whatever_was_saved :
  forall (server : Server) (store : LinkStore) (shortId : string)
         (wpmValue accuracy duration : Z) (history : option (list Sample)),
    let data := mkSaveData wpmValue accuracy duration [] history in
    let run :=
      shareGameResult server store shortId wpmValue accuracy duration
        history in
    (fst (fst run) = Shared
     \/ fst (fst run) = ShareRejected "Failed to share game result")
    /\ (inRange data = false ->
        run = (ShareRejected "Failed to share game result", [], []))
    /\ (forall message inserts,
           saveGameResult server data = (Rejected message, inserts) ->
           run = (ShareRejected "Failed to share game result", inserts, []))
    /\ (forall success gameResultId inserts,
           saveGameResult server data
           = (Resolved success gameResultId, inserts) ->
           snd (fst run) = inserts
           /\ snd run = [(shortId, gameResultId)]
           /\ (fst (fst run) = Shared
               <-> insertShareableResult store shortId gameResultId = true))
    /\ (inRange data = true ->
        forall id rowId,
          getSession server = Some (Some id) ->
          id <> EmptyString ->
          insertGameResult server id data = Some rowId ->
          snd (fst run) = [(id, data)]
          /\ snd run = [(shortId, Some rowId)]
          /\ (fst (fst run) = Shared
              <-> insertShareableResult store shortId (Some rowId) = true))
    /\ (inRange data = true ->
        getSession server = Some None ->
        snd (fst run) = [] /\ snd run = [(shortId, None)]
        /\ (fst (fst run) = Shared
            <-> insertShareableResult store shortId None = true)).
Proof.
  intros server store shortId wpmValue accuracy duration history data run.
  assert (Hresolved : forall success gameResultId inserts,
             saveGameResult server data
             = (Resolved success gameResultId, inserts) ->
             snd (fst run) = inserts
             /\ snd run = [(shortId, gameResultId)]
             /\ (fst (fst run) = Shared
                 <-> insertShareableResult store shortId gameResultId
                     = true)).
  { intros success gameResultId inserts Hsave.
    unfold run, shareGameResult. fold data. rewrite Hsave.
    unfold createShareableLink.
    destruct (insertShareableResult store shortId gameResultId); simpl;
      repeat split; auto; discriminate. }
  assert (Hrejected : forall message inserts,
             saveGameResult server data = (Rejected message, inserts) ->
             run = (ShareRejected "Failed to share game result", inserts,
                    [])).
  { intros message inserts Hsave.
    unfold run, shareGameResult. fold data. now rewrite Hsave. }
  split.
  { destruct (saveGameResult server data) as [[success gid|message] inserts]
      eqn:Hsave.
    - unfold run, shareGameResult. fold data. rewrite Hsave.
      unfold createShareableLink.
      destruct (insertShareableResult store shortId gid); simpl; auto.
    - rewrite (Hrejected message inserts eq_refl). now right. }
  split.
  { intros Hrange. apply (Hrejected "Failed to save game result"%string).
    now apply saveGameResult_out_of_range. }
  split; [exact Hrejected|].
  split; [exact Hresolved|].
  split.
  - intros Hrange id rowId Hsession Hid Hinsert.
    apply (Hresolved true).
    rewrite saveGameResult_cases, Hrange, Hsession.
    apply String.eqb_neq in Hid. now rewrite Hid, Hinsert.
  - intros Hrange Hsession.
    apply (Hresolved false).
    now rewrite saveGameResult_cases, Hrange, Hsession.
Qed.

Lemma shareGameResult_links_whatever_was_saved_witness :
  let server :=
    mkServer (Some (Some "user-1"%string)) (fun _ _ => Some "row-1"%string) in
  let store := mkLinkStore (fun _ _ => true) in
  let run := shareGameResult server store "abcd1234" 60 100 15 None in
  snd (fst run)
  = [("user-1"%string, mkSaveData 60 100 15 [] None)]
  /\ snd run = [("abcd1234"%string, Some "row-1"%string)]
  /\ (fst (fst run) = Shared
      <-> insertShareableResult store "abcd1234" (Some "row-1"%string)
          = true).
Proof.
  intros server store run.
  apply (proj1 (proj2 (proj2 (proj2 (proj2
           (shareGameResult_links_whatever_was_saved server store
              "abcd1234" 60 100 15 None)))))).
  - reflexivity.
  - reflexivity.
  - discriminate.
  - reflexivity.
Defined.

(** X13. Sharing never touches the game itself and never saves a game twice
    it knows to be saved: with a saved id the only database call is the link
    insert for that id; without one, at most one game insert is issued, with
    the duration taken as preference minus remaining timer. The id that
    insert returned is remembered exactly when it is non-empty and the link
    insert succeeded too: then it is stored, and in every other case the
    component is left as it was. *)
Theorem handleShare_saves_at_most_once :
  forall (server : Server) (store : LinkStore) (shortId : string)
         (c : Component),
    let run := handleShare server store shortId c in
    state (share_component run) = state c
    /\ wpmHistory (share_component run) = wpmHistory c
    /\ (nonEmptyId (savedGameResultId c) = true ->
        share_component run = c
        /\ share_inserts run = []
        /\ share_links run = [(shortId, savedGameResultId c)])
    /\ (nonEmptyId (savedGameResultId c) = false ->
        (List.length (share_inserts run) <= 1)%nat
        /\ (forall insert, In insert (share_inserts run) ->
                           snd insert = shareFallbackData c)
        /\ (forall id rowId,
               inRange (shareFallbackData c) = true ->
               getSession server = Some (Some id) ->
               id <> EmptyString ->
               insertGameResult server id (shareFallbackData c)
               = Some rowId ->
               rowId <> EmptyString ->
               insertShareableResult store shortId (Some rowId) = true ->
               share_component run = setSavedGameResultId (Some rowId) c
               /\ share_inserts run = [(id, shareFallbackData c)]
               /\ share_links run = [(shortId, Some rowId)]
               /\ share_errorToast run = false)
        /\ (share_component run <> c ->
            share_errorToast run = false
            /\ exists id rowId,
                inRange (shareFallbackData c) = true
                /\ getSession server = Some (Some id)
                /\ id <> EmptyString
                /\ insertGameResult server id (shareFallbackData c)
                   = Some rowId
                /\ rowId <> EmptyString
                /\ insertShareableResult store shortId (Some rowId) = true
                /\ share_component run
                   = setSavedGameResultId (Some rowId) c
                /\ share_inserts run = [(id, shareFallbackData c)]
                /\ share_links run = [(shortId, Some rowId)])).
Proof.
  intros server store shortId c run. unfold run, handleShare.
  destruct (nonEmptyId (savedGameResultId c)) eqn:S.
  - unfold createShareableLink.
    destruct (insertShareableResult store shortId (savedGameResultId c));
      simpl; repeat split; auto; discriminate.
  - split; [|split; [|split; [discriminate|intros _]]].
    + destruct (saveGameResult server (shareFallbackData c))
        as [[success gid|message] inserts]; [|reflexivity].
      destruct (success && nonEmptyId gid); [|reflexivity].
      destruct (createShareableLink store shortId gid) as [[|?] ?];
        reflexivity.
    + destruct (saveGameResult server (shareFallbackData c))
        as [[success gid|message] inserts]; [|reflexivity].
      destruct (success && nonEmptyId gid); [|reflexivity].
      destruct (createShareableLink store shortId gid) as [[|?] ?];
        reflexivity.
    + rewrite saveGameResult_cases.
      split; [|split; [|split]].
      * destruct (inRange (shareFallbackData c)); [|simpl; lia].
        destruct (getSession server) as [[id|]|]; try (simpl; lia).
        destruct (String.eqb id EmptyString); [simpl; lia|].
        destruct (insertGameResult server id (shareFallbackData c))
          as [rowId|]; [|simpl; lia].
        cbn [andb].
        destruct (nonEmptyId (Some rowId)); [|simpl; lia].
        destruct (createShareableLink store shortId (Some rowId))
          as [[|?] ?]; simpl; lia.
      * intros insert.
        destruct (inRange (shareFallbackData c)); [|simpl; contradiction].
        destruct (getSession server) as [[id|]|];
          try (simpl; contradiction).
        destruct (String.eqb id EmptyString); [simpl; contradiction|].
        destruct (insertGameResult server id (shareFallbackData c))
          as [rowId|]; [|simpl; intros [<-|[]]; reflexivity].
        cbn [andb].
        destruct (nonEmptyId (Some rowId));
          [|simpl; intros [<-|[]]; reflexivity].
        destruct (createShareableLink store shortId (Some rowId))
          as [[|?] ?]; simpl; intros [<-|[]]; reflexivity.
      * intros id rowId Hrange Hsession Hid Hinsert Hrow Hlink.
        rewrite Hrange, Hsession.
        apply String.eqb_neq in Hid, Hrow.
        rewrite Hid, Hinsert. cbn [andb nonEmptyId]. rewrite Hrow.
        cbn [negb]. unfold createShareableLink. rewrite Hlink.
        repeat split; reflexivity.
      * destruct (inRange (shareFallbackData c)) eqn:Hrange;
          [|simpl; intros H; now contradiction H].
        destruct (getSession server) as [[id|]|] eqn:Hsession;
          try (simpl; intros H; now contradiction H).
        destruct (String.eqb id EmptyString) eqn:Hid;
          [simpl; intros H; now contradiction H|].
        destruct (insertGameResult server id (shareFallbackData c))
          as [rowId|] eqn:Hinsert;
          [|simpl; intros H; now contradiction H].
        cbn [andb nonEmptyId].
        destruct (String.eqb rowId EmptyString) eqn:Hrow;
          [simpl; intros H; now contradiction H|].
        cbn [negb]. unfold createShareableLink.
        destruct (insertShareableResult store shortId (Some rowId))
          eqn:Hlink; [|simpl; intros H; now contradiction H].
        simpl. intros _. split; [reflexivity|].
        apply String.eqb_neq in Hid, Hrow.
        exists id, rowId. repeat split; auto.
Qed.

Lemma handleShare_saves_at_most_once_witness :
  let server :=
    mkServer (Some (Some "user-1"%string)) (fun _ _ => Some "row-8"%string) in
  let store := mkLinkStore (fun _ _ => true) in
  let c := run completionSession mounted in
  let shared := handleShare server store "abcd1234" c in
  share_component shared = setSavedGameResultId (Some "row-8"%string) c
  /\ share_inserts shared = [("user-1"%string, shareFallbackData c)]
  /\ share_links shared = [("abcd1234"%string, Some "row-8"%string)]
  /\ share_errorToast shared = false.
Proof.
  intros server store c shared.
  apply (proj1 (proj2 (proj2
           (proj2 (proj2 (proj2
              (handleShare_saves_at_most_once server store "abcd1234" c)))
              eq_refl)))
           "user-1"%string "row-8"%string).
  - reflexivity.
  - reflexivity.
  - discriminate.
  - reflexivity.
  - discriminate.
  - reflexivity.
Defined.

(** ** Paragraph source *)

Section Trimming.

Lemma trimStart_head (s : jsstring) :
  forall u, hd_error (trimStart s) = Some u -> isWhiteSpace u = false.
Proof.
  induction s as [|x s IH]; intros u; simpl; [discriminate|].
  destruct (isWhiteSpace x) eqn:E; [apply IH|].
  simpl. intros H. injection H as <-. exact E.
Qed.

Lemma trimStart_suffix (s : jsstring) :
  exists removed, s = removed ++ trimStart s.
Proof.
  induction s as [|x s [removed IH]]; simpl; [now exists []|].
  destruct (isWhiteSpace x).
  - exists (x :: removed). simpl. now rewrite <- IH.
  - now exists [].
Qed.

Lemma trimEnd_prefix (s : jsstring) :
  exists removed, s = trimEnd s ++ removed.
Proof.
  unfold trimEnd.
  destruct (trimStart_suffix (rev s)) as [removed H].
  exists (rev removed).
  rewrite <- rev_app_distr, <- H. now rewrite rev_involutive.
Qed.

Lemma trim_ends (s : jsstring) :
  (forall u, hd_error (trim s) = Some u -> isWhiteSpace u = false)
  /\ (forall u, hd_error (rev (trim s)) = Some u -> isWhiteSpace u = false).
Proof.
  unfold trim. split; intros u H.
  - destruct (trimEnd_prefix (trimStart s)) as [removed Hp].
    apply (trimStart_head s). rewrite Hp.
    destruct (trimEnd (trimStart s)); [discriminate | exact H].
  - unfold trimEnd in H. rewrite rev_involutive in H.
    now apply (trimStart_head (rev (trimStart s))).
Qed.

End Trimming.

(** X14. [generateParagraph] always returns a paragraph. It is the curated
    excerpt whenever nobody is signed in, the session lookup or the
    completion request fails, or the completion has no content; a generated
    text is returned only for a signed-in user, and then it is the trimmed
    completion, between 50 and 350 code units long, with no white space at
    either end. *)
Theorem generateParagraph_falls_back_to_excerpt :
  forall services : ParagraphServices,
    let source := fst (generateParagraph services) in
    let paragraph := snd (generateParagraph services) in
    (source = Curated -> paragraph = randomExcerpt services)
    /\ (sessionUser services <> Some true -> source = Curated)
    /\ ((forall content,
            completionContent services <> Some (Some content)) ->
        source = Curated)
    /\ (source = Generated ->
        sessionUser services = Some true
        /\ (exists content,
               completionContent services = Some (Some content)
               /\ paragraph = trim content)
        /\ (50 <= List.length paragraph <= 350)%nat
        /\ (forall u, hd_error paragraph = Some u -> isWhiteSpace u = false)
        /\ (forall u, hd_error (rev paragraph) = Some u ->
                      isWhiteSpace u = false)).
Proof.
  intros services source paragraph.
  unfold source, paragraph, generateParagraph.
  destruct (sessionUser services) as [[|]|];
    try (simpl; repeat split; congruence).
  destruct (completionContent services) as [[content|]|];
    try (simpl; repeat split; congruence).
  destruct (Nat.eqb _ 0 || (_ <? 50)%nat) eqn:Short;
    [simpl; repeat split; congruence|].
  destruct (350 <? _)%nat eqn:Long;
    [simpl; repeat split; congruence|].
  simpl. apply orb_false_iff in Short. destruct Short as [_ Short].
  apply Nat.ltb_ge in Short, Long.
  split; [congruence | split; [congruence | split]].
  - intros H. exfalso. now apply (H content).
  - intros _. repeat split; try assumption.
    + now exists content.
    + apply trim_ends.
    + apply trim_ends.
Qed.

Lemma generateParagraph_falls_back_to_excerpt_witness :
  snd (generateParagraph
         (mkParagraphServices (Some false) (Some (Some (str "short")))
            (str "Practice makes progress.")))
  = str "Practice makes progress.".
Proof.
  apply (proj1 (generateParagraph_falls_back_to_excerpt
                  (mkParagraphServices (Some false)
                     (Some (Some (str "short")))
                     (str "Practice makes progress.")))).
  reflexivity.
Defined.

(** ** Reachable states of the session *)

Section CommitCells.

Lemma applyUpdates_history (us : list CellUpdate) :
  forall c, wpmHistory (applyUpdates us c) = historyAfter us (wpmHistory c).
Proof.
  unfold applyUpdates, historyAfter.
  induction us as [|u us IH]; intros c; simpl; [reflexivity|].
  rewrite IH. destruct u; reflexivity.
Qed.

Lemma applyUpdates_display (us : list CellUpdate) :
  forall c, currentWPM (applyUpdates us c) = displayAfter us (currentWPM c).
Proof.
  unfold applyUpdates, displayAfter.
  induction us as [|u us IH]; intros c; simpl; [reflexivity|].
  rewrite IH. destruct u; reflexivity.
Qed.

Lemma applyUpdates_other (us : list CellUpdate) :
  forall c,
    savedGameResultId (applyUpdates us c) = savedGameResultId c
    /\ timerPreference (applyUpdates us c) = timerPreference c
    /\ isLoading (applyUpdates us c) = isLoading c
    /\ finishTimeouts (applyUpdates us c) = finishTimeouts c.
Proof.
  unfold applyUpdates.
  induction us as [|u us IH]; intros c; simpl; [now repeat split|].
  destruct (IH (applyUpdate u c)) as (-> & -> & -> & ->).
  destruct u; now repeat split.
Qed.

Lemma flushEffects_requests mount old c now :
  snd (flushEffects mount old c now) = snd (wpmEffect mount old c now).
Proof.
  unfold flushEffects, wpmEffect, countdownEffect.
  destruct (mount || countdownDepsChanged (state old) (state c));
    cbn [state withCountdownInterval];
    repeat match goal with
           | |- context [if ?b then _ else _] => destruct b
           end; reflexivity.
Qed.

Lemma flushEffects_cells mount old c now :
  currentWPM (fst (flushEffects mount old c now)) = currentWPM c
  /\ wpmHistory (fst (flushEffects mount old c now)) = wpmHistory c
  /\ savedGameResultId (fst (flushEffects mount old c now))
     = savedGameResultId c
  /\ timerPreference (fst (flushEffects mount old c now)) = timerPreference c
  /\ isLoading (fst (flushEffects mount old c now)) = isLoading c.
Proof.
  unfold flushEffects, completionFinishEffect, timerFinishEffect, wpmEffect,
    countdownEffect, scheduleFinish.
  repeat match goal with
         | |- context [if ?b then _ else _] => destruct b
         end; repeat split; reflexivity.
Qed.

Lemma flushEffects_wpmInterval mount old c now :
  wpmInterval (fst (flushEffects mount old c now))
  = if mount || wpmDepsChanged (state old) (state c)
    then if isGameActive (state c) && truthy (startTime (state c))
         then Some (state c) else None
    else wpmInterval c.
Proof.
  unfold flushEffects, completionFinishEffect, timerFinishEffect, wpmEffect,
    countdownEffect, scheduleFinish.
  destruct (mount || countdownDepsChanged (state old) (state c));
    cbn [state withCountdownInterval];
    destruct (mount || wpmDepsChanged (state old) (state c)).
  all: destruct (isGameActive (state c)); cbn [andb negb];
    try destruct (truthy (startTime (state c)));
    repeat match goal with
           | |- context [if ?b then _ else _] => destruct b
           end; reflexivity.
Qed.

Lemma flushEffects_finishTimeouts mount old c now :
  exists added,
    finishTimeouts (fst (flushEffects mount old c now))
    = finishTimeouts c ++ added
    /\ Forall
         (fun closure =>
            closure_results closure
            = calculateResults (state c) (wpmHistory c) now
            /\ closure_text closure = text (state c))
         added.
Proof.
  set (new := mkFinishClosure (calculateResults (state c) (wpmHistory c) now)
                (text (state c))).
  assert (Hnew : closure_results new
                 = calculateResults (state c) (wpmHistory c) now
                 /\ closure_text new = text (state c)) by now split.
  unfold flushEffects, completionFinishEffect, timerFinishEffect, wpmEffect,
    countdownEffect, scheduleFinish.
  repeat match goal with
         | |- context [if ?b then _ else _] => destruct b
         end;
    cbn [fst finishTimeouts withFinishTimeouts withWpmInterval
           withCountdownInterval state wpmHistory];
    fold new;
    first
      [ exists []; split; [now rewrite app_nil_r | constructor]
      | exists [new]; split; [reflexivity | now repeat constructor]
      | exists [new; new]; split;
        [now rewrite <- app_assoc | now repeat constructor] ].
Qed.

Lemma commit_cells mount old c now :
  let requested := snd (wpmEffect mount old c now) in
  currentWPM (commit mount old c now) = displayAfter requested (currentWPM c)
  /\ wpmHistory (commit mount old c now)
     = historyAfter requested (wpmHistory c)
  /\ savedGameResultId (commit mount old c now) = savedGameResultId c
  /\ timerPreference (commit mount old c now) = timerPreference c
  /\ isLoading (commit mount old c now) = isLoading c.
Proof.
  intros requested. unfold commit.
  pose proof (flushEffects_requests mount old c now) as Hreq.
  pose proof (flushEffects_cells mount old c now) as Hcells.
  fold requested in Hreq.
  destruct (flushEffects mount old c now) as [c1 req].
  cbn [fst snd] in Hreq, Hcells. subst req.
  destruct Hcells as (Hw & Hh & Hs & Hp & Hl).
  destruct requested as [|u us] eqn:R.
  - simpl. now repeat split.
  - destruct (flushEffects_cells false c1 (applyUpdates (u :: us) c1) now)
      as (-> & -> & -> & -> & ->).
    destruct (applyUpdates_other (u :: us) c1) as (-> & -> & -> & _).
    rewrite applyUpdates_display, applyUpdates_history, Hw, Hh.
    now repeat split.
Qed.

Lemma commit_wpmInterval mount old c now :
  wpmInterval (commit mount old c now)
  = if mount || wpmDepsChanged (state old) (state c)
    then if isGameActive (state c) && truthy (startTime (state c))
         then Some (state c) else None
    else wpmInterval c.
Proof.
  unfold commit.
  pose proof (flushEffects_wpmInterval mount old c now) as H1.
  destruct (flushEffects mount old c now) as [c1 requested].
  cbn [fst] in H1. destruct requested as [|u us]; [assumption|].
  rewrite flushEffects_wpmInterval, applyUpdates_state, wpmDepsChanged_same.
  cbn [orb]. rewrite applyUpdates_wpmInterval. exact H1.
Qed.

Lemma commit_finishTimeouts mount old c now :
  exists added,
    finishTimeouts (commit mount old c now) = finishTimeouts c ++ added
    /\ Forall
         (fun closure =>
            exists history,
              closure_results closure
              = calculateResults (state c) history now
              /\ closure_text closure = text (state c))
         added.
Proof.
  unfold commit.
  destruct (flushEffects_finishTimeouts mount old c now)
    as (added1 & Hf1 & Ha1).
  pose proof (flushEffects_state mount old c now) as Hs1.
  destruct (flushEffects mount old c now) as [c1 requested].
  cbn [fst] in Hf1, Hs1.
  assert (Ha1' : Forall
                   (fun closure =>
                      exists history,
                        closure_results closure
                        = calculateResults (state c) history now
                        /\ closure_text closure = text (state c)) added1).
  { eapply Forall_impl; [|exact Ha1].
    intros closure [H1 H2]. now exists (wpmHistory c). }
  destruct requested as [|u us]; [now exists added1|].
  destruct (flushEffects_finishTimeouts false c1
              (applyUpdates (u :: us) c1) now) as (added2 & Hf2 & Ha2).
  exists (added1 ++ added2). split.
  - rewrite Hf2.
    destruct (applyUpdates_other (u :: us) c1) as (_ & _ & _ & ->).
    now rewrite Hf1, app_assoc.
  - apply Forall_app. split; [assumption|].
    eapply Forall_impl; [|exact Ha2].
    intros closure [H1 H2].
    rewrite applyUpdates_state, Hs1 in H1, H2.
    now exists (wpmHistory (applyUpdates (u :: us) c1)).
Qed.

Lemma run_induction (P : Component -> Prop) :
  P mounted ->
  (forall now e c, P c -> P (step now e c)) ->
  forall trace, P (run trace mounted).
Proof.
  intros Hm Hstep trace.
  assert (H : forall c, P c -> P (run trace c)).
  { induction trace as [|[now e] rest IH]; intros c Hc; simpl;
      [assumption | apply IH, Hstep, Hc]. }
  now apply H.
Qed.

End CommitCells.

Section SessionInvariants.

Lemma wpmDepsChanged_false (old new : GameState) :
  wpmDepsChanged old new = false ->
  isGameActive old = isGameActive new
  /\ startTime old = startTime new
  /\ userInput old = userInput new
  /\ text old = text new.
Proof.
  unfold wpmDepsChanged. intros H. apply negb_false_iff in H.
  apply andb_true_iff in H. destruct H as [H Ht].
  apply andb_true_iff in H. destruct H as [H Hu].
  apply andb_true_iff in H. destruct H as [Ha Hs].
  repeat split;
    [now apply Bool.eqb_prop | now apply optionZ_eqb_eq
     | now apply jsstring_eqb_eq | now apply jsstring_eqb_eq].
Qed.

Lemma handle_wpmInterval now e c :
  wpmInterval (handle now e c) = wpmInterval c.
Proof.
  destruct e; simpl; try reflexivity.
  - destruct loaded; reflexivity.
  - destruct (_ || _); reflexivity.
  - destruct (countdownInterval c); reflexivity.
  - destruct (wpmInterval c) eqn:E; [|now rewrite E].
    now rewrite applyUpdates_wpmInterval.
  - destruct (finishTimeouts c); reflexivity.
  - destruct outcome as [[|] [id|]|]; try reflexivity.
    simpl. destruct (String.eqb id EmptyString); reflexivity.
  - destruct paragraph; reflexivity.
  - destruct (_ || _); [reflexivity|].
    unfold handleTimerToggle. destruct (negb _); reflexivity.
Qed.

Lemma calculateWPM_reads (a b : GameState) (now : Z) :
  startTime a = startTime b ->
  userInput a = userInput b ->
  text a = text b ->
  calculateWPM a now = calculateWPM b now.
Proof. intros Hs Hu Ht. unfold calculateWPM. now rewrite Hs, Hu, Ht. Qed.

Lemma step_samplerInvariant now e c :
  samplerInvariant c -> samplerInvariant (step now e c).
Proof.
  unfold samplerInvariant, step. intros H.
  rewrite commit_wpmInterval, commit_state. cbn [orb].
  destruct (wpmDepsChanged (state c) (state (handle now e c))) eqn:D.
  - destruct (isGameActive (state (handle now e c))
              && truthy (startTime (state (handle now e c))));
      now repeat split.
  - apply wpmDepsChanged_false in D. destruct D as (Ha & Hs & Hu & Ht).
    rewrite handle_wpmInterval, <- Ha, <- Hs, <- Hu, <- Ht.
    exact H.
Qed.

Lemma mounted_samplerInvariant : samplerInvariant mounted.
Proof. vm_compute. reflexivity. Qed.

Lemma handle_timerInvariant now e c :
  invariant c ->
  timerInvariant (state c) ->
  timerInvariant (state (handle now e c)).
Proof.
  intros [_ Harmed] [Hle Hidle].
  unfold timerInvariant in *.
  destruct e; simpl; try (split; assumption).
  - destruct duration; simpl; split; try lia; intros _; auto.
  - destruct loaded; simpl; split; try lia; intros _; auto.
  - destruct (_ || _); [split; assumption|]. simpl.
    unfold handleInput.
    destruct (jsstring_eqb (userInput (state c)) []
              && negb (jsstring_eqb value [])
              && negb (isGameActive (state c))); simpl;
      split; try assumption; discriminate.
  - destruct (countdownInterval c) eqn:E; [|split; assumption].
    symmetry in Harmed. apply andb_true_iff in Harmed.
    destruct Harmed as [Ha _].
    simpl. split; [lia | congruence].
  - destruct (wpmInterval c); [|split; assumption].
    rewrite applyUpdates_state. split; assumption.
  - destruct (finishTimeouts c); [split; assumption|]. simpl.
    split; assumption.
  - destruct outcome as [[|] [id|]|]; try (split; assumption).
    simpl. destruct (String.eqb id EmptyString); split; assumption.
  - destruct paragraph; simpl; destruct captured; simpl;
      split; try lia; intros _; auto.
  - destruct (_ || _); [split; assumption|].
    unfold handleTimerToggle.
    destruct (negb _); [|split; assumption].
    simpl. destruct (timerPreference c); simpl; split; try lia;
      intros _; auto.
Qed.

End SessionInvariants.

(** X15. In every state a mounted component can reach the countdown value is
    at most 30, and until the first key is typed (and again after a restart)
    it is exactly 15 or 30. *)
Theorem timer_is_a_configured_duration_until_started :
  forall trace : list (Z * Event),
    let c := run trace mounted in
    timer (state c) <= 30
    /\ (phase (state c) = Idle ->
        timer (state c) = 15 \/ timer (state c) = 30).
Proof.
  intros trace c.
  assert (H : invariant c /\ timerInvariant (state c)).
  { unfold c. apply run_induction.
    - split; [apply mounted_invariant|].
      unfold timerInvariant. vm_compute. split; [discriminate | auto].
    - intros now e c0 [Hi Ht]. split; [now apply step_invariant|].
      unfold step. rewrite commit_state. now apply handle_timerInvariant. }
  destruct H as [_ [Hle Hidle]]. split; [assumption|].
  unfold phase. destruct (isGameFinished (state c)); [discriminate|].
  destruct (isGameActive (state c)); [discriminate|]. auto.
Qed.

Lemma timer_is_a_configured_duration_until_started_witness :
  let c := run (firstn 5 failedRestartSession) mounted in
  timer (state c) = 15 \/ timer (state c) = 30.
Proof.
  intros c.
  apply (proj2 (timer_is_a_configured_duration_until_started
                  (firstn 5 failedRestartSession))).
  reflexivity.
Defined.

(** X16. In every state a mounted component can reach, the 100 ms sampler is
    armed exactly while the game is active with a truthy start time, and a
    tick computes from the committed start time, typed text and excerpt:
    what it requests is what [calculateWPM] gives on the current state,
    never on a stale snapshot. *)
Theorem sampler_reads_current_input :
  forall (trace : list (Z * Event)) (now : Z),
    let c := run trace mounted in
    (wpmInterval c = None
     <-> isGameActive (state c) && truthy (startTime (state c)) = false)
    /\ (forall captured,
           wpmInterval c = Some captured ->
           calculateWPM captured now = calculateWPM (state c) now)
    /\ handle now WpmTick c
       = (if isGameActive (state c) && truthy (startTime (state c))
          then applyUpdates (calculateWPM (state c) now) c
          else c).
Proof.
  intros trace now c.
  assert (H : samplerInvariant c).
  { unfold c. apply run_induction;
      [apply mounted_samplerInvariant
      | intros; now apply step_samplerInvariant]. }
  unfold samplerInvariant in H. cbn [handle].
  destruct (wpmInterval c) as [captured|].
  - destruct H as (Hc & Hs & Hu & Ht). rewrite Hc.
    split; [split; discriminate|]. split.
    + intros captured' Heq. injection Heq as <-.
      now apply calculateWPM_reads.
    + now rewrite (calculateWPM_reads captured (state c) now Hs Hu Ht).
  - rewrite H. split; [now split|]. split; [discriminate | reflexivity].
Qed.

Lemma sampler_reads_current_input_witness :
  let c := run (firstn 3 completionSession) mounted in
  calculateWPM
    (mkGameState (str "cat") (str "ca") (Some 1000) 30 true false 0 0) 1400
  = calculateWPM (state c) 1400.
Proof.
  intros c.
  apply (proj1 (proj2 (sampler_reads_current_input
                         (firstn 3 completionSession) 1400))).
  reflexivity.
Defined.

(** X17. A finished game stays finished until a restart has settled: typing
    is ignored altogether, no other event clears the flag, and no further
    finish callback is ever scheduled (pending ones only run down). *)
Theorem finished_stays_finished :
  forall (c : Component) (now : Z) (e : Event),
    isGameFinished (state c) = true ->
    (forall value, step now (Input value) c = c)
    /\ ((forall captured paragraph, e <> RestartSettled captured paragraph) ->
        isGameFinished (state (step now e c)) = true
        /\ (List.length (finishTimeouts (step now e c))
            <= List.length (finishTimeouts c))%nat).
Proof.
  intros c now e F. split.
  - intros value. unfold step. cbn [handle]. rewrite F. cbn [orb].
    apply commit_same.
  - intros Hnot.
    assert (Hh : isGameFinished (state (handle now e c)) = true
                 /\ (List.length (finishTimeouts (handle now e c))
                     <= List.length (finishTimeouts c))%nat).
    { destruct e; simpl; try (split; [assumption | lia]).
      - destruct loaded; simpl; split; try assumption; lia.
      - rewrite F. simpl. split; [assumption | lia].
      - destruct (countdownInterval c); simpl; split; try assumption; lia.
      - destruct (wpmInterval c); [|split; [assumption | lia]].
        rewrite applyUpdates_state.
        destruct (applyUpdates_other (calculateWPM g now) c)
          as (_ & _ & _ & ->).
        split; [assumption | lia].
      - destruct (finishTimeouts c) as [|closure rest] eqn:E; simpl;
          rewrite ?E; simpl; split; try assumption; try reflexivity; lia.
      - destruct outcome as [[|] [id|]|]; simpl;
          try (split; [assumption | lia]).
        destruct (String.eqb id EmptyString); simpl;
          split; try assumption; lia.
      - exfalso. now apply (Hnot captured paragraph).
      - destruct (_ || _); [split; [assumption | lia]|].
        unfold handleTimerToggle.
        destruct (negb _); simpl; split; try assumption; lia. }
    destruct Hh as [Hf Hl]. unfold step.
    rewrite commit_state. split; [assumption|].
    now rewrite finished_schedules_nothing.
Qed.

Lemma finished_stays_finished_witness :
  let c := run completionSession mounted in
  step 5000 (Input (str "cats")) c = c.
Proof.
  intros c.
  apply (proj1 (finished_stays_finished c 5000 (Input (str "cats"))
                  eq_refl)).
Defined.

Lemma timer_bounds_helper (trace : list (Z * Event)) :
  isGameActive (state (run trace mounted)) = false ->
  timer (state (run trace mounted)) = 15
  \/ timer (state (run trace mounted)) = 30.
Proof.
  assert (H : invariant (run trace mounted)
              /\ timerInvariant (state (run trace mounted))).
  { apply run_induction.
    - split; [apply mounted_invariant|].
      unfold timerInvariant. vm_compute. split; [discriminate | auto].
    - intros now e c0 [Hi Ht]. split; [now apply step_invariant|].
      unfold step. rewrite commit_state. now apply handle_timerInvariant. }
  destruct H as [_ [_ Hidle]]. exact Hidle.
Qed.

Section Reports.

Lemma handle_calls_cases now e c :
  (onGameFinishCalls (handle now e c) = onGameFinishCalls c
   /\ saveGameResultCalls (handle now e c) = saveGameResultCalls c
   /\ finishTimeouts (handle now e c) = finishTimeouts c
   /\ (finalWPM (state (handle now e c)) = finalWPM (state c)
       /\ finalAccuracy (state (handle now e c)) = finalAccuracy (state c)
       \/ finalWPM (state (handle now e c)) = 0
          /\ finalAccuracy (state (handle now e c)) = 0))
  \/ (exists closure rest,
         e = FinishTimeout
         /\ finishTimeouts c = closure :: rest
         /\ handle now e c
            = finishCallback closure (withFinishTimeouts rest c)).
Proof.
  destruct e; simpl.
  - left. repeat split; auto.
  - left. destruct loaded; repeat split; auto.
  - left. destruct (_ || _); [repeat split; auto|]. simpl.
    unfold handleInput. destruct (_ && _); repeat split; auto.
  - left. destruct (countdownInterval c); repeat split; auto.
  - left. destruct (wpmInterval c); [|repeat split; auto].
    destruct (applyUpdates_calls (calculateWPM g now) c) as [-> ->].
    destruct (applyUpdates_other (calculateWPM g now) c) as (_ & _ & _ & ->).
    rewrite applyUpdates_state. repeat split; auto.
  - destruct (finishTimeouts c) as [|closure rest] eqn:E.
    + left. rewrite E. repeat split; auto.
    + right. now exists closure, rest.
  - left. destruct outcome as [[|] [id|]|]; simpl;
      try destruct (String.eqb id EmptyString); repeat split; auto.
  - left. repeat split; auto.
  - left. destruct paragraph; simpl; repeat split; auto.
  - left. destruct (_ || _); [repeat split; auto|].
    unfold handleTimerToggle. destruct (negb _); simpl; repeat split; auto.
Qed.

Lemma step_callsInvariant now e c :
  callsInvariant c -> callsInvariant (step now e c).
Proof.
  unfold callsInvariant, step. intros [Hm Hh].
  destruct (commit_calls false c (handle now e c) now) as [-> ->].
  destruct (handle_calls_cases now e c)
    as [(-> & -> & _)|(closure & rest & _ & _ & ->)];
    [now split|].
  unfold finishCallback. simpl.
  split.
  - rewrite !map_app, Hm. reflexivity.
  - apply Forall2_app; [assumption|].
    constructor; [reflexivity | constructor].
Qed.

Lemma step_resultsInvariant now e c :
  resultsInvariant c -> resultsInvariant (step now e c).
Proof.
  unfold resultsInvariant, step. intros (Hp & Hr & Hw & Ha).
  destruct (commit_calls false c (handle now e c) now) as [-> _].
  destruct (commit_finishTimeouts false c (handle now e c) now)
    as (added & -> & Hadded).
  rewrite commit_state.
  assert (Hnew : Forall
                   (fun closure => boundedResult (closure_results closure))
                   added).
  { eapply Forall_impl; [|exact Hadded].
    intros closure (history & -> & _). apply calculateResults_bounded. }
  destruct (handle_calls_cases now e c)
    as [(-> & _ & Hf & Hfinal)|(closure & rest & _ & Hc & ->)].
  - repeat split; try assumption.
    + apply Forall_app. split; [|assumption]. now rewrite Hf.
    + destruct Hfinal as [[-> _]|[-> _]]; lia.
    + destruct Hfinal as [[-> _]|[-> _]]; lia.
    + destruct Hfinal as [[_ ->]|[_ ->]]; lia.
    + destruct Hfinal as [[_ ->]|[_ ->]]; lia.
  - rewrite Hc in Hp. inversion Hp as [|? ? Hhead Hrest]; subst.
    unfold finishCallback.
    cbn [onGameFinishCalls finishTimeouts withCalls withFinishTimeouts
           setState state markFinished finalWPM finalAccuracy].
    destruct Hhead as [Hbw Hba].
    repeat split; try assumption; try lia.
    + apply Forall_app. now split.
    + apply Forall_app. split; [assumption|].
      constructor; [now split | constructor].
Qed.

End Reports.

(** X18. Every result reported to [onGameFinish] has its [saveGameResult]
    call, in the same order and with the same WPM, accuracy and duration;
    the history is passed along when it has an entry and left out when it is
    empty. *)
Theorem every_report_has_its_save :
  forall trace : list (Z * Event),
    let c := run trace mounted in
    map dataSummary (saveGameResultCalls c)
    = map resultSummary (onGameFinishCalls c)
    /\ Forall2
         (fun d r =>
            data_wpmHistory d
            = (if (0 <? Z.of_nat (List.length (result_wpmHistory r)))
               then Some (result_wpmHistory r) else None))
         (saveGameResultCalls c) (onGameFinishCalls c).
Proof.
  intros trace c. unfold c.
  apply (run_induction callsInvariant).
  - split; [reflexivity | constructor].
  - intros. now apply step_callsInvariant.
Qed.

(** X19. Whatever happens to a mounted component, every result it reports
    and every final value it shows has a WPM between 0 and 999 and an
    accuracy between 0 and 100; so no auto-save is ever rejected for its
    accuracy, and one can be rejected for its WPM only above 350. *)
Theorem reported_results_are_bounded :
  forall trace : list (Z * Event),
    let c := run trace mounted in
    Forall boundedResult (onGameFinishCalls c)
    /\ Forall
         (fun d => 0 <= data_wpm d <= 999 /\ 0 <= data_accuracy d <= 100)
         (saveGameResultCalls c)
    /\ 0 <= finalWPM (state c) <= 999
    /\ 0 <= finalAccuracy (state c) <= 100.
Proof.
  intros trace c.
  assert (H : resultsInvariant c /\ callsInvariant c).
  { unfold c. apply run_induction.
    - split.
      + unfold resultsInvariant. vm_compute.
        repeat split; try constructor; discriminate.
      + split; [reflexivity | constructor].
    - intros now e c0 [Hr Hc].
      split; [now apply step_resultsInvariant
             | now apply step_callsInvariant]. }
  destruct H as [(_ & Hr & Hw & Ha) [Hm _]].
  repeat split; try assumption; try lia.
  clear Hw Ha. revert Hm Hr.
  generalize (onGameFinishCalls c) as results.
  induction (saveGameResultCalls c) as [|d ds IH]; intros results Hm Hr;
    [constructor|].
  destruct results as [|r rs]; [discriminate|].
  simpl in Hm. injection Hm as Hw Ha _ Hrest.
  inversion Hr as [|? ? [Hbw Hba] Hrs]; subst.
  constructor; [split; lia | now apply (IH rs)].
Qed.

(** ** The WPM history of a session *)

Section HistoryOrder.

Lemma sorted_snoc (l : list Z) (x : Z) :
  StronglySorted Z.lt l -> Forall (fun y => y < x) l ->
  StronglySorted Z.lt (l ++ [x]).
Proof.
  induction l as [|a l IH]; intros Hs Hf; simpl.
  - repeat constructor.
  - inversion Hs as [|? ? Hs' Ha]; subst.
    inversion Hf as [|? ? Hax Hf']; subst.
    constructor; [now apply IH|].
    apply Forall_app. split; [assumption | now repeat constructor].
Qed.

Lemma sorted_unsnoc (l : list Z) (x : Z) :
  StronglySorted Z.lt (l ++ [x]) ->
  StronglySorted Z.lt l /\ Forall (fun y => y < x) l.
Proof.
  induction l as [|a l IH]; intros Hs; simpl in *.
  - split; constructor.
  - inversion Hs as [|? ? Hs' Ha]; subst.
    destruct (IH Hs') as [Hl Hf].
    apply Forall_app in Ha. destruct Ha as [Hal Hax].
    inversion Hax; subst.
    split; constructor; assumption.
Qed.

Lemma recordSample_increasing (history : list Sample) (timeSeconds wpmNow : Z) :
  increasingSeconds history ->
  Forall (fun entry => time entry <= timeSeconds) history ->
  increasingSeconds (recordSample timeSeconds wpmNow history)
  /\ Forall (fun entry => time entry <= timeSeconds)
       (recordSample timeSeconds wpmNow history).
Proof.
  unfold increasingSeconds, recordSample. intros Hs0 Hb0.
  destruct (lastEntry history) as [entry|] eqn:L.
  - pose proof (lastEntry_Some history entry L) as Hsplit.
    pose proof Hs0 as Hs. pose proof Hb0 as Hb.
    rewrite Hsplit in Hs, Hb.
    rewrite map_app in Hs. simpl in Hs.
    apply sorted_unsnoc in Hs. destruct Hs as [Hinit Hlt].
    apply Forall_app in Hb. destruct Hb as [Hbinit Hblast].
    inversion Hblast as [|? ? Hle _]; subst.
    destruct (time entry =? timeSeconds) eqn:E.
    + apply Z.eqb_eq in E. split.
      * rewrite map_app. simpl. apply sorted_snoc; [assumption|].
        now rewrite <- E.
      * apply Forall_app. split; [assumption|].
        constructor; [simpl; lia | constructor].
    + apply Z.eqb_neq in E. split.
      * rewrite map_app. simpl. apply sorted_snoc; [assumption|].
        rewrite Hsplit, map_app. apply Forall_app. split.
        -- eapply Forall_impl; [|exact Hlt]. simpl. intros y Hy. lia.
        -- constructor; [lia | constructor].
      * apply Forall_app. split; [assumption|].
        constructor; [simpl; lia | constructor].
  - apply lastEntry_None in L. subst history. simpl. split.
    + repeat constructor.
    + constructor; [simpl; lia | constructor].
Qed.

Lemma increasing_length (l : list Z) :
  forall lo hi,
    StronglySorted Z.lt l ->
    Forall (fun y => lo <= y <= hi) l ->
    Z.of_nat (List.length l) <= Z.max 0 (hi - lo + 1).
Proof.
  induction l as [|a l IH]; intros lo hi Hs Hf; simpl List.length; [lia|].
  inversion Hs as [|? ? Hs' Ha]; subst.
  inversion Hf as [|? ? Hab Hf']; subst.
  assert (Hl : Forall (fun y => a + 1 <= y <= hi) l).
  { rewrite Forall_forall in *. intros y Hy.
    specialize (Ha y Hy). specialize (Hf' y Hy). lia. }
  specialize (IH (a + 1) hi Hs' Hl). lia.
Qed.

Lemma calculateWPM_cases (s : GameState) (start now : Z) :
  startTime s = Some start ->
  calculateWPM s now
  = if 0 <? now - start
    then [SetCurrentWPM
            (wpmExpression (getCorrectChars (userInput s) (text s))
               (elapsedMinutes (now - start)));
          RecordSample ((now - start) / 1000)
            (wpmExpression (getCorrectChars (userInput s) (text s))
               (elapsedMinutes (now - start)))]
    else [].
Proof.
  intros Hs. unfold calculateWPM. rewrite Hs.
  rewrite elapsedMinutes_positive.
  destruct (0 <? now - start); [|reflexivity].
  now rewrite Math_floor_millis.
Qed.

Lemma sample_keeps_order (s : GameState) (start now : Z)
  (history : list Sample) :
  startTime s = Some start ->
  increasingSeconds history ->
  secondsWithin ((now - start) / 1000) history ->
  increasingSeconds (historyAfter (calculateWPM s now) history)
  /\ secondsWithin ((now - start) / 1000)
       (historyAfter (calculateWPM s now) history).
Proof.
  intros Hs Hi Hw. rewrite (calculateWPM_cases s start now Hs).
  destruct (0 <? now - start) eqn:E; [|now split].
  apply Z.ltb_lt in E. unfold historyAfter. simpl.
  assert (Hnn : 0 <= (now - start) / 1000)
    by (apply Z.div_pos; lia).
  assert (Hle : Forall (fun entry => time entry <= (now - start) / 1000)
                  history).
  { eapply Forall_impl; [|exact Hw]. simpl. intros entry H. lia. }
  destruct (recordSample_increasing history ((now - start) / 1000)
              (wpmExpression (getCorrectChars (userInput s) (text s))
                 (elapsedMinutes (now - start))) Hi Hle)
    as [Hinc Hup].
  split; [assumption|].
  unfold secondsWithin. unfold recordSample in *.
  destruct (lastEntry history) as [entry|] eqn:L.
  - pose proof (lastEntry_Some history entry L) as Hsplit.
    assert (Hinit : Forall (fun e => 0 <= time e <= (now - start) / 1000)
                      (removelast history)).
    { unfold secondsWithin in Hw. rewrite Hsplit in Hw.
      apply Forall_app in Hw. now destruct Hw. }
    destruct (time entry =? (now - start) / 1000).
    + apply Forall_app. split; [assumption|].
      constructor; [simpl; lia | constructor].
    + apply Forall_app. split; [assumption|].
      constructor; [simpl; lia | constructor].
  - apply Forall_app. split; [assumption|].
    constructor; [simpl; lia | constructor].
Qed.

End HistoryOrder.

(** X20. Recording a sample for a second that is not before the last
    recorded one keeps the history strictly increasing in time, so no second
    ever appears twice. *)
Theorem recordSample_keeps_seconds_increasing :
  forall (history : list Sample) (timeSeconds wpmNow : Z),
    increasingSeconds history ->
    Forall (fun entry => time entry <= timeSeconds) history ->
    increasingSeconds (recordSample timeSeconds wpmNow history)
    /\ NoDup (map time (recordSample timeSeconds wpmNow history)).
Proof.
  intros history timeSeconds wpmNow Hi Hb.
  destruct (recordSample_increasing history timeSeconds wpmNow Hi Hb)
    as [Hinc _].
  split; [assumption|].
  unfold increasingSeconds in Hinc.
  induction Hinc as [|a l Hs IH Ha]; constructor; [|assumption].
  intros Hin. rewrite Forall_forall in Ha. specialize (Ha a Hin). lia.
Qed.

Lemma recordSample_keeps_seconds_increasing_witness :
  increasingSeconds (recordSample 1 43 [mkSample 0 40; mkSample 1 42])
  /\ NoDup (map time (recordSample 1 43 [mkSample 0 40; mkSample 1 42])).
Proof.
  apply (recordSample_keeps_seconds_increasing
           [mkSample 0 40; mkSample 1 42] 1 43).
  - unfold increasingSeconds. simpl. repeat constructor.
  - repeat constructor; simpl; lia.
Defined.

Section HistoryOfSession.

Lemma handleInput_cases value now s :
  (isGameActive s = false
   /\ isGameActive (handleInput value now s) = true
   /\ startTime (handleInput value now s) = Some now)
  \/ (isGameActive (handleInput value now s) = isGameActive s
      /\ startTime (handleInput value now s) = startTime s).
Proof.
  unfold handleInput.
  destruct (jsstring_eqb (userInput s) [] && negb (jsstring_eqb value [])
            && negb (isGameActive s)) eqn:F.
  - left. apply andb_true_iff in F. destruct F as [_ F].
    apply negb_true_iff in F. now repeat split.
  - right. now split.
Qed.

Lemma handle_sampling_cases now e c :
  invariant c -> samplerInvariant c -> idleHistoryInvariant c ->
  (sampling (state (handle now e c)) = false
   /\ (wpmHistory (handle now e c) = []
       \/ (isGameActive (state (handle now e c)) = false
           /\ isGameActive (state c) = true)))
  \/ (sampling (state (handle now e c)) = true
      /\ wpmHistory (handle now e c) = []
      /\ startTime (state (handle now e c)) = Some now)
  \/ (sampling (state (handle now e c)) = true
      /\ startTime (state (handle now e c)) = startTime (state c)
      /\ (wpmHistory (handle now e c) = wpmHistory c
          \/ (state (handle now e c) = state c
              /\ wpmHistory (handle now e c)
                 = historyAfter (calculateWPM (state c) now)
                     (wpmHistory c)))).
Proof.
  intros [(_ & Hidle & Hactive) _] Hsampler Hhist.
  assert (Lkeep : forall h : Component,
             isGameActive (state h) = isGameActive (state c) ->
             startTime (state h) = startTime (state c) ->
             wpmHistory h = wpmHistory c ->
             (sampling (state h) = false
              /\ (wpmHistory h = []
                  \/ (isGameActive (state h) = false
                      /\ isGameActive (state c) = true)))
             \/ (sampling (state h) = true
                 /\ wpmHistory h = []
                 /\ startTime (state h) = Some now)
             \/ (sampling (state h) = true
                 /\ startTime (state h) = startTime (state c)
                 /\ (wpmHistory h = wpmHistory c
                     \/ (state h = state c
                         /\ wpmHistory h
                            = historyAfter (calculateWPM (state c) now)
                                (wpmHistory c))))).
  { intros h Ha Hs Hw.
    assert (Hsame : sampling (state h) = sampling (state c))
      by (unfold sampling; now rewrite Ha, Hs).
    destruct (sampling (state c)) eqn:S.
    - right. right. repeat split; auto.
    - left. split; [assumption|]. left. rewrite Hw. now apply Hhist. }
  destruct e; cbn [handle].
  - apply Lkeep; reflexivity.
  - destruct loaded; apply Lkeep; reflexivity.
  - destruct (isGameFinished (state c) || isLoading c);
      [apply Lkeep; reflexivity|].
    destruct (handleInput_cases value now (state c))
      as [(A & Ha & Hs)|[Ha Hs]].
    + assert (Hempty : wpmHistory c = []).
      { apply Hhist. unfold sampling. now rewrite A. }
      cbn [setState state wpmHistory]. unfold sampling.
      rewrite Ha, Hs. cbn [andb truthy].
      destruct (now =? 0); cbn [negb].
      * left. split; [reflexivity | now left].
      * right. left. repeat split; auto.
    + apply Lkeep; cbn [setState state wpmHistory]; auto.
  - destruct (countdownInterval c); apply Lkeep; reflexivity.
  - unfold samplerInvariant in Hsampler.
    destruct (wpmInterval c) as [captured|]; [|apply Lkeep; reflexivity].
    destruct Hsampler as (Hs & Hst & Hu & Ht).
    rewrite (calculateWPM_reads captured (state c) now Hst Hu Ht).
    right. right. rewrite applyUpdates_state, applyUpdates_history.
    repeat split; auto.
  - destruct (finishTimeouts c); apply Lkeep; reflexivity.
  - destruct outcome as [[|] [id|]|]; cbn [autoSaveSettled];
      try destruct (String.eqb id EmptyString); apply Lkeep; reflexivity.
  - apply Lkeep; reflexivity.
  - left. destruct paragraph; cbn; (split; [reflexivity|]).
    + now left.
    + destruct (isGameActive (state c)) eqn:A; [now right | left].
      apply Hhist. unfold sampling. now rewrite A.
  - destruct (isGameActive (state c) || isLoading c);
      [apply Lkeep; reflexivity|].
    unfold handleTimerToggle.
    destruct (negb (isGameActive (state c))); apply Lkeep; reflexivity.
Qed.

Lemma step_history_cases now e c :
  invariant c -> samplerInvariant c -> idleHistoryInvariant c ->
  (sampling (state (step now e c)) = false -> wpmHistory (step now e c) = [])
  /\ (wpmHistory (step now e c) = []
      \/ (sampling (state (step now e c)) = true
          /\ startTime (state (step now e c)) = startTime (state c)
          /\ (wpmHistory (step now e c) = wpmHistory c
              \/ exists s',
                  startTime s' = startTime (state c)
                  /\ wpmHistory (step now e c)
                     = historyAfter (calculateWPM s' now) (wpmHistory c)))).
Proof.
  intros Hinv Hsampler Hhist.
  pose proof (handle_sampling_cases now e c Hinv Hsampler Hhist) as Hcases.
  unfold step.
  destruct (commit_cells false c (handle now e c) now) as (_ & -> & _).
  rewrite commit_state.
  set (h := handle now e c) in *.
  unfold wpmEffect. cbn [orb]. fold (sampling (state h)).
  destruct Hcases as [[S A]|[(S & Hw & Hs)|(S & Hs & Hw)]]; rewrite S.
  - assert (Hgoal : historyAfter
                      (snd
                         (if wpmDepsChanged (state c) (state h)
                          then
                            if negb (isGameActive (state h))
                            then (withWpmInterval None h, [ResetWpmHistory])
                            else (withWpmInterval None h, [])
                          else (h, [])))
                      (wpmHistory h) = []).
    { destruct (wpmDepsChanged (state c) (state h)) eqn:D.
      - destruct (isGameActive (state h)) eqn:Ah; cbn [negb snd].
        + destruct A as [A|[A _]]; [exact A | discriminate].
        + reflexivity.
      - cbn [snd]. destruct A as [A|[A1 A2]]; [exact A|].
        apply wpmDepsChanged_false in D. destruct D as (D & _).
        congruence. }
    split; [intros _; exact Hgoal | now left].
  - assert (Hgoal : historyAfter
                      (snd
                         (if wpmDepsChanged (state c) (state h)
                          then (withWpmInterval (Some (state h)) h,
                                calculateWPM (state h) now)
                          else (h, [])))
                      (wpmHistory h) = []).
    { rewrite Hw.
      destruct (wpmDepsChanged (state c) (state h)); cbn [snd];
        [|reflexivity].
      rewrite (calculateWPM_cases (state h) now now Hs).
      now rewrite Z.sub_diag. }
    split; [discriminate | now left].
  - split; [discriminate | right].
    split; [reflexivity | split; [assumption|]].
    destruct Hw as [Hw|[Hst Hw]].
    + destruct (wpmDepsChanged (state c) (state h)); cbn [snd].
      * right. exists (state h). now rewrite Hw.
      * left. exact Hw.
    + rewrite Hst, wpmDepsChanged_same. cbn [snd].
      right. exists (state c). split; [reflexivity | exact Hw].
Qed.

Lemma step_idleHistoryInvariant now e c :
  invariant c -> samplerInvariant c -> idleHistoryInvariant c ->
  idleHistoryInvariant (step now e c).
Proof.
  intros Hinv Hsampler Hhist. unfold idleHistoryInvariant.
  apply (step_history_cases now e c Hinv Hsampler Hhist).
Qed.

Lemma idle_schedules_nothing mount old c now :
  isGameActive (state c) = false ->
  finishTimeouts (commit mount old c now) = finishTimeouts c.
Proof.
  intros A.
  assert (Htimer : forall m o c0 t,
             isGameActive (state c0) = false ->
             timerFinishEffect m o c0 t = c0).
  { intros m o c0 t A0. unfold timerFinishEffect.
    now rewrite A0, !andb_false_r. }
  assert (Hcompletion : forall m o c0 t,
             isGameActive (state c0) = false ->
             completionFinishEffect m o c0 t = c0).
  { intros m o c0 t A0. unfold completionFinishEffect.
    now rewrite A0, !andb_false_r. }
  assert (Hflush : forall m o c0 t,
             isGameActive (state c0) = false ->
             finishTimeouts (fst (flushEffects m o c0 t))
             = finishTimeouts c0).
  { intros m o c0 t A0.
    unfold flushEffects.
    destruct (wpmEffect m o (countdownEffect m o c0) t) as [c2 requested]
      eqn:E.
    assert (Hc2 : state c2 = state c0
                  /\ finishTimeouts c2 = finishTimeouts c0).
    { revert E. unfold wpmEffect, countdownEffect.
      repeat match goal with
             | |- context [if ?b then _ else _] => destruct b
             end;
        intros E; injection E as <- _; split; reflexivity. }
    destruct Hc2 as [Hs Hf].
    rewrite Htimer by (now rewrite Hs).
    rewrite Hcompletion by (now rewrite Hs).
    exact Hf. }
  unfold commit.
  pose proof (Hflush mount old c now A) as H1.
  pose proof (flushEffects_state mount old c now) as H2.
  destruct (flushEffects mount old c now) as [c1 requested].
  cbn [fst] in H1, H2. destruct requested as [|u us]; [assumption|].
  rewrite Hflush by (now rewrite applyUpdates_state, H2).
  destruct (applyUpdates_other (u :: us) c1) as (_ & _ & _ & ->).
  exact H1.
Qed.

Lemma run_app (t1 t2 : list (Z * Event)) :
  forall c, run (t1 ++ t2) c = run t2 (run t1 c).
Proof.
  induction t1 as [|[now e] t1 IH]; intros c; [reflexivity|].
  cbn [app run]. apply IH.
Qed.

Lemma session_invariants (trace : list (Z * Event)) :
  invariant (run trace mounted)
  /\ samplerInvariant (run trace mounted)
  /\ idleHistoryInvariant (run trace mounted).
Proof.
  apply (run_induction
           (fun c => invariant c /\ samplerInvariant c
                     /\ idleHistoryInvariant c)).
  - split; [apply mounted_invariant|].
    split; [apply mounted_samplerInvariant|].
    intros _. reflexivity.
  - intros now e c (Hi & Hs & Hh).
    split; [now apply step_invariant|].
    split; [now apply step_samplerInvariant
           | now apply step_idleHistoryInvariant].
Qed.

Lemma chronological_history (trace : list (Z * Event)) :
  forall since c,
    invariant c -> samplerInvariant c -> idleHistoryInvariant c ->
    increasingSeconds (wpmHistory c) ->
    (forall start, startTime (state c) = Some start ->
                   secondsWithin ((since - start) / 1000) (wpmHistory c)) ->
    chronological since trace ->
    increasingSeconds (wpmHistory (run trace c))
    /\ (forall start,
           startTime (state (run trace c)) = Some start ->
           secondsWithin ((endOf since trace - start) / 1000)
             (wpmHistory (run trace c))).
Proof.
  induction trace as [|[now e] rest IH];
    intros since c Hinv Hsampler Hhist Hinc Hwithin Hchrono;
    cbn [run endOf]; [now split|].
  destruct Hchrono as [Hle Hrest].
  apply IH; try assumption;
    [now apply step_invariant | now apply step_samplerInvariant
     | now apply step_idleHistoryInvariant | |].
  - destruct (step_history_cases now e c Hinv Hsampler Hhist)
      as [_ [->|(S & Hs & [->|(s' & Hs' & ->)])]];
      [constructor | assumption|].
    unfold sampling in S. apply andb_true_iff in S. destruct S as [_ S].
    rewrite Hs in S.
    destruct (startTime (state c)) as [start|] eqn:Est; [|discriminate].
    apply (sample_keeps_order s' start now); try assumption.
    eapply Forall_impl; [|exact (Hwithin start eq_refl)].
    simpl. intros entry [H0 H1]. split; [assumption|].
    apply Z.le_trans with ((since - start) / 1000); [assumption|].
    apply Z.div_le_mono; lia.
  - intros start Hstart.
    destruct (step_history_cases now e c Hinv Hsampler Hhist)
      as [_ [->|(S & Hs & Hw)]]; [constructor|].
    rewrite Hs in Hstart.
    assert (Hold : secondsWithin ((now - start) / 1000) (wpmHistory c)).
    { eapply Forall_impl; [|exact (Hwithin start Hstart)].
      simpl. intros entry [H0 H1]. split; [assumption|].
      apply Z.le_trans with ((since - start) / 1000); [assumption|].
      apply Z.div_le_mono; lia. }
    destruct Hw as [->|(s' & Hs' & ->)]; [assumption|].
    rewrite Hstart in Hs'.
    now apply (sample_keeps_order s' start now).
Qed.

End HistoryOfSession.

(** X21. Along any run of a mounted component in which the clock never goes
    back, the WPM history is strictly increasing in time, every entry is for
    a whole second between 0 and the seconds elapsed since the start of the
    game, and so the history never has more entries than elapsed seconds
    plus one; while the sampler is not armed the history is empty. *)
Theorem wpmHistory_one_entry_per_second :
  forall (since : Z) (trace : list (Z * Event)),
    chronological since trace ->
    let c := run trace mounted in
    increasingSeconds (wpmHistory c)
    /\ (forall start,
           startTime (state c) = Some start ->
           secondsWithin ((endOf since trace - start) / 1000) (wpmHistory c)
           /\ Z.of_nat (List.length (wpmHistory c))
              <= Z.max 0 ((endOf since trace - start) / 1000 + 1))
    /\ (sampling (state c) = false -> wpmHistory c = []).
Proof.
  intros since trace Hchrono c.
  destruct (session_invariants trace) as (_ & _ & Hidle).
  destruct (session_invariants []) as (Hi0 & Hs0 & Hh0).
  cbn [run] in Hi0, Hs0, Hh0.
  assert (Hm : wpmHistory mounted = []) by reflexivity.
  destruct (chronological_history trace since mounted Hi0 Hs0 Hh0)
    as [Hinc Hwithin]; try assumption.
  - rewrite Hm. constructor.
  - intros start _. rewrite Hm. constructor.
  - split; [assumption | split; [|exact Hidle]].
    intros start Hstart. specialize (Hwithin start Hstart).
    split; [assumption|].
    fold c in Hinc, Hwithin.
    rewrite <- (length_map time).
    replace ((endOf since trace - start) / 1000 + 1)
      with ((endOf since trace - start) / 1000 - 0 + 1) by lia.
    apply increasing_length; [exact Hinc|].
    unfold secondsWithin in Hwithin. now rewrite Forall_map.
Qed.

Lemma wpmHistory_one_entry_per_second_witness :
  let c := run expirySession mounted in
  increasingSeconds (wpmHistory c)
  /\ (forall start,
         startTime (state c) = Some start ->
         secondsWithin ((endOf 0 expirySession - start) / 1000) (wpmHistory c)
         /\ Z.of_nat (List.length (wpmHistory c))
            <= Z.max 0 ((endOf 0 expirySession - start) / 1000 + 1))
  /\ (sampling (state c) = false -> wpmHistory c = []).
Proof.
  apply (wpmHistory_one_entry_per_second 0 expirySession).
  vm_compute. repeat split; discriminate.
Defined.

(** X22. A restart that has settled leaves an idle game with nothing
    running: the state is the fresh one for the new excerpt, with the
    countdown set to the timer preference the call captured when it was
    invoked, whatever the preference is by now, which it leaves untouched;
    both intervals are disarmed and the history is empty. With a generated
    paragraph the displayed WPM and the saved id are cleared as well; on the
    fallback path they are left as they were. In neither case is a pending
    finish callback cancelled or a report touched. *)
Theorem restart_gives_an_idle_game :
  forall (trace : list (Z * Event)) (now : Z) (captured : TimerPreference)
         (paragraph : option jsstring),
    let c := run trace mounted in
    let c' := step now (RestartSettled captured paragraph) c in
    state c'
    = freshState
        (match paragraph with Some t => t | None => fallbackText end)
        (seconds captured)
    /\ timerPreference c' = timerPreference c
    /\ countdownInterval c' = false
    /\ wpmInterval c' = None
    /\ wpmHistory c' = []
    /\ isLoading c' = false
    /\ currentWPM c'
       = (match paragraph with Some _ => 0 | None => currentWPM c end)
    /\ savedGameResultId c'
       = (match paragraph with
          | Some _ => None
          | None => savedGameResultId c
          end)
    /\ finishTimeouts c' = finishTimeouts c
    /\ onGameFinishCalls c' = onGameFinishCalls c.
Proof.
  intros trace now captured paragraph c c'.
  destruct (session_invariants
              (trace ++ [(now, RestartSettled captured paragraph)]))
    as (Hi & Hs & Hh).
  assert (Hrun : run (trace ++ [(now, RestartSettled captured paragraph)])
                   mounted
                 = c').
  { now rewrite run_app. }
  rewrite Hrun in Hi, Hs, Hh.
  assert (Hstate : state c'
                   = freshState
                       (match paragraph with
                        | Some t => t
                        | None => fallbackText
                        end) (seconds captured)).
  { unfold c', step. rewrite commit_state.
    destruct paragraph; reflexivity. }
  assert (Hidle : sampling (state c') = false)
    by (now rewrite Hstate).
  split; [exact Hstate|].
  split.
  { unfold c', step.
    destruct (commit_cells false c
                (handle now (RestartSettled captured paragraph) c) now)
      as (_ & _ & _ & -> & _).
    destruct paragraph; reflexivity. }
  split; [destruct Hi as [_ ->]; now rewrite Hstate|].
  split.
  { unfold samplerInvariant in Hs. fold (sampling (state c')) in Hs.
    destruct (wpmInterval c'); [|reflexivity].
    destruct Hs as [Hs _]. congruence. }
  split; [now apply Hh|].
  unfold c', step.
  destruct (commit_cells false c
              (handle now (RestartSettled captured paragraph) c)
              now) as (Hw & _ & Hid & _ & Hl).
  destruct (commit_calls false c
              (handle now (RestartSettled captured paragraph) c)
              now) as [Hcalls _].
  rewrite Hl, Hw, Hid, Hcalls.
  rewrite idle_schedules_nothing by (destruct paragraph; reflexivity).
  assert (Hdisplay : forall shown,
             displayAfter
               (snd (wpmEffect false c
                       (handle now (RestartSettled captured paragraph) c)
                       now))
               shown = shown).
  { intros shown. unfold wpmEffect.
    assert (A : isGameActive
                  (state (handle now (RestartSettled captured paragraph) c))
                = false)
      by (destruct paragraph; reflexivity).
    rewrite A. cbn [andb negb orb].
    destruct (wpmDepsChanged _ _); reflexivity. }
  rewrite Hdisplay.
  destruct paragraph; repeat split; reflexivity.
Qed.

(** Two restarts in flight: the first settles, the preference is toggled to
    15, and the second, invoked while it was 30, then sets the countdown to
    30 under a preference of 15. *)
Lemma restart_installs_the_captured_preference :
  let c := run overlappingRestartsSession mounted in
  timerPreference c = Seconds15
  /\ timer (state c) = 30
  /\ phase (state c) = Idle.
Proof. vm_compute. repeat split; reflexivity. Qed.

(** ** Starting, configuring and ending a game *)

Section Lifecycle.

Lemma jsstring_eqb_neq (a b : jsstring) : a <> b -> jsstring_eqb a b = false.
Proof.
  intros H. destruct (jsstring_eqb a b) eqn:E; [|reflexivity].
  apply jsstring_eqb_eq in E. contradiction.
Qed.

Lemma run_finishTimeout now c closure rest :
  finishTimeouts c = closure :: rest ->
  state (step now FinishTimeout c)
  = markFinished (closure_results closure) (state c)
  /\ finishTimeouts (step now FinishTimeout c) = rest
  /\ onGameFinishCalls (step now FinishTimeout c)
     = onGameFinishCalls c ++ [closure_results closure].
Proof.
  intros H. unfold step. cbn [handle]. rewrite H.
  rewrite commit_state.
  destruct (commit_calls false c
              (finishCallback closure (withFinishTimeouts rest c)) now)
    as [-> _].
  rewrite finished_schedules_nothing by reflexivity.
  repeat split; reflexivity.
Qed.

End Lifecycle.

(** X23. The first character typed into an idle, loaded game starts it: the
    game becomes active with the time of that key as start time, the
    countdown keeps its configured value of 15 or 30 and its interval is
    armed, and nothing is finished or scheduled by the key itself unless it
    already completes the excerpt. *)
Theorem first_key_starts_the_countdown :
  forall (trace : list (Z * Event)) (now : Z) (value : jsstring),
    let c := run trace mounted in
    let c' := step now (Input value) c in
    phase (state c) = Idle ->
    isLoading c = false ->
    value <> [] ->
    phase (state c') = Active
    /\ startTime (state c') = Some now
    /\ userInput (state c') = value
    /\ (timer (state c') = 15 \/ timer (state c') = 30)
    /\ countdownInterval c' = true
    /\ wpmHistory c' = []
    /\ (List.length value <> List.length (text (state c)) ->
        finishTimeouts c' = finishTimeouts c).
Proof.
  intros trace now value c c' Hphase Hload Hne.
  destruct (session_invariants trace) as (Hi & Hs & Hh).
  fold c in Hi, Hs, Hh.
  destruct (session_invariants (trace ++ [(now, Input value)]))
    as (Hi' & _ & _).
  rewrite run_app in Hi'. cbn [run] in Hi'. fold c in Hi'. fold c' in Hi'.
  pose proof (timer_bounds_helper trace) as Ht. fold c in Ht.
  revert Hphase. unfold phase.
  destruct (isGameFinished (state c)) eqn:F; [discriminate|].
  destruct (isGameActive (state c)) eqn:A; [discriminate|]. intros _.
  pose proof Hi as Hi0.
  destruct Hi as [(_ & Hidle & _) _].
  destruct (Hidle A) as [Hu Hst].
  assert (Hstate : state c'
                   = mkGameState (text (state c)) value (Some now)
                       (timer (state c)) true false (finalWPM (state c))
                       (finalAccuracy (state c))).
  { unfold c', step. rewrite commit_state. cbn [handle].
    rewrite F, Hload. cbn [orb setState state].
    unfold handleInput. rewrite Hu, A, F.
    rewrite (jsstring_eqb_neq value [] Hne). reflexivity. }
  assert (Htimer : timer (state c) = 15 \/ timer (state c) = 30)
    by (now apply Ht).
  rewrite Hstate. cbn [isGameFinished isGameActive startTime userInput timer].
  repeat split; try assumption.
  - destruct Hi' as [_ ->]. rewrite Hstate.
    cbn [isGameActive timer andb]. apply Z.ltb_lt.
    destruct Htimer as [-> | ->]; lia.
  - destruct (step_history_cases now (Input value) c Hi0 Hs Hh)
      as [_ [H|(_ & Hsame & _)]].
    + exact H.
    + fold c' in Hsame. rewrite Hstate, Hst in Hsame. discriminate.
  - intros Hlen. unfold c', step.
    destruct (commit_finishTimeouts false c (handle now (Input value) c)
                now) as (added & Hf & Hadded).
    assert (Hhandle : finishTimeouts (handle now (Input value) c)
                      = finishTimeouts c).
    { cbn [handle]. rewrite F, Hload. reflexivity. }
    rewrite Hf, Hhandle.
    enough (added = []) as -> by now rewrite app_nil_r.
    assert (Hnone : forall m o c0 t,
               state c0 = state c' ->
               finishTimeouts (fst (flushEffects m o c0 t))
               = finishTimeouts c0).
    { intros m o c0 t Hc0.
      unfold flushEffects.
      destruct (wpmEffect m o (countdownEffect m o c0) t)
        as [c2 requested] eqn:E.
      assert (Hc2 : state c2 = state c0
                    /\ finishTimeouts c2 = finishTimeouts c0).
      { revert E. unfold wpmEffect, countdownEffect.
        repeat match goal with
               | |- context [if ?b then _ else _] => destruct b
               end;
          intros E; injection E as <- _; split; reflexivity. }
      destruct Hc2 as [Hs2 Hf2].
      assert (T : timerFinishEffect m o c2 t = c2).
      { unfold timerFinishEffect. rewrite Hs2, Hc0, Hstate.
        cbn [timer isGameActive isGameFinished].
        assert (Z0 : (timer (state c) =? 0) = false)
          by (apply Z.eqb_neq; destruct Htimer; lia).
        now rewrite Z0, !andb_false_r. }
      rewrite T.
      unfold completionFinishEffect. rewrite Hs2, Hc0, Hstate.
      cbn [userInput text isGameActive isGameFinished].
      assert (L : Nat.eqb (List.length value)
                    (List.length (text (state c))) = false)
        by now apply Nat.eqb_neq.
      now rewrite L, !andb_false_r. }
    revert Hf. unfold commit.
    pose proof (Hnone false c (handle now (Input value) c) now) as H1.
    pose proof (flushEffects_state false c (handle now (Input value) c) now)
      as H2.
    assert (Hh' : state (handle now (Input value) c) = state c').
    { unfold c', step. now rewrite commit_state. }
    specialize (H1 Hh').
    destruct (flushEffects false c (handle now (Input value) c) now)
      as [c1 requested].
    cbn [fst] in H1, H2.
    destruct requested as [|u us].
    + rewrite H1. intros Hf.
      apply (f_equal (@List.length FinishClosure)) in Hf.
      rewrite length_app in Hf. destruct added; [reflexivity|].
      simpl in Hf. lia.
    + rewrite Hnone by (now rewrite applyUpdates_state, H2).
      destruct (applyUpdates_other (u :: us) c1) as (_ & _ & _ & ->).
      rewrite H1. intros Hf.
      apply (f_equal (@List.length FinishClosure)) in Hf.
      rewrite length_app in Hf. destruct added; [reflexivity|].
      simpl in Hf. lia.
Qed.

Lemma first_key_starts_the_countdown_witness :
  let c := run (firstn 1 completionSession) mounted in
  let c' := step 1000 (Input (str "c")) c in
  phase (state c') = Active
  /\ startTime (state c') = Some 1000
  /\ userInput (state c') = str "c"
  /\ (timer (state c') = 15 \/ timer (state c') = 30)
  /\ countdownInterval c' = true
  /\ wpmHistory c' = []
  /\ (List.length (str "c") <> List.length (text (state c)) ->
      finishTimeouts c' = finishTimeouts c).
Proof.
  apply (first_key_starts_the_countdown (firstn 1 completionSession) 1000
           (str "c")).
  - reflexivity.
  - reflexivity.
  - discriminate.
Defined.

(** X24. While the game is idle and loaded, the timer toggle switches the
    preference between 15 and 30 and sets the countdown to the new
    preference; toggling twice gives back the preference one started with,
    with the countdown set to it. While the game is active or loading the
    toggle does nothing. *)
Theorem timer_toggle_switches_between_15_and_30 :
  forall (c : Component) (now now' : Z),
    let c1 := step now TimerToggle c in
    let c2 := step now' TimerToggle c1 in
    (isGameActive (state c) || isLoading c = true -> c1 = c)
    /\ (isGameActive (state c) || isLoading c = false ->
        seconds (timerPreference c1) = 45 - seconds (timerPreference c)
        /\ timer (state c1) = seconds (timerPreference c1)
        /\ timerPreference c2 = timerPreference c
        /\ timer (state c2) = seconds (timerPreference c)
        /\ userInput (state c2) = userInput (state c)
        /\ text (state c2) = text (state c)).
Proof.
  intros c now now' c1 c2.
  split; intros H.
  - unfold c1, step. cbn [handle]. rewrite H. apply commit_same.
  - assert (H1 : state c1
                 = setTimer
                     (seconds
                        (match timerPreference c with
                         | Seconds30 => Seconds15
                         | Seconds15 => Seconds30
                         end)) (state c)
                 /\ timerPreference c1
                    = match timerPreference c with
                      | Seconds30 => Seconds15
                      | Seconds15 => Seconds30
                      end
                 /\ isLoading c1 = isLoading c).
    { unfold c1, step. rewrite commit_state.
      destruct (commit_cells false c (handle now TimerToggle c) now)
        as (_ & _ & _ & -> & ->).
      cbn [handle]. rewrite H. unfold handleTimerToggle.
      apply orb_false_iff in H. destruct H as [A _]. rewrite A.
      cbn [negb]. repeat split; reflexivity. }
    destruct H1 as (Hs1 & Hp1 & Hl1).
    assert (H' : isGameActive (state c1) || isLoading c1 = false).
    { rewrite Hs1, Hl1. exact H. }
    assert (H2 : state c2
                 = setTimer
                     (seconds
                        (match timerPreference c1 with
                         | Seconds30 => Seconds15
                         | Seconds15 => Seconds30
                         end)) (state c1)
                 /\ timerPreference c2
                    = match timerPreference c1 with
                      | Seconds30 => Seconds15
                      | Seconds15 => Seconds30
                      end).
    { unfold c2, step. rewrite commit_state.
      destruct (commit_cells false c1 (handle now' TimerToggle c1) now')
        as (_ & _ & _ & -> & _).
      cbn [handle]. rewrite H'. unfold handleTimerToggle.
      apply orb_false_iff in H'. destruct H' as [A _]. rewrite A.
      cbn [negb]. split; reflexivity. }
    destruct H2 as (Hs2 & Hp2).
    rewrite Hs2, Hp2, Hs1, Hp1.
    destruct (timerPreference c); cbn; repeat split; reflexivity.
Qed.

Lemma timer_toggle_switches_between_15_and_30_witness :
  let c := run (firstn 1 completionSession) mounted in
  seconds (timerPreference (step 10 TimerToggle c))
  = 45 - seconds (timerPreference c)
  /\ timer (state (step 10 TimerToggle c))
     = seconds (timerPreference (step 10 TimerToggle c)).
Proof.
  intros c.
  destruct (proj2 (timer_toggle_switches_between_15_and_30 c 10 20)
              eq_refl) as (H1 & H2 & _).
  split; assumption.
Defined.

Section Endings.

Ltac same_deps :=
  rewrite ?jsstring_eqb_refl, ?optionZ_eqb_refl, ?Nat.eqb_refl,
    ?Bool.eqb_reflx, ?Z.eqb_refl.

Ltac cells :=
  cbn [state currentWPM wpmHistory wpmHistoryRef savedGameResultId
         timerPreference isLoading countdownInterval wpmInterval
         finishTimeouts onGameFinishCalls saveGameResultCalls
         text userInput startTime timer isGameActive isGameFinished
         andb orb negb fst snd truthy].

Lemma expiry_step (c : Component) (now : Z) :
  countdownInterval c = true ->
  isGameActive (state c) = true ->
  timer (state c) = 1 ->
  isGameFinished (state c) = false ->
  step now CountdownTick c
  = scheduleFinish (withCountdownInterval false (setState countdownTick c))
      now.
Proof.
  destruct c as [s shown history ref saved preference loading armed sampler
                   pending reports saves].
  destruct s as [excerpt typed start remaining active finished fw fa].
  cbn [countdownInterval state isGameActive timer isGameFinished].
  intros -> -> -> ->.
  unfold step, commit, flushEffects, countdownEffect, wpmEffect,
    timerFinishEffect, completionFinishEffect, countdownDepsChanged,
    wpmDepsChanged, timerFinishDepsChanged, completionDepsChanged.
  cbn [handle countdownInterval setState state countdownTick timer
         isGameActive isGameFinished userInput text startTime
         withCountdownInterval withWpmInterval wpmHistoryRef orb andb negb
         Bool.eqb Z.sub Z.eqb Z.ltb Z.compare Z.pos_sub Z.add Z.opp].
  same_deps.
  cbn [andb negb orb fst snd]. same_deps.
  cbn [andb negb orb fst snd scheduleFinish state finishTimeouts
         withFinishTimeouts wpmHistoryRef isGameActive isGameFinished
         userInput text startTime timer].
  same_deps. cbn [andb negb orb]. reflexivity.
Qed.

Lemma Nat_eqb_succ (n : nat) : Nat.eqb n (S n) = false.
Proof. apply Nat.eqb_neq. lia. Qed.

Lemma flush_on_new_input (old c : Component) (now start : Z) :
  timer (state old) = timer (state c) ->
  isGameActive (state old) = isGameActive (state c) ->
  wpmDepsChanged (state old) (state c) = true ->
  completionDepsChanged old c = true ->
  isGameActive (state c) = true ->
  isGameFinished (state c) = false ->
  startTime (state c) = Some start ->
  start <> 0 ->
  timer (state c) <> 0 ->
  List.length (userInput (state c)) = List.length (text (state c)) ->
  flushEffects false old c now
  = (scheduleFinish (withWpmInterval (Some (state c)) c) now,
     calculateWPM (state c) now).
Proof.
  intros Htimer Hactive Hwpm Hcompletion Hon Hunfinished Hstart Hnonzero
    Hrunning Hlen.
  apply Z.eqb_neq in Hnonzero, Hrunning. apply Nat.eqb_eq in Hlen.
  unfold flushEffects, countdownEffect, countdownDepsChanged.
  rewrite Htimer, Hactive. same_deps. cbn [andb negb orb].
  unfold wpmEffect. rewrite Hwpm, Hon, Hstart.
  cbn [orb andb truthy]. rewrite Hnonzero. cbn [negb].
  unfold timerFinishEffect. cbn [state withWpmInterval].
  rewrite Hrunning. cbn [andb]. rewrite andb_false_r.
  unfold completionFinishEffect.
  replace (completionDepsChanged old (withWpmInterval (Some (state c)) c))
    with (completionDepsChanged old c) by reflexivity.
  rewrite Hcompletion. cbn [state withWpmInterval].
  rewrite Hlen, Hon, Hunfinished. reflexivity.
Qed.

Lemma flush_on_new_sample (old c : Component) (now : Z) :
  state c = state old ->
  wpmHistoryRef c = S (wpmHistoryRef old) ->
  isGameActive (state c) = true ->
  isGameFinished (state c) = false ->
  timer (state c) <> 0 ->
  List.length (userInput (state c)) = List.length (text (state c)) ->
  flushEffects false old c now = (scheduleFinish c now, []).
Proof.
  intros Hstate Href Hon Hunfinished Hrunning Hlen.
  apply Z.eqb_neq in Hrunning. apply Nat.eqb_eq in Hlen.
  unfold flushEffects, countdownEffect, countdownDepsChanged.
  rewrite Hstate. same_deps. cbn [andb negb orb].
  unfold wpmEffect, wpmDepsChanged. rewrite Hstate. same_deps.
  cbn [andb negb orb].
  unfold timerFinishEffect. rewrite Hrunning. cbn [andb].
  rewrite andb_false_r.
  unfold completionFinishEffect, completionDepsChanged.
  rewrite Hlen, Hon, Hunfinished, Href, Hstate. same_deps.
  rewrite Nat_eqb_succ, andb_false_r. reflexivity.
Qed.

Lemma completion_step (c : Component) (now start : Z) (value : jsstring) :
  isGameFinished (state c) = false ->
  isLoading c = false ->
  isGameActive (state c) = true ->
  startTime (state c) = Some start ->
  start <> 0 ->
  0 < now - start ->
  timer (state c) <> 0 ->
  value <> userInput (state c) ->
  List.length value = List.length (text (state c)) ->
  let typedState := handleInput value now (state c) in
  let sample :=
    wpmExpression (getCorrectChars value (text (state c)))
      (elapsedMinutes (now - start)) in
  let sampled := recordSample ((now - start) / 1000) sample (wpmHistory c) in
  finishTimeouts (step now (Input value) c)
  = finishTimeouts c
    ++ [mkFinishClosure (calculateResults typedState (wpmHistory c) now)
          (text (state c));
        mkFinishClosure (calculateResults typedState sampled now)
          (text (state c))]
  /\ wpmHistory (step now (Input value) c) = sampled
  /\ currentWPM (step now (Input value) c) = sample
  /\ state (step now (Input value) c) = typedState
  /\ onGameFinishCalls (step now (Input value) c) = onGameFinishCalls c.
Proof.
  destruct c as [s shown history ref saved preference loading armed sampler
                   pending reports saves].
  destruct s as [excerpt typed started remaining active finished fw fa].
  cbn [state isGameActive timer isGameFinished isLoading startTime userInput
         text wpmHistory finishTimeouts onGameFinishCalls].
  intros -> -> -> -> Hstart Helapsed Htimer Hvalue Hlen.
  assert (Hneq : jsstring_eqb typed value = false)
    by (apply jsstring_eqb_neq; congruence).
  apply Z.ltb_lt in Helapsed.
  assert (Htyped : handleInput value now
                     (mkGameState excerpt typed (Some start) remaining true
                        false fw fa)
                   = mkGameState excerpt value (Some start) remaining true
                       false fw fa).
  { unfold handleInput. cbn [isGameActive negb]. now rewrite andb_false_r. }
  rewrite Htyped.
  unfold step. cbn [handle state isGameFinished isLoading orb].
  unfold setState. cells. rewrite Htyped.
  unfold commit.
  rewrite (flush_on_new_input _ _ now start); cells; try reflexivity;
    try assumption.
  2:{ unfold wpmDepsChanged. cells. same_deps. now rewrite Hneq. }
  2:{ unfold completionDepsChanged. cells. now rewrite Hneq. }
  rewrite (calculateWPM_cases
             (mkGameState excerpt value (Some start) remaining true false
                fw fa) start now eq_refl), Helapsed.
  rewrite flush_on_new_sample; try reflexivity; try assumption.
  cbn [fst]. unfold applyUpdates. cbn [fold_left applyUpdate].
  unfold setCurrentWPM, setWpmHistory, scheduleFinish, withFinishTimeouts,
    withWpmInterval.
  cells. rewrite <- app_assoc. cbn [app].
  repeat split; reflexivity.
Qed.

End Endings.

(** X25. The key that completes the excerpt reports the game twice, whatever
    the state it is typed in: while the game is active and unfinished with
    time left on the countdown and some time elapsed since its start, an
    input as long as the excerpt leaves two deferred finish callbacks, one
    computed with the history before the sample of this render and one with
    that sample recorded; when both have run, [onGameFinish] has received
    exactly these two results, in this order, and the game is finished. *)
Theorem completing_key_reports_twice :
  forall (c : Component) (now start t1 t2 : Z) (value : jsstring),
    isGameFinished (state c) = false ->
    isLoading c = false ->
    isGameActive (state c) = true ->
    startTime (state c) = Some start ->
    start <> 0 ->
    0 < now - start ->
    timer (state c) <> 0 ->
    value <> userInput (state c) ->
    List.length value = List.length (text (state c)) ->
    finishTimeouts c = [] ->
    let typedState := handleInput value now (state c) in
    let sample :=
      wpmExpression (getCorrectChars value (text (state c)))
        (elapsedMinutes (now - start)) in
    let sampled :=
      recordSample ((now - start) / 1000) sample (wpmHistory c) in
    let typed := step now (Input value) c in
    let after := run [(t1, FinishTimeout); (t2, FinishTimeout)] typed in
    List.length (finishTimeouts typed) = 2%nat
    /\ isGameFinished (state typed) = false
    /\ onGameFinishCalls after
       = onGameFinishCalls c
         ++ [calculateResults typedState (wpmHistory c) now;
             calculateResults typedState sampled now]
    /\ finishTimeouts after = []
    /\ isGameFinished (state after) = true.
Proof.
  intros c now start t1 t2 value Hunfinished Hloaded Hon Hstart Hnonzero
    Helapsed Hrunning Hvalue Hlen Hnone.
  destruct (completion_step c now start value Hunfinished Hloaded Hon Hstart
              Hnonzero Helapsed Hrunning Hvalue Hlen)
    as (Hpending & _ & _ & Hstate & Hcalls).
  rewrite Hnone in Hpending. cbn [app] in Hpending.
  cbn zeta. cbn [run].
  destruct (run_finishTimeout t1 _ _ _ Hpending) as (Hs1 & Hp1 & Hc1).
  destruct (run_finishTimeout t2 _ _ _ Hp1) as (Hs2 & Hp2 & Hc2).
  split; [now rewrite Hpending|].
  split.
  { rewrite Hstate. unfold handleInput. rewrite Hon.
    cbn [negb]. rewrite andb_false_r. exact Hunfinished. }
  split.
  { rewrite Hc2, Hc1, Hcalls. cbn [closure_results].
    now rewrite <- app_assoc. }
  split; [exact Hp2|].
  now rewrite Hs2.
Qed.

Lemma completing_key_reports_twice_witness :
  let c := run (firstn 3 completionSession) mounted in
  let typed := step 1600 (Input (str "cat")) c in
  let after := run [(1601, FinishTimeout); (1602, FinishTimeout)] typed in
  List.length (finishTimeouts typed) = 2%nat
  /\ isGameFinished (state typed) = false
  /\ onGameFinishCalls after
     = onGameFinishCalls c
       ++ [calculateResults (handleInput (str "cat") 1600 (state c))
             (wpmHistory c) 1600;
           calculateResults (handleInput (str "cat") 1600 (state c))
             (recordSample ((1600 - 1000) / 1000)
                (wpmExpression
                   (getCorrectChars (str "cat") (text (state c)))
                   (elapsedMinutes (1600 - 1000)))
                (wpmHistory c)) 1600]
  /\ finishTimeouts after = []
  /\ isGameFinished (state after) = true.
Proof.
  apply (completing_key_reports_twice
           (run (firstn 3 completionSession) mounted) 1600 1000 1601 1602
           (str "cat")).
  - reflexivity.
  - reflexivity.
  - reflexivity.
  - reflexivity.
  - lia.
  - lia.
  - vm_compute. discriminate.
  - vm_compute. discriminate.
  - reflexivity.
  - reflexivity.
Defined.

(** X26. The countdown running out reports the game once when nothing comes
    between the last tick and the deferred callback: the tick that takes the
    countdown from 1 to 0 clears the countdown interval and defers exactly
    one finish callback, computed from the history of that render; once it
    has run, [onGameFinish] has received that one result, nothing is left
    pending, the game is finished and the countdown shows 0. *)
Theorem countdown_expiry_reports_once :
  forall (c : Component) (now later : Z),
    countdownInterval c = true ->
    isGameActive (state c) = true ->
    timer (state c) = 1 ->
    isGameFinished (state c) = false ->
    finishTimeouts c = [] ->
    let expired := step now CountdownTick c in
    let after := step later FinishTimeout expired in
    let results :=
      calculateResults (countdownTick (state c)) (wpmHistory c) now in
    countdownInterval expired = false
    /\ finishTimeouts expired = [mkFinishClosure results (text (state c))]
    /\ onGameFinishCalls after = onGameFinishCalls c ++ [results]
    /\ finishTimeouts after = []
    /\ isGameFinished (state after) = true
    /\ timer (state after) = 0.
Proof.
  intros c now later Harmed Hon Hlast Hunfinished Hnone.
  cbn zeta.
  rewrite (expiry_step c now Harmed Hon Hlast Hunfinished).
  set (expired := scheduleFinish _ now).
  assert (Hpending : finishTimeouts expired
                     = [mkFinishClosure
                          (calculateResults (countdownTick (state c))
                             (wpmHistory c) now) (text (state c))]).
  { unfold expired, scheduleFinish. cbn. now rewrite Hnone. }
  destruct (run_finishTimeout later _ _ _ Hpending) as (Hs & Hp & Hc).
  split; [reflexivity|].
  split; [exact Hpending|].
  split; [now rewrite Hc|].
  split; [exact Hp|].
  rewrite Hs. split; [reflexivity|].
  cbn. lia.
Qed.

Lemma countdown_expiry_reports_once_witness :
  let c := run (firstn 30 expirySession) mounted in
  let expired := step 16000 CountdownTick c in
  let after := step 16001 FinishTimeout expired in
  let results :=
    calculateResults (countdownTick (state c)) (wpmHistory c) 16000 in
  countdownInterval expired = false
  /\ finishTimeouts expired = [mkFinishClosure results (text (state c))]
  /\ onGameFinishCalls after = onGameFinishCalls c ++ [results]
  /\ finishTimeouts after = []
  /\ isGameFinished (state after) = true
  /\ timer (state after) = 0.
Proof.
  apply (countdown_expiry_reports_once
           (run (firstn 30 expirySession) mounted) 16000 16001);
    reflexivity.
Defined.
(** ** The claims on the metrics, the ghost and the duration *)

Section Projection.

Lemma charactersTyped_near (elapsedMs opponentWpm : Z) :
  0 <= elapsedMs -> 0 <= opponentWpm ->
  let exact :=
    (inject_Z elapsedMs / 1000 * (inject_Z opponentWpm * 5 / 60))%Q in
  let product :=
    Binary64.mul (Binary64.div (inject_Z elapsedMs) 1000)
      (Binary64.div (Binary64.mul (inject_Z opponentWpm) 5) 60) in
  (0 <= exact
   /\ exact * (1 - (1 # 1125899906842624)) <= product
   /\ product <= exact * (1 + (1 # 1125899906842624)))%Q.
Proof.
  intros He Hw exact product.
  pose proof (inject_Z_nonneg elapsedMs He) as Hn.
  pose proof (inject_Z_nonneg opponentWpm Hw) as Hv.
  assert (Hs : (0 <= inject_Z elapsedMs / 1000)%Q)
    by (apply Qdiv_nonneg; [assumption | reflexivity]).
  destruct (round_relative_explicit _ Hs) as [Slo Shi].
  pose proof (round_nonneg _ Hs) as Sge.
  fold (Binary64.div (inject_Z elapsedMs) 1000) in Slo, Shi, Sge.
  set (s := Binary64.div (inject_Z elapsedMs) 1000) in *.
  assert (Hw5 : (0 <= inject_Z opponentWpm * 5)%Q)
    by (apply Qmult_le_0_compat; [assumption | discriminate]).
  destruct (round_relative_explicit _ Hw5) as [Wlo Whi].
  pose proof (round_nonneg _ Hw5) as Wge.
  fold (Binary64.mul (inject_Z opponentWpm) 5) in Wlo, Whi, Wge.
  set (w5 := Binary64.mul (inject_Z opponentWpm) 5) in *.
  assert (Hc : (0 <= w5 / 60)%Q)
    by (apply Qdiv_nonneg; [assumption | reflexivity]).
  destruct (round_relative_explicit _ Hc) as [Clo Chi].
  pose proof (round_nonneg _ Hc) as Cge.
  fold (Binary64.div w5 60) in Clo, Chi, Cge.
  set (cps := Binary64.div w5 60) in *.
  assert (Hp : (0 <= s * cps)%Q) by now apply Qmult_le_0_compat.
  destruct (round_relative_explicit _ Hp) as [Plo Phi].
  fold (Binary64.mul s cps) in Plo, Phi. fold product in Plo, Phi.
  assert (E1 : (inject_Z elapsedMs / 1000 == inject_Z elapsedMs * (1 # 1000))%Q)
    by field.
  assert (E2 : (w5 / 60 == w5 * (1 # 60))%Q) by field.
  rewrite E1 in Slo, Shi. rewrite E2 in Clo, Chi.
  set (n := inject_Z elapsedMs) in *. set (v := inject_Z opponentWpm) in *.
  assert (Hexact : (exact == n * (1 # 1000) * (v * (1 # 12)))%Q)
    by (unfold exact; fold n v; field).
  assert (Hx : (0 <= n * (1 # 1000) * (v * (1 # 12)))%Q).
  { apply Qmult_le_0_compat; apply Qmult_le_0_compat;
      try assumption; discriminate. }
  assert (Hhigh : (s * cps
                   <= n * (1 # 1000) * (1 + (1 # 9007199254740992))
                      * (v * (1 # 12) * ((1 + (1 # 9007199254740992)) * (1 + (1 # 9007199254740992)))))%Q).
  { apply Qmult_le_compat_nonneg; split; try assumption; lra. }
  assert (Hlow : (n * (1 # 1000) * (1 - (1 # 9007199254740992))
                  * (v * (1 # 12) * ((1 - (1 # 9007199254740992)) * (1 - (1 # 9007199254740992))))
                  <= s * cps)%Q).
  { apply Qmult_le_compat_nonneg; split; lra. }
  setoid_replace (n * (1 # 1000) * (1 + (1 # 9007199254740992))
                  * (v * (1 # 12) * ((1 + (1 # 9007199254740992)) * (1 + (1 # 9007199254740992)))))%Q
    with (n * (1 # 1000) * (v * (1 # 12)) * ((1 + (1 # 9007199254740992)) * (1 + (1 # 9007199254740992)) * (1 + (1 # 9007199254740992))))%Q
    in Hhigh by ring.
  setoid_replace (n * (1 # 1000) * (1 - (1 # 9007199254740992))
                  * (v * (1 # 12) * ((1 - (1 # 9007199254740992)) * (1 - (1 # 9007199254740992)))))%Q
    with (n * (1 # 1000) * (v * (1 # 12)) * ((1 - (1 # 9007199254740992)) * (1 - (1 # 9007199254740992)) * (1 - (1 # 9007199254740992))))%Q
    in Hlow by ring.
  rewrite <- Hexact in Hhigh, Hlow, Hx.
  set (t := exact) in *. set (p := (s * cps)%Q) in *.
  clearbody t p product.
  repeat split; lra.
Qed.

Lemma projected_index_near (len elapsedMs opponentWpm : Z) :
  0 <= elapsedMs -> 0 <= opponentWpm -> 0 <= len < 2 ^ 50 ->
  spec_projectedCharIndex len elapsedMs opponentWpm - 1
  <= Z.min (charactersTyped elapsedMs opponentWpm) len
  <= spec_projectedCharIndex len elapsedMs opponentWpm + 1.
Proof.
  intros He Hw [Hl0 Hl].
  destruct (charactersTyped_near elapsedMs opponentWpm He Hw)
    as (Ht & Plo & Phi).
  unfold spec_projectedCharIndex, charactersTyped, Math_floor.
  set (t := (inject_Z elapsedMs / 1000 * (inject_Z opponentWpm * 5 / 60))%Q)
    in *.
  set (p := Binary64.mul _ _) in *.
  assert (Hft : 0 <= Qfloor t)
    by (change 0 with (Qfloor 0); now apply Qfloor_resp_le).
  assert (Hlq : (inject_Z len <= 1125899906842623)%Q).
  { change 1125899906842623%Q with (inject_Z (2 ^ 50 - 1)).
    rewrite <- Zle_Qle. lia. }
  destruct (Qlt_le_dec 1125899906842624 t) as [Hbig|Hsmall].
  - assert (len <= Qfloor p).
    { rewrite <- (Qfloor_Z len). apply Qfloor_resp_le. lra. }
    assert (len <= Qfloor t).
    { rewrite <- (Qfloor_Z len). apply Qfloor_resp_le. lra. }
    lia.
  - assert (Hn : Qfloor t - 1 <= Qfloor p <= Qfloor t + 1)
      by (apply Qfloor_near; lra).
    lia.
Qed.

Lemma updateGhostCursor_index (s : GameState) (opponent : Opponent)
  (start now : Z) :
  isGameActive s = true ->
  startTime s = Some start ->
  start <> 0 ->
  0 < renderedSpans false s ->
  0 <= charactersTyped (now - start) (opponent_wpm opponent) ->
  exists placement,
    updateGhostCursor s opponent (renderedSpans false s) now = Some placement
    /\ placementIndex (renderedSpans false s) placement
       = Some (Z.min (charactersTyped (now - start) (opponent_wpm opponent))
                 (renderedSpans false s)).
Proof.
  intros Hactive Hstart Hnz Hspans Hge.
  unfold updateGhostCursor.
  set (spans := renderedSpans false s) in *.
  rewrite Hactive, Hstart. cbn [negb orb truthy].
  apply Z.eqb_neq in Hnz. rewrite Hnz. cbn [negb].
  set (typed := charactersTyped (now - start) (opponent_wpm opponent)) in *.
  destruct (typed =? 0) eqn:E0.
  - apply Z.eqb_eq in E0. eexists. split; [reflexivity|].
    simpl. f_equal. lia.
  - apply Z.eqb_neq in E0.
    destruct (typed <? spans) eqn:E1.
    + apply Z.ltb_lt in E1.
      assert (E2 : (typed <? 0) = false) by (apply Z.ltb_ge; lia).
      rewrite E2. eexists. split; [reflexivity|].
      simpl. f_equal. lia.
    + apply Z.ltb_ge in E1. eexists. split; [reflexivity|].
      simpl. f_equal. lia.
Qed.

End Projection.



(** C7, as the ghost effect has it. While the game is active, the ghost
    stands at the character index
    [Math.floor(elapsedMs / 1000 * ((wpm * 5) / 60))], computed in binary64
    and capped at the number of characters of the text; for a text of fewer
    than [2^50] characters this is the specification's exact index or next
    to it. The placement depends on the session only through
    [isGameActive], [startTime] and the length of the text, never on the
    typed input; and 60 WPM after 3000 ms gives index 15. *)
Theorem updateGhostCursor_projects_opponent :
  forall (s : GameState) (opponent : Opponent) (start now : Z),
    isGameActive s = true ->
    startTime s = Some start ->
    start <> 0 ->
    text s <> [] ->
    Z.of_nat (List.length (text s)) < 2 ^ 50 ->
    0 <= now - start ->
    0 <= opponent_wpm opponent ->
    let len := Z.of_nat (List.length (text s)) in
    let exact :=
      spec_projectedCharIndex len (now - start) (opponent_wpm opponent) in
    (exists placement index,
        updateGhostCursor s opponent (renderedSpans false s) now
        = Some placement
        /\ placementIndex (renderedSpans false s) placement = Some index
        /\ index
           = Z.min (charactersTyped (now - start) (opponent_wpm opponent))
               len
        /\ exact - 1 <= index <= exact + 1)
    /\ (forall typed : jsstring,
           updateGhostCursor
             (mkGameState (text s) typed (startTime s) (timer s)
                (isGameActive s) (isGameFinished s) (finalWPM s)
                (finalAccuracy s))
             opponent (renderedSpans false s) now
           = updateGhostCursor s opponent (renderedSpans false s) now)
    /\ charactersTyped 3000 60 = 15.
Proof.
  intros s opponent start now Hactive Hstart Hnz Htext Hlen Helapsed Hwpm
    len exact.
  assert (Hspans : 0 < renderedSpans false s).
  { unfold renderedSpans. destruct (text s); [contradiction | simpl; lia]. }
  split; [|split].
  - pose proof (charactersTyped_nonneg (now - start) (opponent_wpm opponent)
                  Helapsed Hwpm) as Hge.
    destruct (updateGhostCursor_index s opponent start now Hactive Hstart
                Hnz Hspans Hge) as (placement & Hp & Hi).
    exists placement. eexists. split; [exact Hp|].
    split; [exact Hi|]. split; [reflexivity|].
    change (renderedSpans false s) with len.
    apply (projected_index_near len); try assumption.
    unfold len. lia.
  - intros typed. reflexivity.
  - vm_compute. reflexivity.
Qed.

Lemma updateGhostCursor_projects_opponent_witness :
  let s :=
    mkGameState (str "The quick brown fox") (str "The") (Some 1000) 27
      true false 0 0 in
  exists placement index,
    updateGhostCursor s (mkOpponent 60 None 98 30) (renderedSpans false s)
      4000
    = Some placement
    /\ placementIndex (renderedSpans false s) placement = Some index
    /\ index = Z.min (charactersTyped (4000 - 1000) 60) 19
    /\ spec_projectedCharIndex 19 (4000 - 1000) 60 - 1
       <= index
       <= spec_projectedCharIndex 19 (4000 - 1000) 60 + 1.
Proof.
  intros s.
  apply (proj1 (updateGhostCursor_projects_opponent s
                  (mkOpponent 60 None 98 30) 1000 4000
                  eq_refl eq_refl ltac:(lia) ltac:(discriminate)
                  ltac:(reflexivity) ltac:(lia) ltac:(simpl; lia))).
Defined.

(** C7 as stated fails on the code: 2400 ms into a race against 35 WPM the
    binary64 product is just below 7, so the ghost stands before the span
    with index 6 where the exact formula gives 7. *)
Lemma ghost_one_behind_the_exact_index :
  let s :=
    mkGameState (str "The quick brown fox") (str "The") (Some 1000) 28
      true false 0 0 in
  updateGhostCursor s (mkOpponent 35 None 98 30) (renderedSpans false s)
    3400
  = Some (GhostBeforeSpan 6)
  /\ charactersTyped (3400 - 1000) 35 = 6
  /\ spec_projectedCharIndex 19 (3400 - 1000) 35 = 7.
Proof. vm_compute. repeat split; reflexivity. Qed.


(** C8, as the finish effects have it. Whichever way the end of the game is
    detected at time [now], every finish callback the step schedules holds
    the whole seconds elapsed since [startTime],
    [floor((now - startTime) / 1000)], as duration: the one callback
    scheduled by the tick that takes the countdown to 0, and the two
    scheduled by the key that completes the excerpt. The callback reports
    the results it holds, so the duration is that of the detection. It is
    below the configured number of seconds exactly when fewer than that
    many seconds of wall-clock time have elapsed, which the countdown
    showing time left does not ensure. *)
Theorem finish_duration_is_elapsed_seconds :
  forall (c : Component) (now start later : Z),
    startTime (state c) = Some start ->
    start <> 0 ->
    isGameActive (state c) = true ->
    isGameFinished (state c) = false ->
    (countdownInterval c = true ->
     timer (state c) = 1 ->
     exists closure,
       finishTimeouts (step now CountdownTick c)
       = finishTimeouts c ++ [closure]
       /\ result_duration (closure_results closure) = (now - start) / 1000)
    /\ (forall value : jsstring,
           isLoading c = false ->
           timer (state c) <> 0 ->
           value <> userInput (state c) ->
           List.length value = List.length (text (state c)) ->
           0 < now - start ->
           exists first second,
             finishTimeouts (step now (Input value) c)
             = finishTimeouts c ++ [first; second]
             /\ result_duration (closure_results first)
                = (now - start) / 1000
             /\ result_duration (closure_results second)
                = (now - start) / 1000)
    /\ (forall closure rest,
           finishTimeouts c = closure :: rest ->
           onGameFinishCalls (step later FinishTimeout c)
           = onGameFinishCalls c ++ [closure_results closure]
           /\ map data_duration (saveGameResultCalls (step later FinishTimeout c))
              = map data_duration (saveGameResultCalls c)
                ++ [result_duration (closure_results closure)])
    /\ (forall configured : TimerPreference,
           (now - start) / 1000 < seconds configured
           <-> now - start < 1000 * seconds configured).
Proof.
  intros c now start later Hstart Hnz Hactive Hunfinished.
  split; [|split; [|split]].
  - intros Harmed Hlast.
    rewrite (expiry_step c now Harmed Hactive Hlast Hunfinished).
    rewrite scheduleFinish_timeouts.
    eexists. split; [reflexivity|].
    apply calculateResults_duration; [|exact Hnz].
    exact Hstart.
  - intros value Hloaded Hrunning Hvalue Hlen Helapsed.
    destruct (completion_step c now start value Hunfinished Hloaded Hactive
                Hstart Hnz Helapsed Hrunning Hvalue Hlen)
      as (Hpending & _).
    rewrite Hpending.
    assert (Htyped : startTime (handleInput value now (state c))
                     = Some start).
    { unfold handleInput. rewrite Hactive. cbn [negb].
      rewrite andb_false_r. exact Hstart. }
    do 2 eexists. split; [reflexivity|].
    split; apply calculateResults_duration; assumption.
  - intros closure rest Hpending.
    destruct (run_finishTimeout later c closure rest Hpending)
      as (_ & _ & Hcalls).
    split; [exact Hcalls|].
    unfold step. cbn [handle]. rewrite Hpending.
    destruct (commit_calls false c
                (finishCallback closure (withFinishTimeouts rest c)) later)
      as [_ ->].
    cbn. now rewrite map_app.
  - intros configured. split; intros H.
    + destruct (Z_lt_ge_dec (now - start) (1000 * seconds configured))
        as [Hlt|Hge]; [assumption|].
      assert (seconds configured <= (now - start) / 1000)
        by (apply Z.div_le_lower_bound; lia).
      lia.
    + apply Z.div_lt_upper_bound; lia.
Qed.

Lemma finish_duration_is_elapsed_seconds_witness :
  let c := run (firstn 3 completionSession) mounted in
  exists first second,
    finishTimeouts (step 1600 (Input (str "cat")) c)
    = finishTimeouts c ++ [first; second]
    /\ result_duration (closure_results first) = (1600 - 1000) / 1000
    /\ result_duration (closure_results second) = (1600 - 1000) / 1000.
Proof.
  intros c.
  apply (proj1 (proj2 (finish_duration_is_elapsed_seconds c 1600 1000 1601
                         eq_refl ltac:(lia) eq_refl eq_refl))
           (str "cat")).
  - reflexivity.
  - vm_compute. discriminate.
  - vm_compute. discriminate.
  - reflexivity.
  - lia.
Defined.

(** C8 as stated fails on the code: with countdown ticks that come late,
    the excerpt is completed while the countdown of the 15 s game still
    shows 1, and the duration reported, twice, is 15, not below the
    configured 15. *)
Lemma early_finish_with_full_duration :
  let before := run (firstn 30 lateTicksSession) mounted in
  let c := run lateTicksSession mounted in
  timer (state before) = 1
  /\ isGameFinished (state before) = false
  /\ userInput (state c) = text (state c)
  /\ seconds (timerPreference c) = 15
  /\ map result_duration (onGameFinishCalls c) = [15; 15].
Proof. vm_compute. repeat split; reflexivity. Qed.

(** C9 as stated fails on the code: the range checks come before the
    identity test, so data out of range submitted without an authenticated
    user is rejected with an error, not resolved with [success: false]. The
    component does submit such data: pasting a 100-character excerpt one
    second after the first key reports 999 WPM, which is above 350. *)
Lemma anonymous_out_of_range_is_rejected :
  let anonymous := mkServer (Some None) (fun _ _ => Some "row-1"%string) in
  let c := run pastedSession mounted in
  map data_wpm (saveGameResultCalls c) = [999; 999]
  /\ map (fun data => saveGameResult anonymous data) (saveGameResultCalls c)
     = [(Rejected "Failed to save game result", []);
        (Rejected "Failed to save game result", [])].
Proof. vm_compute. split; reflexivity. Qed.
